(** * node-cielo: a shallow embedding of the connection and device logic

    The development follows [Cielo.js] (classes [CieloHVAC] and
    [CieloAPIConnection]) and [CieloConnectionManager.js].

    - JavaScript values are an inductive type [JSValue]; numbers are carried
      as integers ([Z]): the program only tests them for truthiness, compares
      them, multiplies them by powers of two and prints them.
    - Strings are [string], the bytes of the UTF-8 form of the text;
      [toUpperCase] acts on the ASCII letters, which is what MAC addresses
      are made of, and [jsLength] is the length as the program counts it.
    - A thrown exception (or a rejected promise) is the [Throw] case of
      [Result]; the sequencing of statements is the bind of that monad. A
      promise that can also stay pending ends in a [Settlement].
    - The private field [#previousPowerStates], a plain object used as a
      dictionary, is a [gmap string JSValue] under the prototype of plain
      objects.
    - Timers ([setTimeout], [setInterval]) are entries of a timer table held
      next to the manager's fields; network answers and the clock are
      arguments of the operations that consume them. *)

From Stdlib Require Import ZArith String Ascii List Bool Lia.
From stdpp Require Import base option gmap strings list pretty.
Import ListNotations.

Open Scope string_scope.
Open Scope list_scope.
Open Scope Z_scope.

(** ** JavaScript values *)

Set Warnings "-register-all".

Inductive JSValue : Type :=
| JUndefined
| JNull
| JBool (b : bool)
| JNum (n : Z)
| JStr (s : string)
| JArr (items : list JSValue)
| JObj (props : list (string * JSValue))
| JNative (name : string).

(** Errors: an [Error], [TypeError] or [SyntaxError] object is represented by
    its message. *)
Inductive JSError : Type :=
| TypeError (message : string)
| Error (message : string)
| SyntaxError (message : string).

Definition errorMessage (e : JSError) : string :=
  match e with
  | TypeError m => m
  | Error m => m
  | SyntaxError m => m
  end.

Inductive Result (A : Type) : Type :=
| Ok (a : A)
| Throw (e : JSError).

Arguments Ok {A} a.
Arguments Throw {A} e.

#[global] Instance Result_ret : MRet Result := fun A a => Ok a.

#[global] Instance Result_bind : MBind Result := fun A B f m =>
  match m with
  | Ok a => f a
  | Throw e => Throw e
  end.

(** [ToBoolean]: what [if (v)], [!v], [v && w] and [v || w] test. *)
Definition truthy (v : JSValue) : bool :=
  match v with
  | JUndefined | JNull => false
  | JBool b => b
  | JNum n => negb (n =? 0)
  | JStr s => negb (String.eqb s EmptyString)
  | JArr _ | JObj _ | JNative _ => true
  end.

(** [a || b] on values. *)
Definition js_or (a b : JSValue) : JSValue := if truthy a then a else b.

Definition typeof (v : JSValue) : string :=
  match v with
  | JUndefined => "undefined"
  | JNull => "object"
  | JBool _ => "boolean"
  | JNum _ => "number"
  | JStr _ => "string"
  | JArr _ | JObj _ => "object"
  | JNative _ => "function"
  end.

Definition nullish (v : JSValue) : bool :=
  match v with
  | JUndefined | JNull => true
  | _ => false
  end.

Fixpoint assoc (k : string) (props : list (string * JSValue)) : JSValue :=
  match props with
  | [] => JUndefined
  | (k', v) :: rest => if String.eqb k k' then v else assoc k rest
  end.

(** [v.k] where [v] is neither [undefined] nor [null], for the property names
    the program reads ([message_type], [action], [mac_address], [power], ...):
    an own property of an object, [undefined] on anything else. *)
Definition member (k : string) (v : JSValue) : JSValue :=
  match v with
  | JObj props => assoc k props
  | _ => JUndefined
  end.

(** [v.k] in general: reading a property of [undefined] or [null] throws. *)
Definition get (k : string) (v : JSValue) : Result JSValue :=
  match v with
  | JUndefined =>
      Throw (TypeError ("Cannot read properties of undefined (reading '" +:+ k +:+ "')"))
  | JNull =>
      Throw (TypeError ("Cannot read properties of null (reading '" +:+ k +:+ "')"))
  | _ => Ok (member k v)
  end.

(** [v?.k] *)
Definition get_opt (k : string) (v : JSValue) : JSValue :=
  if nullish v then JUndefined else member k v.

(** [a === s] for a string [s]. *)
Definition strict_eq_str (s : string) (v : JSValue) : bool :=
  match v with
  | JStr s' => String.eqb s s'
  | _ => false
  end.

(** [v === n] for a number [n]. *)
Definition strict_eq_num (n : Z) (v : JSValue) : bool :=
  match v with
  | JNum n' => n =? n'
  | _ => false
  end.

Definition is_undefined (v : JSValue) : bool :=
  match v with
  | JUndefined => true
  | _ => false
  end.

Fixpoint join (sep : string) (l : list string) : string :=
  match l with
  | [] => EmptyString
  | [s] => s
  | s :: rest => s +:+ sep +:+ join sep rest
  end.

(** [String(v)]. A number of this model is an integer; the decimal digits
    are what [String] gives for the integers below 10^21 in absolute value,
    which are the ones the program handles (temperatures, identifiers, times
    in seconds). *)
Fixpoint ToString (v : JSValue) : string :=
  match v with
  | JUndefined => "undefined"
  | JNull => "null"
  | JBool true => "true"
  | JBool false => "false"
  | JNum n => pretty n
  | JStr s => s
  | JArr items =>
      join "," (map (fun x => if nullish x then EmptyString else ToString x) items)
  | JObj _ => "[object Object]"
  | JNative name => "function " +:+ name +:+ "() { [native code] }"
  end.

(** The value of a string of decimal digits. *)
Definition digitOf (c : ascii) : option Z :=
  let n := Z.of_N (N_of_ascii c) in
  if (48 <=? n) && (n <=? 57) then Some (n - 48) else None.

Fixpoint digitsValue (s : string) (acc : Z) : option Z :=
  match s with
  | EmptyString => Some acc
  | String c rest =>
      match digitOf c with
      | Some d => digitsValue rest (10 * acc + d)
      | None => None
      end
  end.

(** [Number(s)] for a string: the empty string is 0, decimal digits with an
    optional sign are the integer they spell, and [None] is [NaN]. The other
    spellings of a number in a string (blanks around it, a fraction, an
    exponent, a radix prefix, [Infinity]) are not integers of the model or
    are left out: they give [None] here. *)
Definition StringToNumber (s : string) : option Z :=
  match s with
  | EmptyString => Some 0
  | String "-" (String c rest) => Z.opp <$> digitsValue (String c rest) 0
  | String "+" (String c rest) => digitsValue (String c rest) 0
  | _ => digitsValue s 0
  end.

(** [a + b] where one side is a string. *)
Definition js_concat (a b : JSValue) : JSValue := JStr (ToString a +:+ ToString b).

(** [s.length]: the number of UTF-16 code units of a string, which this
    model holds as the bytes of its UTF-8 form. A byte that continues a
    character counts for nothing, the first byte of a character for one
    unit, and for two when the character needs four bytes (a surrogate
    pair). *)
Definition unitsOf (c : ascii) : nat :=
  let n := Z.of_N (N_of_ascii c) in
  if (128 <=? n) && (n <? 192) then 0%nat
  else if 240 <=? n then 2%nat
  else 1%nat.

Fixpoint jsLength (s : string) : nat :=
  match s with
  | EmptyString => 0%nat
  | String c rest => (unitsOf c + jsLength rest)%nat
  end.

(** [s.toUpperCase()] on ASCII text. *)
Definition toUpperCaseAscii (c : ascii) : ascii :=
  let n := nat_of_ascii c in
  if ((97 <=? n) && (n <=? 122))%nat then ascii_of_nat (n - 32) else c.

Fixpoint toUpperCase (s : string) : string :=
  match s with
  | EmptyString => EmptyString
  | String c rest => String (toUpperCaseAscii c) (toUpperCase rest)
  end.

(** [s.startsWith(p)] *)
Definition startsWith (p s : string) : bool := String.prefix p s.

(** [s.includes(p)] *)
Definition includes (p s : string) : bool :=
  match String.index 0 p s with
  | Some _ => true
  | None => false
  end.

(** ** Plain objects used as dictionaries

    [#previousPowerStates = {}] inherits from [Object.prototype]: reading a
    key that is not an own property finds the prototype's member of that name
    when there is one, and assigning to [__proto__] creates no own property
    (an object assigned there would become the prototype; no device has that
    name for a MAC address, and the statements below exclude it). *)

Definition objectPrototypeKeys : list string :=
  [ "constructor"; "__defineGetter__"; "__defineSetter__"; "hasOwnProperty";
    "__lookupGetter__"; "__lookupSetter__"; "isPrototypeOf";
    "propertyIsEnumerable"; "toString"; "valueOf"; "__proto__";
    "toLocaleString" ].

Definition inPrototype (k : string) : bool :=
  existsb (String.eqb k) objectPrototypeKeys.

Definition dict_get (d : gmap string JSValue) (k : string) : JSValue :=
  match d !! k with
  | Some v => v
  | None => if inPrototype k then JNative k else JUndefined
  end.

Definition dict_set (d : gmap string JSValue) (k : string) (v : JSValue)
  : gmap string JSValue :=
  if String.eqb k "__proto__" then d else <[k := v]> d.

(** ** Constants of Cielo.js *)

Definition DEFAULT_POWER : JSValue := JStr "off".
Definition DEFAULT_MODE : JSValue := JStr "auto".
Definition DEFAULT_FAN : JSValue := JStr "auto".
Definition DEFAULT_TEMPERATURE : JSValue := JNum 75.
Definition APP_VERSION : string := "1.4.4".

(** ** class CieloHVAC *)

Record CieloHVAC : Type := mkCieloHVAC {
  power : JSValue;
  temperature : JSValue;
  mode : JSValue;
  fanSpeed : JSValue;
  roomTemperature : JSValue;
  deviceName : JSValue;
  macAddress : string;
  deviceTypeVersion : string;
  applianceID : JSValue;
  fwVersion : JSValue
}.

(** The class's field initialisers followed by the constructor body. A truthy
    [deviceTypeVersion] that is not a string has no [startsWith] method, and
    calling it throws. *)
Definition new_CieloHVAC (macAddress_ : string)
    (deviceName_ applianceID_ fwVersion_ deviceTypeVersion_ : JSValue)
  : Result CieloHVAC :=
  let make dtv :=
    {| power := DEFAULT_POWER;
       temperature := DEFAULT_TEMPERATURE;
       mode := DEFAULT_MODE;
       fanSpeed := DEFAULT_FAN;
       roomTemperature := DEFAULT_TEMPERATURE;
       deviceName := deviceName_;
       macAddress := macAddress_;
       deviceTypeVersion := dtv;
       applianceID := applianceID_;
       fwVersion := fwVersion_ |} in
  if truthy deviceTypeVersion_ then
    match deviceTypeVersion_ with
    | JStr s =>
        if startsWith "BI" s || startsWith "BP" s
        then Ok (make s)
        else Ok (make "BP01")
    | _ => Throw (TypeError "deviceTypeVersion.startsWith is not a function")
    end
  else Ok (make "BP01").

Definition getPower (h : CieloHVAC) : JSValue := power h.
Definition getTemperature (h : CieloHVAC) : JSValue := temperature h.
Definition getMode (h : CieloHVAC) : JSValue := mode h.
Definition getFanSpeed (h : CieloHVAC) : JSValue := fanSpeed h.
Definition getRoomTemperature (h : CieloHVAC) : JSValue := roomTemperature h.
Definition getMacAddress (h : CieloHVAC) : string := macAddress h.
Definition getDeviceTypeVersion (h : CieloHVAC) : string := deviceTypeVersion h.
Definition getApplianceID (h : CieloHVAC) : JSValue := applianceID h.
Definition getFwVersion (h : CieloHVAC) : JSValue := fwVersion h.

Definition updateState (h : CieloHVAC) (power_ temperature_ mode_ fanSpeed_ : JSValue)
  : CieloHVAC :=
  {| power := power_;
     temperature := temperature_;
     mode := mode_;
     fanSpeed := fanSpeed_;
     roomTemperature := roomTemperature h;
     deviceName := deviceName h;
     macAddress := macAddress h;
     deviceTypeVersion := deviceTypeVersion h;
     applianceID := applianceID h;
     fwVersion := fwVersion h |}.

Definition updateRoomTemperature (h : CieloHVAC) (roomTemperature_ : JSValue)
  : CieloHVAC :=
  {| power := power h;
     temperature := temperature h;
     mode := mode h;
     fanSpeed := fanSpeed h;
     roomTemperature := roomTemperature_;
     deviceName := deviceName h;
     macAddress := macAddress h;
     deviceTypeVersion := deviceTypeVersion h;
     applianceID := applianceID h;
     fwVersion := fwVersion h |}.

(** ** class CieloAPIConnection *)

(** The [actions] object built by [#buildCommand]. *)
Record Actions : Type := mkActions {
  act_power : JSValue;
  act_mode : JSValue;
  act_fanspeed : JSValue;
  act_temp : JSValue;
  act_swing : string;
  act_swinginternal : string;
  act_turbo : string;
  act_light : string;
  act_followme : string
}.

(** The object that [#buildCommandPayload] hands to [JSON.stringify]. *)
Record CommandPayload : Type := mkCommandPayload {
  p_action : string;
  p_actionSource : string;
  p_applianceType : string;
  p_macAddress : string;
  p_deviceTypeVersion : string;
  p_fwVersion : JSValue;
  p_applianceId : JSValue;
  p_actionType : string;
  p_actionValue : JSValue;
  p_connection_source : Z;
  p_user_id : JSValue;
  p_preset : Z;
  p_oldPower : JSValue;
  p_myRuleConfiguration : JSValue;
  p_mid : string;
  p_actions : Actions;
  p_application_version : string;
  p_ts : Z
}.

(** [readyState] of a socket of the [ws] library. *)
Inductive ReadyState : Type :=
| CONNECTING
| OPEN
| CLOSING
| CLOSED.

(** The socket as the program sees it: its state, and the frames written. *)
Record WebSocket : Type := mkWebSocket {
  ws_readyState : ReadyState;
  ws_sent : list CommandPayload
}.

Definition ws_open (w : WebSocket) : bool :=
  match ws_readyState w with
  | OPEN => true
  | _ => false
  end.

(** The message of the error that [send] of the [ws] library gives for a
    socket that is not open. *)
Definition notOpenMessage (state : ReadyState) : string :=
  "WebSocket is not open: readyState " +:+
  match state with
  | CONNECTING => "0 (CONNECTING)"
  | OPEN => "1 (OPEN)"
  | CLOSING => "2 (CLOSING)"
  | CLOSED => "3 (CLOSED)"
  end.

(** Calls of the three callbacks given to the constructor, oldest first. *)
Inductive Notification : Type :=
| CommandCallback (status : JSValue)
| TemperatureCallback (temperature_ : JSValue)
| ErrorCallback (message : string).

Record CieloAPIConnection : Type := mkAPI {
  sessionID : JSValue;
  userID : JSValue;
  accessToken : JSValue;
  refreshToken : JSValue;
  expiresIn : JSValue;
  commandCount : Z;
  previousPowerStates : gmap string JSValue;
  ws : option WebSocket;
  hvacs : list CieloHVAC;
  commandCallback : bool;
  temperatureCallback : bool;
  notifications : list Notification
}.

(** [new CieloAPIConnection(commandCallback, temperatureCallback, errorCallback)];
    the two booleans say whether the callbacks are defined. *)
Definition new_CieloAPIConnection (commandCallback_ temperatureCallback_ : bool)
  : CieloAPIConnection :=
  {| sessionID := JUndefined;
     userID := JUndefined;
     accessToken := JUndefined;
     refreshToken := JUndefined;
     expiresIn := JUndefined;
     commandCount := 0;
     previousPowerStates := ∅;
     ws := None;
     hvacs := [];
     commandCallback := commandCallback_;
     temperatureCallback := temperatureCallback_;
     notifications := [] |}.

Definition set_hvacs (api : CieloAPIConnection) (l : list CieloHVAC)
  : CieloAPIConnection :=
  {| sessionID := sessionID api; userID := userID api;
     accessToken := accessToken api; refreshToken := refreshToken api;
     expiresIn := expiresIn api; commandCount := commandCount api;
     previousPowerStates := previousPowerStates api; ws := ws api;
     hvacs := l;
     commandCallback := commandCallback api;
     temperatureCallback := temperatureCallback api;
     notifications := notifications api |}.

Definition set_commandCount (api : CieloAPIConnection) (n : Z)
  : CieloAPIConnection :=
  {| sessionID := sessionID api; userID := userID api;
     accessToken := accessToken api; refreshToken := refreshToken api;
     expiresIn := expiresIn api; commandCount := n;
     previousPowerStates := previousPowerStates api; ws := ws api;
     hvacs := hvacs api;
     commandCallback := commandCallback api;
     temperatureCallback := temperatureCallback api;
     notifications := notifications api |}.

Definition set_previousPowerStates (api : CieloAPIConnection)
    (d : gmap string JSValue) : CieloAPIConnection :=
  {| sessionID := sessionID api; userID := userID api;
     accessToken := accessToken api; refreshToken := refreshToken api;
     expiresIn := expiresIn api; commandCount := commandCount api;
     previousPowerStates := d; ws := ws api;
     hvacs := hvacs api;
     commandCallback := commandCallback api;
     temperatureCallback := temperatureCallback api;
     notifications := notifications api |}.

Definition set_ws (api : CieloAPIConnection) (w : option WebSocket)
  : CieloAPIConnection :=
  {| sessionID := sessionID api; userID := userID api;
     accessToken := accessToken api; refreshToken := refreshToken api;
     expiresIn := expiresIn api; commandCount := commandCount api;
     previousPowerStates := previousPowerStates api; ws := w;
     hvacs := hvacs api;
     commandCallback := commandCallback api;
     temperatureCallback := temperatureCallback api;
     notifications := notifications api |}.

Definition notify (api : CieloAPIConnection) (n : Notification)
  : CieloAPIConnection :=
  {| sessionID := sessionID api; userID := userID api;
     accessToken := accessToken api; refreshToken := refreshToken api;
     expiresIn := expiresIn api; commandCount := commandCount api;
     previousPowerStates := previousPowerStates api; ws := ws api;
     hvacs := hvacs api;
     commandCallback := commandCallback api;
     temperatureCallback := temperatureCallback api;
     notifications := notifications api ++ [n] |}.

(** *** Payload builders *)

Definition buildCommand (temp power_ fanspeed mode_ : JSValue) (isAction : bool)
    (performedAction : string) (performedValue : JSValue) : Actions :=
  let tempValue :=
    if isAction && String.eqb performedAction "temp"
    then JStr (ToString performedValue) else temp in
  {| act_power :=
       if isAction && String.eqb performedAction "power" then performedValue else power_;
     act_mode :=
       if isAction && String.eqb performedAction "mode" then performedValue else mode_;
     act_fanspeed :=
       if isAction && String.eqb performedAction "fanspeed" then performedValue else fanspeed;
     act_temp := tempValue;
     act_swing := "adjust";
     act_swinginternal := EmptyString;
     act_turbo := "off";
     act_light := "on/off";
     act_followme := "off" |}.

(** [Math.round(Date.now() / 1000)] for a clock reading in milliseconds. *)
Definition unixSeconds (now : Z) : Z := (now + 500) / 1000.

(** [#buildCommandPayload]; [now] is [Date.now()]. The result pairs the
    connection after the call with the payload. *)
Definition buildCommandPayload (api : CieloAPIConnection) (hvac : CieloHVAC)
    (performedAction : string) (performedActionValue : JSValue) (now : Z)
  : CieloAPIConnection * CommandPayload :=
  let api1 := set_commandCount api (commandCount api + 1) in
  let macAddress_ := getMacAddress hvac in
  let oldPower := js_or (dict_get (previousPowerStates api1) macAddress_) (JStr "off") in
  let api2 :=
    if String.eqb performedAction "power"
    then set_previousPowerStates api1
           (dict_set (previousPowerStates api1) macAddress_ performedActionValue)
    else api1 in
  (api2,
   {| p_action := "actionControl";
      p_actionSource := "WEB";
      p_applianceType := "AC";
      p_macAddress := macAddress_;
      p_deviceTypeVersion :=
        (if String.eqb (getDeviceTypeVersion hvac) EmptyString
         then "BI01" else getDeviceTypeVersion hvac);
      p_fwVersion := getFwVersion hvac;
      p_applianceId := getApplianceID hvac;
      p_actionType := performedAction;
      p_actionValue := performedActionValue;
      p_connection_source := 0;
      p_user_id := userID api2;
      p_preset := 0;
      p_oldPower := oldPower;
      p_myRuleConfiguration := JObj [];
      p_mid := "WEB";
      p_actions :=
        buildCommand (getTemperature hvac) (getPower hvac) (getFanSpeed hvac)
          (getMode hvac) true performedAction performedActionValue;
      p_application_version := APP_VERSION;
      p_ts := unixSeconds now |}).

(** [sendCommand]: the pair of the connection after the call and the outcome
    of the returned promise. With no socket, [this.#ws.send] throws inside
    the promise's executor, and so does [send] on a socket that is still
    connecting; a socket that is closing or closed reports the error to the
    [send] callback. All of these reject the promise. The lines that append
    to the debug log are left out. *)
Definition sendCommand (api : CieloAPIConnection) (hvac : CieloHVAC)
    (performedAction : string) (performedActionValue : JSValue) (now : Z)
  : CieloAPIConnection * Result unit :=
  let '(api1, payload) :=
    buildCommandPayload api hvac performedAction performedActionValue now in
  match ws api1 with
  | None =>
      (api1, Throw (TypeError "Cannot read properties of undefined (reading 'send')"))
  | Some w =>
      if ws_open w
      then (set_ws api1 (Some {| ws_readyState := OPEN; ws_sent := ws_sent w ++ [payload] |}),
            Ok tt)
      else (api1, Throw (Error (notOpenMessage (ws_readyState w))))
  end.

(** The setters of [CieloHVAC] that go through the connection. *)
Definition setMode (h : CieloHVAC) (mode_ : JSValue) (api : CieloAPIConnection) (now : Z) :=
  sendCommand api h "mode" mode_ now.
Definition setFanSpeed (h : CieloHVAC) (fanspeed : JSValue) (api : CieloAPIConnection) (now : Z) :=
  sendCommand api h "fanspeed" fanspeed now.
Definition setTemperature (h : CieloHVAC) (temperature_ : JSValue) (api : CieloAPIConnection) (now : Z) :=
  sendCommand api h "temp" temperature_ now.
Definition powerOn (h : CieloHVAC) (api : CieloAPIConnection) (now : Z) :=
  sendCommand api h "power" (JStr "on") now.
Definition powerOff (h : CieloHVAC) (api : CieloAPIConnection) (now : Z) :=
  sendCommand api h "power" (JStr "off") now.

(** *** The socket's message listener *)

(** [v.length > 0] *)
Definition length_positive (v : JSValue) : bool :=
  match v with
  | JStr s => (0 <? String.length s)%nat
  | JArr items => (0 <? List.length items)%nat
  | _ => false
  end.

(** The body of the [forEach] callback of the [StateUpdate] branch, for one
    device: the device and the power dictionary after it. *)
Definition stateUpdateDevice (data status thisMac : JSValue)
    (hvac : CieloHVAC) (prev : gmap string JSValue)
  : Result (CieloHVAC * gmap string JSValue) :=
  if strict_eq_str (getMacAddress hvac) thisMac then
    power_ ← get "power" status;
    temp ← get "temp" status;
    mode_ ← get "mode" status;
    fanspeed ← get "fanspeed" status;
    let h1 := updateState hvac power_ temp mode_ fanspeed in
    lat ← get "lat_env_var" data;
    h2 ← (if truthy lat then
            roomTemp ← get "temperature" lat;
            humidity ← get "humidity" lat;
            mret (if is_undefined roomTemp then h1
                  else updateRoomTemperature h1 roomTemp)
          else mret h1);
    power' ← get "power" status;
    mret (h2, dict_set prev (getMacAddress hvac) power')
  else mret (hvac, prev).

(** [this.hvacs.forEach(...)], threading the power dictionary. *)
Fixpoint forEachHvac
    (f : CieloHVAC → gmap string JSValue → Result (CieloHVAC * gmap string JSValue))
    (l : list CieloHVAC) (prev : gmap string JSValue)
  : Result (list CieloHVAC * gmap string JSValue) :=
  match l with
  | [] => mret ([], prev)
  | h :: rest =>
      '(h', prev') ← f h prev;
      '(rest', prev'') ← forEachHvac f rest prev';
      mret (h' :: rest', prev'')
  end.

(** The listener registered by [this.#ws.on("message", ...)], applied to
    [data], the value that [JSON.parse(message)] returned. The debug log
    written to a file is left out. *)
Definition onMessage (api : CieloAPIConnection) (data : JSValue)
  : Result CieloAPIConnection :=
  message_type ← get "message_type" data;
  action ← get "action" data;
  if truthy message_type
     && String.eqb (typeof message_type) "string"
     && length_positive message_type
     && truthy action
     && String.eqb (typeof action) "object"
  then
    let messageType := message_type in
    let status := action in
    thisMac ← get "mac_address" data;
    if strict_eq_str "StateUpdate" messageType then
      '(hvacs', prev') ←
        forEachHvac (stateUpdateDevice data status thisMac)
          (hvacs api) (previousPowerStates api);
      let api1 := set_previousPowerStates (set_hvacs api hvacs') prev' in
      let api2 :=
        if commandCallback api1 then notify api1 (CommandCallback status) else api1 in
      lat ← get "lat_env_var" data;
      if temperatureCallback api2 && truthy lat then
        t ← get "temperature" lat;
        if truthy t then mret (notify api2 (TemperatureCallback t)) else mret api2
      else mret api2
    else mret api
  else mret api.

(** The listener of the socket's [message] event as a whole: [parsed] is what
    [JSON.parse(message)] came to, the value or the error that it threw; the
    rest is [onMessage]. The lines that append to the debug log are left
    out. *)
Definition onFrame (api : CieloAPIConnection) (parsed : Result JSValue)
  : Result CieloAPIConnection :=
  data ← parsed;
  onMessage api data.

(** *** Subscription *)

(** An entry of [deviceInfo.data.listDevices]. *)
Record DirectoryDevice : Type := mkDirectoryDevice {
  d_macAddress : string;
  d_deviceName : JSValue;
  d_applianceId : JSValue;
  d_fwVersion : JSValue;
  d_deviceTypeVersion : JSValue;
  d_latestAction : JSValue;
  d_latEnv : JSValue
}.

(** The body of the loop of [subscribeToHVACs] for a selected device. *)
Definition subscribeDevice (device : DirectoryDevice) : Result CieloHVAC :=
  hvac ← new_CieloHVAC (d_macAddress device) (d_deviceName device)
           (d_applianceId device) (d_fwVersion device) (d_deviceTypeVersion device);
  power_ ← get "power" (d_latestAction device);
  temp ← get "temp" (d_latestAction device);
  mode_ ← get "mode" (d_latestAction device);
  fanspeed ← get "fanspeed" (d_latestAction device);
  let hvac1 := updateState hvac power_ temp mode_ fanspeed in
  roomTemp ← get "temp" (d_latEnv device);
  mret (updateRoomTemperature hvac1 roomTemp).

(** [macAddresses.includes(mac)] *)
Definition includesMac (macAddresses : list string) (mac : string) : bool :=
  existsb (String.eqb mac) macAddresses.

(** The [for] loop of [subscribeToHVACs]: [hvacs_] is [this.hvacs] as the
    loop has filled it so far. The result is [this.hvacs] when the loop ends
    or throws, and how it ended. *)
Fixpoint subscribeLoop (subscribeToAll : bool) (macAddresses : list string)
    (listDevices : list DirectoryDevice) (hvacs_ : list CieloHVAC)
  : list CieloHVAC * Result unit :=
  match listDevices with
  | [] => (hvacs_, Ok tt)
  | device :: rest =>
      if subscribeToAll || includesMac macAddresses (d_macAddress device) then
        match subscribeDevice device with
        | Ok hvac => subscribeLoop subscribeToAll macAddresses rest (hvacs_ ++ [hvac])
        | Throw e => (hvacs_, Throw e)
        end
      else subscribeLoop subscribeToAll macAddresses rest hvacs_
  end.

(** A value that is missing: [undefined] or [null]. *)
Inductive Missing : Type :=
| IsUndefined
| IsNull.

(** The [TypeError] of reading property [k] of a missing value. *)
Definition cannotRead (m : Missing) (k : string) : JSError :=
  TypeError ("Cannot read properties of " +:+
             match m with
             | IsUndefined => "undefined"
             | IsNull => "null"
             end +:+ " (reading '" +:+ k +:+ "')").

(** [deviceInfo.data]: missing, an object whose [listDevices] cannot be
    iterated (the property is absent, for one), or an object with the list
    of the devices. The MAC address of an entry is a string. *)
Inductive DeviceData : Type :=
| DataMissing (m : Missing)
| DataWithoutList
| DataList (listDevices : list DirectoryDevice).

(** What [#getDeviceInfo()] returns, as [subscribeToHVACs] reads it:
    [undefined] when the request or the parsing of its answer failed (or
    [null], for an answer that is the JSON text null), else the parsed
    answer with its [error] and [data]. *)
Inductive DeviceInfo : Type :=
| InfoMissing (m : Missing)
| InfoObject (error : JSValue) (data : DeviceData).

(** The reason of a rejected promise: an error that was thrown, or the value
    given to [Promise.reject]. *)
Inductive Rejection : Type :=
| ThrownError (e : JSError)
| RejectedValue (v : JSValue).

(** How a promise ended, or that it never settles. *)
Inductive Settlement : Type :=
| Resolved
| Rejected (reason : Rejection)
| NeverSettles.

(** [subscribeToHVACs(macAddresses)]: the connection after the call and what
    becomes of the returned promise. [deviceInfo] is what the awaited
    [#getDeviceInfo()] returned; [socketOpens] tells whether the socket that
    [#connect] creates reports open, which is what resolves the promise. A
    rejection leaves [this.hvacs] as the loop had filled it and the previous
    socket in place. The lines that append to the debug log are left out. *)
Definition subscribeToHVACs (api : CieloAPIConnection) (macAddresses : list string)
    (deviceInfo : DeviceInfo) (socketOpens : bool)
  : CieloAPIConnection * Settlement :=
  let api1 := set_commandCount (set_hvacs api []) 0 in
  match deviceInfo with
  | InfoMissing m => (api1, Rejected (ThrownError (cannotRead m "error")))
  | InfoObject error data =>
      if truthy error then (api1, Rejected (RejectedValue error))
      else
        let subscribeToAll := (List.length macAddresses =? 0)%nat in
        match data with
        | DataMissing m =>
            (api1, Rejected (ThrownError (cannotRead m "listDevices")))
        | DataWithoutList =>
            (api1, Rejected (ThrownError
                     (TypeError "deviceInfo.data.listDevices is not iterable")))
        | DataList listDevices =>
            let '(l, looped) :=
              subscribeLoop subscribeToAll macAddresses listDevices (hvacs api1) in
            let api2 := set_hvacs api1 l in
            match looped with
            | Throw e => (api2, Rejected (ThrownError e))
            | Ok _ =>
                (set_ws api2
                   (Some {| ws_readyState := if socketOpens then OPEN else CONNECTING;
                            ws_sent := [] |}),
                 if socketOpens then Resolved else NeverSettles)
            end
        end
  end.

(** *** Session *)

(** The handler of the login response in [#getAccessTokenAndSessionId]. *)
Definition loginData (responseJSON : JSValue) : Result JSValue :=
  let failed :=
    Throw (Error ("Login failed: " +:+
                  ToString (js_or (member "message" responseJSON)
                                  (JStr "Unknown error")))) in
  status ← get "status" responseJSON;
  if negb (strict_eq_num 200 status) then failed
  else
    data ← get "data" responseJSON;
    if negb (truthy data) then failed
    else
      user ← get "user" data;
      if negb (truthy user) then failed else mret user.

Definition set_session (api : CieloAPIConnection)
    (sessionID_ userID_ accessToken_ refreshToken_ expiresIn_ : JSValue)
  : CieloAPIConnection :=
  {| sessionID := sessionID_; userID := userID_;
     accessToken := accessToken_; refreshToken := refreshToken_;
     expiresIn := expiresIn_; commandCount := commandCount api;
     previousPowerStates := previousPowerStates api; ws := ws api;
     hvacs := hvacs api;
     commandCallback := commandCallback api;
     temperatureCallback := temperatureCallback api;
     notifications := notifications api |}.

(** The three assignments of [refreshAccessToken]. *)
Definition set_tokens (api : CieloAPIConnection)
    (accessToken_ refreshToken_ expiresIn_ : JSValue) : CieloAPIConnection :=
  {| sessionID := sessionID api; userID := userID api;
     accessToken := accessToken_; refreshToken := refreshToken_;
     expiresIn := expiresIn_; commandCount := commandCount api;
     previousPowerStates := previousPowerStates api; ws := ws api;
     hvacs := hvacs api;
     commandCallback := commandCallback api;
     temperatureCallback := temperatureCallback api;
     notifications := notifications api |}.

(** [establishConnection], given the parsed answer of the login request. *)
Definition establishConnection (api : CieloAPIConnection) (responseJSON : JSValue)
  : Result CieloAPIConnection :=
  data ← loginData responseJSON;
  sessionId ← get "sessionId" data;
  userId ← get "userId" data;
  accessToken_ ← get "accessToken" data;
  refreshToken_ ← get "refreshToken" data;
  expiresIn_ ← get "expiresIn" data;
  mret (set_session api sessionId userId accessToken_ refreshToken_ expiresIn_).

Definition getRefreshToken (api : CieloAPIConnection) : JSValue := refreshToken api.
Definition getExpiresIn (api : CieloAPIConnection) : JSValue := expiresIn api.

(** [refreshAccessToken(refreshToken)], given the HTTP status and the parsed
    body of the refresh request's answer. *)
Definition refreshAccessToken (api : CieloAPIConnection) (refreshToken_ : JSValue)
    (status : Z) (body : JSValue) : Result CieloAPIConnection :=
  let tokenToUse := js_or refreshToken_ (refreshToken api) in
  if negb (truthy tokenToUse) then
    Throw (Error "No refresh token available. Must login first.")
  else
    let settled : Result CieloAPIConnection :=
      data ← get "data" body;
      if truthy data then
        accessToken_ ← get "accessToken" data;
        refreshToken' ← get "refreshToken" data;
        expiresIn_ ← get "expiresIn" data;
        mret (set_tokens api accessToken_ refreshToken' expiresIn_)
      else
        Throw (Error ("Token refresh failed (" +:+ pretty status +:+ "): " +:+
                      ToString (js_or (member "message" body)
                                  (js_or (get_opt "message" (member "error" body))
                                         (JStr "Unknown error")))))
    in
    match settled with
    | Ok api' => Ok api'
    | Throw e => Throw (Error ("Token refresh failed: " +:+ errorMessage e))
    end.

(** ** class CieloConnectionManager *)

Module Manager.

Inductive TimerKind : Type :=
| ReconnectTimer
| HealthCheckTimer
| TokenRefreshTimer.

(** An active timer of the event loop: a pending [setTimeout] or a running
    [setInterval], with the delay it was created with. *)
Record Timer : Type := mkTimer {
  timer_id : nat;
  timer_kind : TimerKind;
  timer_delay : Z
}.

(** Calls of the manager's own callbacks, oldest first. *)
Inductive ManagerEvent : Type :=
| OnError (message : string)
| OnConnected
| OnDisconnected.

(** The [options] argument; [None] is an absent property. *)
Record Options : Type := mkOptions {
  o_macAddresses : option (list string);
  o_maxReconnectAttempts : option Z;
  o_reconnectDelay : option Z;
  o_autoReconnect : option bool;
  o_healthCheckInterval : option Z;
  o_refreshBeforeExpiry : option Z;
  o_disableTokenRefresh : option bool
}.

Record CieloConnectionManager : Type := mkManager {
  macAddresses : list string;
  api : option CieloAPIConnection;
  isConnected : bool;
  reconnectAttempts : Z;
  maxReconnectAttempts : Z;
  reconnectDelay : Z;
  tokenExpiresAt : option Z;
  tokenRefreshTimer : option nat;
  healthCheckTimer : option nat;
  autoReconnect : bool;
  healthCheckInterval : Z;
  refreshBeforeExpiry : Z;
  disableTokenRefresh : bool;
  timers : list Timer;
  nextTimer : nat;
  events : list ManagerEvent
}.

(** [options.x || d] for a numeric option. *)
Definition num_or (o : option Z) (d : Z) : Z :=
  match o with
  | Some n => if n =? 0 then d else n
  | None => d
  end.

Definition new_CieloConnectionManager (options : Options) : CieloConnectionManager :=
  {| macAddresses := default [] (o_macAddresses options);
     api := None;
     isConnected := false;
     reconnectAttempts := 0;
     maxReconnectAttempts := num_or (o_maxReconnectAttempts options) 5;
     reconnectDelay := num_or (o_reconnectDelay options) 5000;
     tokenExpiresAt := None;
     tokenRefreshTimer := None;
     healthCheckTimer := None;
     autoReconnect :=
       match o_autoReconnect options with
       | Some false => false
       | _ => true
       end;
     healthCheckInterval := num_or (o_healthCheckInterval options) 60000;
     refreshBeforeExpiry := num_or (o_refreshBeforeExpiry options) 300000;
     disableTokenRefresh := default false (o_disableTokenRefresh options);
     timers := [];
     nextTimer := 0;
     events := [] |}.

(** Field updates. *)
Definition set_api (m : CieloConnectionManager) (a : option CieloAPIConnection) :=
  mkManager (macAddresses m) a (isConnected m) (reconnectAttempts m)
    (maxReconnectAttempts m) (reconnectDelay m) (tokenExpiresAt m)
    (tokenRefreshTimer m) (healthCheckTimer m) (autoReconnect m)
    (healthCheckInterval m) (refreshBeforeExpiry m) (disableTokenRefresh m)
    (timers m) (nextTimer m) (events m).

Definition set_isConnected (m : CieloConnectionManager) (b : bool) :=
  mkManager (macAddresses m) (api m) b (reconnectAttempts m)
    (maxReconnectAttempts m) (reconnectDelay m) (tokenExpiresAt m)
    (tokenRefreshTimer m) (healthCheckTimer m) (autoReconnect m)
    (healthCheckInterval m) (refreshBeforeExpiry m) (disableTokenRefresh m)
    (timers m) (nextTimer m) (events m).

Definition set_reconnectAttempts (m : CieloConnectionManager) (n : Z) :=
  mkManager (macAddresses m) (api m) (isConnected m) n
    (maxReconnectAttempts m) (reconnectDelay m) (tokenExpiresAt m)
    (tokenRefreshTimer m) (healthCheckTimer m) (autoReconnect m)
    (healthCheckInterval m) (refreshBeforeExpiry m) (disableTokenRefresh m)
    (timers m) (nextTimer m) (events m).

Definition set_tokenExpiresAt (m : CieloConnectionManager) (t : option Z) :=
  mkManager (macAddresses m) (api m) (isConnected m) (reconnectAttempts m)
    (maxReconnectAttempts m) (reconnectDelay m) t
    (tokenRefreshTimer m) (healthCheckTimer m) (autoReconnect m)
    (healthCheckInterval m) (refreshBeforeExpiry m) (disableTokenRefresh m)
    (timers m) (nextTimer m) (events m).

Definition set_tokenRefreshTimer (m : CieloConnectionManager) (t : option nat) :=
  mkManager (macAddresses m) (api m) (isConnected m) (reconnectAttempts m)
    (maxReconnectAttempts m) (reconnectDelay m) (tokenExpiresAt m)
    t (healthCheckTimer m) (autoReconnect m)
    (healthCheckInterval m) (refreshBeforeExpiry m) (disableTokenRefresh m)
    (timers m) (nextTimer m) (events m).

Definition set_healthCheckTimer (m : CieloConnectionManager) (t : option nat) :=
  mkManager (macAddresses m) (api m) (isConnected m) (reconnectAttempts m)
    (maxReconnectAttempts m) (reconnectDelay m) (tokenExpiresAt m)
    (tokenRefreshTimer m) t (autoReconnect m)
    (healthCheckInterval m) (refreshBeforeExpiry m) (disableTokenRefresh m)
    (timers m) (nextTimer m) (events m).

Definition set_timers (m : CieloConnectionManager) (l : list Timer) (next : nat) :=
  mkManager (macAddresses m) (api m) (isConnected m) (reconnectAttempts m)
    (maxReconnectAttempts m) (reconnectDelay m) (tokenExpiresAt m)
    (tokenRefreshTimer m) (healthCheckTimer m) (autoReconnect m)
    (healthCheckInterval m) (refreshBeforeExpiry m) (disableTokenRefresh m)
    l next (events m).

Definition emit (m : CieloConnectionManager) (e : ManagerEvent) :=
  mkManager (macAddresses m) (api m) (isConnected m) (reconnectAttempts m)
    (maxReconnectAttempts m) (reconnectDelay m) (tokenExpiresAt m)
    (tokenRefreshTimer m) (healthCheckTimer m) (autoReconnect m)
    (healthCheckInterval m) (refreshBeforeExpiry m) (disableTokenRefresh m)
    (timers m) (nextTimer m) (events m ++ [e]).

(** [setTimeout(f, delay)] and [setInterval(f, delay)]: a new entry of the
    timer table; the identifier stands for the returned handle. *)
Definition setTimer (m : CieloConnectionManager) (kind : TimerKind) (delay : Z)
  : CieloConnectionManager * nat :=
  (set_timers m (timers m ++ [mkTimer (nextTimer m) kind delay]) (S (nextTimer m)),
   nextTimer m).

(** [clearTimeout(h)] and [clearInterval(h)]; also what the event loop does
    to a timeout when it fires. *)
Definition clearTimer (m : CieloConnectionManager) (id : nat) : CieloConnectionManager :=
  set_timers m (filter (fun t => timer_id t ≠ id) (timers m)) (nextTimer m).

Definition maxDelay : Z := 5 * 60 * 1000.

Definition scheduleReconnect (m : CieloConnectionManager) : CieloConnectionManager :=
  let m1 := set_reconnectAttempts m (reconnectAttempts m + 1) in
  let delay := reconnectDelay m1 * 2 ^ (reconnectAttempts m1 - 1) in
  let actualDelay := Z.min delay maxDelay in
  fst (setTimer m1 ReconnectTimer actualDelay).

(** [handleError(err)], for an error whose message is [message]. *)
Definition handleError (m : CieloConnectionManager) (message : string)
  : CieloConnectionManager :=
  let m1 :=
    if includes "WebSocket" message || includes "connection" message then
      let m' := set_isConnected m false in
      if autoReconnect m' then scheduleReconnect m' else m'
    else m in
  emit m1 (OnError message).

Definition stopHealthCheck (m : CieloConnectionManager) : CieloConnectionManager :=
  match healthCheckTimer m with
  | Some id => set_healthCheckTimer (clearTimer m id) None
  | None => m
  end.

(** The callback that [startHealthCheck] gives to [setInterval]. *)
Definition healthCheckTick (m : CieloConnectionManager) : CieloConnectionManager :=
  if negb (isConnected m) then
    let m1 := stopHealthCheck m in
    if autoReconnect m1 then scheduleReconnect m1 else m1
  else m.

Definition startHealthCheck (m : CieloConnectionManager) : CieloConnectionManager :=
  let m1 := stopHealthCheck m in
  let '(m2, id) := setTimer m1 HealthCheckTimer (healthCheckInterval m1) in
  set_healthCheckTimer m2 (Some id).

Definition stopTokenRefresh (m : CieloConnectionManager) : CieloConnectionManager :=
  match tokenRefreshTimer m with
  | Some id => set_tokenRefreshTimer (clearTimer m id) None
  | None => m
  end.

(** [scheduleTokenRefresh()]; [now] is [Date.now()]. *)
Definition scheduleTokenRefresh (m : CieloConnectionManager) (now : Z)
  : CieloConnectionManager :=
  let m1 := stopTokenRefresh m in
  if disableTokenRefresh m1 then m1
  else
    match tokenExpiresAt m1 with
    | None => m1
    | Some expiresAt =>
        if expiresAt =? 0 then m1
        else
          let expiresIn_ := expiresAt - now in
          let refreshAt := expiresIn_ - refreshBeforeExpiry m1 in
          if refreshAt <=? 0 then
            if autoReconnect m1 then scheduleReconnect m1 else m1
          else
            let '(m2, id) := setTimer m1 TokenRefreshTimer refreshAt in
            set_tokenRefreshTimer m2 (Some id)
    end.

Definition disconnect (m : CieloConnectionManager) : CieloConnectionManager :=
  let m1 := stopTokenRefresh (stopHealthCheck m) in
  emit (set_api (set_isConnected m1 false) None) OnDisconnected.

(** [this.api.getExpiresIn() * 1000]: the value is converted to a number
    first; [None] is the [NaN] that a missing value and a string that spells
    no number give. *)
Definition toMilliseconds (v : JSValue) : option Z :=
  match v with
  | JNum n => Some (n * 1000)
  | JNull => Some 0
  | JBool b => Some (if b then 1000 else 0)
  | JStr s => (fun n => n * 1000) <$> StringToNumber s
  | JArr _ => (fun n => n * 1000) <$> StringToNumber (ToString v)
  | JUndefined | JObj _ | JNative _ => None
  end.

(** [connect()]. The argument [outcome] is what the awaited calls on the new
    connection object ([establishConnectionWithAutoSolve], then
    [subscribeToHVACs] when MAC addresses were given) came to: the object as
    they left it, and whether they resolved or threw. The result pairs the
    manager after the call with the outcome of the returned promise. *)
Definition connect (m : CieloConnectionManager)
    (outcome : CieloAPIConnection * Result unit) (now : Z)
  : CieloConnectionManager * Result unit :=
  let m1 := set_api m (Some (fst outcome)) in
  match snd outcome with
  | Ok _ =>
      let m2 := set_reconnectAttempts (set_isConnected m1 true) 0 in
      let m3 := set_tokenExpiresAt m2 (toMilliseconds (getExpiresIn (fst outcome))) in
      let m4 := scheduleTokenRefresh (startHealthCheck m3) now in
      (emit m4 OnConnected, Ok tt)
  | Throw e =>
      let m2 := set_isConnected m1 false in
      if autoReconnect m2 && (reconnectAttempts m2 <? maxReconnectAttempts m2)
      then (scheduleReconnect m2, Ok tt)
      else (m2, Throw e)
  end.

Definition getApi (m : CieloConnectionManager) : Result CieloAPIConnection :=
  match api m with
  | Some a =>
      if isConnected m then Ok a
      else Throw (Error "Not connected. Call connect() first.")
  | None => Throw (Error "Not connected. Call connect() first.")
  end.

Definition getHvacs (m : CieloConnectionManager) : Result (list CieloHVAC) :=
  a ← getApi m; mret (hvacs a).

(** [findHvac(macAddress)]; [None] is the [undefined] of an unsuccessful
    [find]. *)
Definition findHvac (m : CieloConnectionManager) (macAddress_ : string)
  : Result (option CieloHVAC) :=
  l ← getHvacs m;
  mret (List.find
          (fun h => String.eqb (toUpperCase (getMacAddress h)) (toUpperCase macAddress_))
          l).

(** *** Events delivered to the manager *)

(** The callback given to [setTimeout] by [scheduleReconnect] runs: the
    timeout leaves the table and [connect()] is called. *)
Definition fireReconnectTimer (m : CieloConnectionManager) (id : nat)
    (outcome : CieloAPIConnection * Result unit) (now : Z) : CieloConnectionManager :=
  fst (connect (clearTimer m id) outcome now).

(** The callback given to [setTimeout] by [scheduleTokenRefresh] runs. *)
Definition fireTokenRefreshTimer (m : CieloConnectionManager) (id : nat)
    (outcome : CieloAPIConnection * Result unit) (now : Z) : CieloConnectionManager :=
  fst (connect (disconnect (clearTimer m id)) outcome now).

(** A socket [error] event. [#connect] registers two listeners for it, and
    each calls the error callback, which the manager set to [handleError]. *)
Definition onSocketError (m : CieloConnectionManager) (message : string)
  : CieloConnectionManager :=
  handleError (handleError m message) message.

(** A socket [close] event. *)
Definition onSocketClose (m : CieloConnectionManager) : CieloConnectionManager :=
  handleError m "Connection Closed.".

Definition isReconnect (t : Timer) : bool :=
  match timer_kind t with
  | ReconnectTimer => true
  | _ => false
  end.

(** The reconnect attempts that are scheduled and have not run yet. *)
Definition pendingReconnects (m : CieloConnectionManager) : list Timer :=
  List.filter isReconnect (timers m).

End Manager.

(** ** solveCaptcha.js

    The module talks to the solving service with [fetch] and waits with
    [setTimeout]. Both are answered by the environment: a [World] holds the
    answers the service will give, in order, each with the time it takes, the
    amounts by which the timers will fire late, the clock, and a record of
    the requests sent and of the delays waited. An asynchronous function is
    a [Task]: it takes a world and ends with a value returned, a value
    thrown, or [Pending] when it awaits an answer that the environment does
    not have. *)

Module Solver.

(** What a [throw] carries: an error object, or [undefined]. *)
Inductive Thrown : Type :=
| Exn (e : JSError)
| ExnUndefined.

Inductive Completion (A : Type) : Type :=
| Return (a : A)
| Raise (t : Thrown)
| Pending.

Arguments Return {A} a.
Arguments Raise {A} t.
Arguments Pending {A}.

(** What [await fetch(url)] followed by [await response.json()] comes to. *)
Record FetchOutcome : Type := mkFetchOutcome {
  fetch_elapsed : Z;
  fetch_answer : Result JSValue
}.

(** A request, by the values that go into the URL template. *)
Inductive Request : Type :=
| SubmitRequest (apiKey siteKey pageUrl : JSValue)
| ResultRequest (apiKey captchaId : JSValue).

Record World : Type := mkWorld {
  fetches : list FetchOutcome;
  lateness : list Z;
  clock : Z;
  requests : list Request;
  sleeps : list Z
}.

Definition Task (A : Type) : Type := World → Completion A * World.

#[global] Instance Task_ret : MRet Task := fun A a w => (Return a, w).

#[global] Instance Task_bind : MBind Task := fun A B f t w =>
  match t w with
  | (Return a, w1) => f a w1
  | (Raise e, w1) => (Raise e, w1)
  | (Pending, w1) => (Pending, w1)
  end.

Definition raise {A : Type} (t : Thrown) : Task A := fun w => (Raise t, w).

Definition throwError {A : Type} (message : string) : Task A :=
  raise (Exn (Error message)).

(** [try { t } catch (error) { h error }] *)
Definition catch {A : Type} (t : Task A) (h : Thrown → Task A) : Task A :=
  fun w =>
    match t w with
    | (Raise e, w1) => h e w1
    | r => r
    end.

(** A synchronous step that may throw. *)
Definition liftResult {A : Type} (r : Result A) : Task A :=
  match r with
  | Ok a => mret a
  | Throw e => raise (Exn e)
  end.

(** [Date.now()] *)
Definition dateNow : Task Z := fun w => (Return (clock w), w).

Definition remainingAnswers : Task nat := fun w => (Return (List.length (fetches w)), w).

(** [await fetch(url)] and [await response.json()]: the next answer of the
    environment, after the time it takes. *)
Definition fetchJson (req : Request) : Task JSValue := fun w =>
  match fetches w with
  | [] =>
      (Pending,
       mkWorld [] (lateness w) (clock w) (requests w ++ [req]) (sleeps w))
  | f :: rest =>
      let w1 := mkWorld rest (lateness w) (clock w + fetch_elapsed f)
                  (requests w ++ [req]) (sleeps w) in
      match fetch_answer f with
      | Ok v => (Return v, w1)
      | Throw e => (Raise (Exn e), w1)
      end
  end.

(** [await new Promise(resolve => setTimeout(resolve, delay))]: the clock
    moves by the delay and by the amount the timer is late. *)
Definition sleep (delay : Z) : Task unit := fun w =>
  (Return tt,
   mkWorld (fetches w) (tail (lateness w))
     (clock w + delay + hd 0 (lateness w)) (requests w) (sleeps w ++ [delay])).

Definition isNetworkError (e : JSError) : bool :=
  includes "EAI_AGAIN" (errorMessage e)
  || includes "ENOTFOUND" (errorMessage e)
  || includes "ETIMEDOUT" (errorMessage e)
  || includes "ECONNREFUSED" (errorMessage e).

(** The [for] loop of [fetchWithRetry], entered with [attempt] and with
    [remaining] iterations left before [attempt] exceeds [maxRetries]. *)
Fixpoint fetchWithRetry_loop (remaining : nat) (attempt maxRetries initialDelay : Z)
    (lastError : Thrown) (req : Request) : Task JSValue :=
  match remaining with
  | O => raise lastError
  | S k =>
      catch (fetchJson req)
        (fun error =>
           match error with
           | ExnUndefined =>
               raise (Exn (TypeError
                             "Cannot read properties of undefined (reading 'message')"))
           | Exn e =>
               if isNetworkError e && (attempt <? maxRetries) then
                 _ ← sleep (initialDelay * 2 ^ (attempt - 1));
                 fetchWithRetry_loop k (attempt + 1) maxRetries initialDelay
                   (Exn e) req
               else raise error
           end)
  end.

Definition fetchWithRetry (req : Request) (maxRetries initialDelay : Z)
  : Task JSValue :=
  fetchWithRetry_loop (Z.to_nat maxRetries) 1 maxRetries initialDelay
    ExnUndefined req.

(** The [options] of [solve2Captcha] and [solveCieloCaptcha]; [JUndefined]
    and [None] are absent properties. *)
Record SolveOptions : Type := mkSolveOptions {
  so_apiKey : JSValue;
  so_siteKey : JSValue;
  so_pageUrl : JSValue;
  so_pollingInterval : option Z;
  so_timeout : option Z
}.

(** The [while] loop of [solve2Captcha]. Every turn that goes on has used an
    answer of the environment, so [fuel] above the number of answers left is
    never used up. *)
Fixpoint pollLoop (fuel : nat) (apiKey captchaId : JSValue)
    (pollingInterval timeout startTime : Z) : Task JSValue :=
  match fuel with
  | O => fun w => (Pending, w)
  | S k =>
      now ← dateNow;
      if now - startTime <? timeout then
        result ← fetchWithRetry (ResultRequest apiKey captchaId) 3 2000;
        status ← liftResult (get "status" result);
        if strict_eq_num 1 status then
          liftResult (get "request" result)
        else
          request ← liftResult (get "request" result);
          if strict_eq_str "CAPCHA_NOT_READY" request then
            _ ← sleep pollingInterval;
            pollLoop k apiKey captchaId pollingInterval timeout startTime
          else throwError ("2Captcha error: " +:+ ToString request)
      else throwError ("2Captcha timeout after " +:+ pretty timeout +:+ "ms")
  end.

Definition solve2Captcha (apiKey siteKey : JSValue) (options : SolveOptions)
  : Task JSValue :=
  let pageUrl := js_or (so_pageUrl options) (JStr "https://home.cielowigle.com") in
  let pollingInterval := Manager.num_or (so_pollingInterval options) 5000 in
  let timeout := Manager.num_or (so_timeout options) 180000 in
  if negb (truthy apiKey) then
    throwError "2Captcha API key is required. Sign up at https://2captcha.com/"
  else if negb (truthy siteKey) then
    throwError "reCAPTCHA siteKey is required. See instructions in solveCaptcha.js"
  else
    submitResponse ← fetchWithRetry (SubmitRequest apiKey siteKey pageUrl) 3 2000;
    status ← liftResult (get "status" submitResponse);
    if negb (strict_eq_num 1 status) then
      request ← liftResult (get "request" submitResponse);
      throwError ("2Captcha submission failed: " +:+ ToString request)
    else
      captchaId ← liftResult (get "request" submitResponse);
      _ ← sleep 10000;
      startTime ← dateNow;
      answers ← remainingAnswers;
      pollLoop (S answers) apiKey captchaId pollingInterval timeout startTime.

(** [useManualToken(token)] for a token that is a string or absent. *)
Definition useManualToken (token : option string) : Result string :=
  match token with
  | Some t =>
      if String.eqb t EmptyString || (jsLength t <? 100)%nat
      then Throw (Error
                    "Invalid captcha token - it should be very long (2000+ characters)")
      else Ok t
  | None =>
      Throw (Error "Invalid captcha token - it should be very long (2000+ characters)")
  end.

(** The environment variables that the module reads. *)
Record ProcessEnv : Type := mkProcessEnv {
  TWOCAPTCHA_API_KEY : option string;
  CIELO_RECAPTCHA_SITEKEY : option string;
  CIELO_CAPTCHA_TOKEN : option string
}.

Definition envValue (v : option string) : JSValue :=
  match v with
  | Some s => JStr s
  | None => JUndefined
  end.

Definition getFromEnv (env : ProcessEnv) : Result string :=
  if negb (truthy (envValue (CIELO_CAPTCHA_TOKEN env))) then
    Throw (Error "CIELO_CAPTCHA_TOKEN environment variable not set")
  else useManualToken (CIELO_CAPTCHA_TOKEN env).

Definition DEFAULT_SITEKEY : string := "6Lewqu8nAAAAAOudyOyScwjI4dFukcDvJZprnZB6".

Definition newline : string := String "010" EmptyString.
Definition quote : string := String "034" EmptyString.

Definition missingApiKeyMessage : string :=
  "TWOCAPTCHA_API_KEY not configured." +:+ newline +:+
  "Either:" +:+ newline +:+
  "1. Pass it via options: { apiKey: " +:+ quote +:+ "your-key" +:+ quote +:+ " }"
    +:+ newline +:+
  "2. Set environment variable: export TWOCAPTCHA_API_KEY="
    +:+ quote +:+ "your-key" +:+ quote +:+ newline +:+
  "Get your API key from https://2captcha.com/".

Definition solveCieloCaptcha (options : SolveOptions) (env : ProcessEnv)
  : Task JSValue :=
  let apiKey := js_or (so_apiKey options) (envValue (TWOCAPTCHA_API_KEY env)) in
  let siteKey :=
    js_or (so_siteKey options)
      (js_or (envValue (CIELO_RECAPTCHA_SITEKEY env)) (JStr DEFAULT_SITEKEY)) in
  if negb (truthy apiKey) then throwError missingApiKeyMessage
  else solve2Captcha apiKey siteKey options.

End Solver.

(** ** More of Cielo.js and CieloConnectionManager.js *)

(** [#getDeviceInfo()], given what the request for the device list came to:
    the parsed answer, or [undefined] when the request or the parsing
    failed (the error is written to the console and dropped). *)
Definition getDeviceInfo (answer : Result JSValue) : JSValue :=
  match answer with
  | Ok responseJSON => responseJSON
  | Throw _ => JUndefined
  end.

(** [getAllDevices()] *)
Definition getAllDevices (answer : Result JSValue) : Result JSValue :=
  let deviceInfo := getDeviceInfo answer in
  error ← get "error" deviceInfo;
  if truthy error then
    message ← get "message" error;
    Throw (Error ("Failed to get devices: " +:+ ToString message))
  else
    data ← get "data" deviceInfo;
    mret (js_or (get_opt "listDevices" data) (JArr [])).

Module ManagerOps.
Import Manager.

(** [[...new Set(l)]]: the elements of [l] in the order of their first
    occurrence. *)
Definition uniq (l : list string) : list string :=
  fold_left (fun acc x => if existsb (String.eqb x) acc then acc else acc ++ [x]) l [].

Definition set_macAddresses (m : CieloConnectionManager) (l : list string) :=
  mkManager l (api m) (isConnected m) (reconnectAttempts m)
    (maxReconnectAttempts m) (reconnectDelay m) (tokenExpiresAt m)
    (tokenRefreshTimer m) (healthCheckTimer m) (autoReconnect m)
    (healthCheckInterval m) (refreshBeforeExpiry m) (disableTokenRefresh m)
    (timers m) (nextTimer m) (events m).

(** [subscribeToHvacs(macAddresses)] of the manager: the manager after the
    call and what becomes of the returned promise. The connection object is
    the one the manager holds, so the manager sees what the subscription did
    to it also when the subscription does not resolve; the list of MAC
    addresses is assigned after the [await] only. *)
Definition subscribeToHvacs (m : CieloConnectionManager) (macAddresses_ : list string)
    (deviceInfo : DeviceInfo) (socketOpens : bool)
  : CieloConnectionManager * Settlement :=
  match getApi m with
  | Throw e => (m, Rejected (ThrownError e))
  | Ok a =>
      let '(a', settled) := subscribeToHVACs a macAddresses_ deviceInfo socketOpens in
      let m1 := set_api m (Some a') in
      match settled with
      | Resolved =>
          (set_macAddresses m1 (uniq (macAddresses m ++ macAddresses_)), Resolved)
      | _ => (m1, settled)
      end
  end.

(** What [getStatus()] returns; [now] is [Date.now()]. *)
Record Status : Type := mkStatus {
  st_isConnected : bool;
  st_reconnectAttempts : Z;
  st_tokenExpiresAt : option Z;
  st_timeUntilExpiry : option Z;
  st_hvacCount : Z
}.

Definition getStatus (m : CieloConnectionManager) (now : Z) : Status :=
  {| st_isConnected := isConnected m;
     st_reconnectAttempts := reconnectAttempts m;
     st_tokenExpiresAt := tokenExpiresAt m;
     st_timeUntilExpiry :=
       match tokenExpiresAt m with
       | Some t => if t =? 0 then None else Some (t - now)
       | None => None
       end;
     st_hvacCount :=
       match api m with
       | Some a => Z.of_nat (List.length (hvacs a))
       | None => 0
       end |}.

(** The events that the event loop delivers to a manager, and the calls of
    its public methods. A timer callback runs only for a timer of the
    table. *)
Inductive Event : Type :=
| CallConnect (outcome : CieloAPIConnection * Result unit) (now : Z)
| CallDisconnect
| CallSubscribe (macAddresses_ : list string) (deviceInfo : DeviceInfo)
    (socketOpens : bool)
| SocketError (message : string)
| SocketClose
| HealthCheckDue
| ReconnectDue (id : nat) (outcome : CieloAPIConnection * Result unit) (now : Z)
| TokenRefreshDue (id : nat) (outcome : CieloAPIConnection * Result unit) (now : Z).

Definition hasTimer (m : CieloConnectionManager) (id : nat) (kind : TimerKind) : Prop :=
  ∃ delay, mkTimer id kind delay ∈ timers m.

Inductive managerStep : CieloConnectionManager → Event → CieloConnectionManager → Prop :=
| step_connect m outcome now :
    managerStep m (CallConnect outcome now) (fst (connect m outcome now))
| step_disconnect m :
    managerStep m CallDisconnect (disconnect m)
| step_subscribe m macs deviceInfo socketOpens :
    managerStep m (CallSubscribe macs deviceInfo socketOpens)
      (fst (subscribeToHvacs m macs deviceInfo socketOpens))
| step_socketError m message :
    managerStep m (SocketError message) (onSocketError m message)
| step_socketClose m :
    managerStep m SocketClose (onSocketClose m)
| step_healthCheck m id :
    hasTimer m id HealthCheckTimer →
    managerStep m HealthCheckDue (healthCheckTick m)
| step_reconnect m id outcome now :
    hasTimer m id ReconnectTimer →
    managerStep m (ReconnectDue id outcome now) (fireReconnectTimer m id outcome now)
| step_tokenRefresh m id outcome now :
    hasTimer m id TokenRefreshTimer →
    managerStep m (TokenRefreshDue id outcome now) (fireTokenRefreshTimer m id outcome now).

(** The states a manager built with [options] can be in. *)
Inductive reachable (options : Options) : CieloConnectionManager → Prop :=
| reachable_new : reachable options (new_CieloConnectionManager options)
| reachable_step m ev m' :
    reachable options m → managerStep m ev m' → reachable options m'.

Definition isKind (kind : TimerKind) (t : Timer) : bool :=
  match timer_kind t, kind with
  | ReconnectTimer, ReconnectTimer => true
  | HealthCheckTimer, HealthCheckTimer => true
  | TokenRefreshTimer, TokenRefreshTimer => true
  | _, _ => false
  end.

(** The bookkeeping of the timers: handles are never reused, and the handle
    the manager keeps for the health check (for the token refresh) is the
    one of every such timer in the table, and of no timer of another
    kind. *)
Record timersConsistent (m : CieloConnectionManager) : Prop := mkConsistent {
  tc_fresh : ∀ t, t ∈ timers m → (timer_id t < nextTimer m)%nat;
  tc_nodup : NoDup (timer_id <$> timers m);
  tc_health : ∀ t, t ∈ timers m → timer_kind t = HealthCheckTimer →
                   healthCheckTimer m = Some (timer_id t);
  tc_token : ∀ t, t ∈ timers m → timer_kind t = TokenRefreshTimer →
                  tokenRefreshTimer m = Some (timer_id t);
  tc_health_handle : ∀ id, healthCheckTimer m = Some id → (id < nextTimer m)%nat
                           ∧ ∀ t, t ∈ timers m → timer_id t = id →
                                  timer_kind t = HealthCheckTimer;
  tc_token_handle : ∀ id, tokenRefreshTimer m = Some id → (id < nextTimer m)%nat
                          ∧ ∀ t, t ∈ timers m → timer_id t = id →
                                 timer_kind t = TokenRefreshTimer
}.

End ManagerOps.

(** ** Notions used in the statements *)

(** The prefixes that the constructor of [CieloHVAC] accepts. *)
Definition hasTypePrefix (s : string) : bool :=
  startsWith "BI" s || startsWith "BP" s.

(** What the constructor stores for a supplied [deviceTypeVersion]. *)
Definition keptDeviceTypeVersion (d : JSValue) : string :=
  match d with
  | JStr s => if hasTypePrefix s then s else "BP01"
  | _ => "BP01"
  end.

(** The device objects a program can hold: built by the constructor, then
    changed by the two methods that assign fields. *)
Inductive DeviceObject : CieloHVAC → Prop :=
| Device_new mac n a f d h :
    new_CieloHVAC mac n a f d = Ok h → DeviceObject h
| Device_updateState h p t mo fs :
    DeviceObject h → DeviceObject (updateState h p t mo fs)
| Device_updateRoomTemperature h r :
    DeviceObject h → DeviceObject (updateRoomTemperature h r).

(** The command state of a device. *)
Definition commandState (h : CieloHVAC) : JSValue * JSValue * JSValue * JSValue :=
  (getPower h, getMode h, getFanSpeed h, getTemperature h).

(** The two operations of a connection that touch device data: a command
    sent for a device, and a frame received from the socket. *)
Inductive Operation : Type :=
| SendCommand (hvac : CieloHVAC) (performedAction : string)
    (performedActionValue : JSValue) (now : Z)
| Message (data : JSValue).

Definition step (api : CieloAPIConnection) (op : Operation) : CieloAPIConnection :=
  match op with
  | SendCommand hvac a v now => fst (sendCommand api hvac a v now)
  | Message data =>
      match onMessage api data with
      | Ok api' => api'
      | Throw _ => api
      end
  end.

(** A frame has the shape of a state update. *)
Definition isStateUpdate (data : JSValue) : bool :=
  strict_eq_str "StateUpdate" (member "message_type" data)
  && truthy (member "action" data)
  && String.eqb (typeof (member "action" data)) "object".

(** [a < b] on numbers. *)
Definition js_lt (a b : JSValue) : bool :=
  match a, b with
  | JNum x, JNum y => x <? y
  | _, _ => false
  end.

(** What the [StateUpdate] branch of the message listener does to one
    device, read off the frame [data]. *)
Definition stateUpdateEffect (data : JSValue) (h : CieloHVAC) : CieloHVAC :=
  let status := member "action" data in
  let lat := member "lat_env_var" data in
  if strict_eq_str (getMacAddress h) (member "mac_address" data) then
    let h1 := updateState h (member "power" status) (member "temp" status)
                (member "mode" status) (member "fanspeed" status) in
    if truthy lat && negb (is_undefined (member "temperature" lat))
    then updateRoomTemperature h1 (member "temperature" lat)
    else h1
  else h.

(** The frame [data] was applied to the device at position [i]: after the
    listener has run, that device's command state is the one of the frame. *)
Definition appliedAt (api : CieloAPIConnection) (data : JSValue) (i : nat) : Prop :=
  ∃ api' h',
    onMessage api data = Ok api'
    ∧ hvacs api' !! i = Some h'
    ∧ commandState h'
      = (member "power" (member "action" data),
         member "mode" (member "action" data),
         member "fanspeed" (member "action" data),
         member "temp" (member "action" data)).

(** *** Reconnection *)

(** The delay before reconnect attempt [n] in the words of the
    specification: the base delay doubled [n - 1] times, capped. *)
Definition backoffDelay (base : Z) (n : Z) : Z :=
  Z.min (base * 2 ^ (n - 1)) Manager.maxDelay.

(** The handles of the timers in the table are the ones handed out so far. *)
Definition timersFresh (m : Manager.CieloConnectionManager) : Prop :=
  ∀ t, t ∈ Manager.timers m → (Manager.timer_id t < Manager.nextTimer m)%nat.

(** The manager after [S n] connection attempts in a row have ended with
    [outcome]: the call of [connect()], then [n] times the reconnect scheduled
    last comes due and calls [connect()] again. *)
Fixpoint consecutiveAttempts (n : nat) (m : Manager.CieloConnectionManager)
    (outcome : CieloAPIConnection * Result unit) (now : Z)
  : Manager.CieloConnectionManager :=
  match n with
  | O => fst (Manager.connect m outcome now)
  | S k =>
      let m' := consecutiveAttempts k m outcome now in
      match last (Manager.pendingReconnects m') with
      | Some t => Manager.fireReconnectTimer m' (Manager.timer_id t) outcome now
      | None => m'
      end
  end.

(** A connection attempt that fails at the login. *)
Definition loginFailure : CieloAPIConnection * Result unit :=
  (new_CieloAPIConnection true true, Throw (Error "Login failed: Unknown error")).

(** A manager with the default options. *)
Definition defaultManager : Manager.CieloConnectionManager :=
  Manager.new_CieloConnectionManager
    (Manager.mkOptions None None None None None None None).

(** *** The solving service *)

Definition sumZ (l : list Z) : Z := foldr Z.add 0 l.

(** The delays of [fetchWithRetry] before the retries 1 to [n]. *)
Definition retryDelays (initialDelay : Z) (n : nat) : list Z :=
  map (fun k => initialDelay * 2 ^ Z.of_nat k) (seq 0 n).

(** An answer that makes [fetchWithRetry] try again. *)
Definition networkFailure (f : Solver.FetchOutcome) : bool :=
  match Solver.fetch_answer f with
  | Ok _ => false
  | Throw e => Solver.isNetworkError e
  end.

(** What an answer makes of the [fetch] that receives it. *)
Definition completionOf (f : Solver.FetchOutcome) : Solver.Completion JSValue :=
  match Solver.fetch_answer f with
  | Ok v => Solver.Return v
  | Throw e => Solver.Raise (Solver.Exn e)
  end.

Definition isPending {A : Type} (c : Solver.Completion A) : bool :=
  match c with
  | Solver.Pending => true
  | _ => false
  end.

(** No answer takes negative time and no timer fires early. *)
Definition nonnegWorld (w : Solver.World) : Prop :=
  Forall (fun f => 0 ≤ Solver.fetch_elapsed f) (Solver.fetches w)
  ∧ Forall (fun x => 0 ≤ x) (Solver.lateness w).

(** The answers of the service: a submission accepted under [captchaId], a
    solution not ready yet, a solution. *)
Definition accepted (captchaId : JSValue) (f : Solver.FetchOutcome) : Prop :=
  ∃ v, Solver.fetch_answer f = Ok v
       ∧ member "status" v = JNum 1 ∧ member "request" v = captchaId.

Definition notReady (f : Solver.FetchOutcome) : Prop :=
  ∃ v, Solver.fetch_answer f = Ok v
       ∧ strict_eq_num 1 (member "status" v) = false
       ∧ member "request" v = JStr "CAPCHA_NOT_READY".

(** An answer that ends the polling: a solution, or an error of the
    service; and what [solve2Captcha] makes of it. *)
Definition finalAnswer (v : JSValue) (f : Solver.FetchOutcome) : Prop :=
  Solver.fetch_answer f = Ok v
  ∧ nullish v = false
  ∧ (strict_eq_num 1 (member "status" v) = true
     ∨ strict_eq_str "CAPCHA_NOT_READY" (member "request" v) = false).

Definition pollVerdict (v : JSValue) : Solver.Completion JSValue :=
  if strict_eq_num 1 (member "status" v)
  then Solver.Return (member "request" v)
  else Solver.Raise
         (Solver.Exn (Error ("2Captcha error: " +:+ ToString (member "request" v)))).

(** *** Subscription and commands *)

(** A directory entry is selected by [subscribeToHVACs]. *)
Definition selected (macAddresses_ : list string) (mac : string) : bool :=
  (List.length macAddresses_ =? 0)%nat || includesMac macAddresses_ mac.

(** A directory entry from which a device can be built: a device type version
    that is a string or falsy, and a latest action and an environment to
    read from. *)
Definition wellFormedEntry (d : DirectoryDevice) : bool :=
  (negb (truthy (d_deviceTypeVersion d))
   || String.eqb (typeof (d_deviceTypeVersion d)) "string")
  && negb (nullish (d_latestAction d))
  && negb (nullish (d_latEnv d)).

(** Every entry of the directory that the subscription selects is well
    formed. *)
Definition selectedWellFormed (macAddresses_ : list string)
    (listDevices : list DirectoryDevice) : Prop :=
  Forall (λ d, selected macAddresses_ (d_macAddress d) = true
               → wellFormedEntry d = true) listDevices.

(** The device that the subscription builds from a well-formed entry. *)
Definition seededDevice (d : DirectoryDevice) : CieloHVAC :=
  {| power := member "power" (d_latestAction d);
     temperature := member "temp" (d_latestAction d);
     mode := member "mode" (d_latestAction d);
     fanSpeed := member "fanspeed" (d_latestAction d);
     roomTemperature := member "temp" (d_latEnv d);
     deviceName := d_deviceName d;
     macAddress := d_macAddress d;
     deviceTypeVersion := keptDeviceTypeVersion (d_deviceTypeVersion d);
     applianceID := d_applianceId d;
     fwVersion := d_fwVersion d |}.

(** A payload with another timestamp. *)
Definition withTs (p : CommandPayload) (ts : Z) : CommandPayload :=
  mkCommandPayload (p_action p) (p_actionSource p) (p_applianceType p)
    (p_macAddress p) (p_deviceTypeVersion p) (p_fwVersion p) (p_applianceId p)
    (p_actionType p) (p_actionValue p) (p_connection_source p) (p_user_id p)
    (p_preset p) (p_oldPower p) (p_myRuleConfiguration p) (p_mid p) (p_actions p)
    (p_application_version p) ts.

Definition withOldPower (p : CommandPayload) (v : JSValue) : CommandPayload :=
  mkCommandPayload (p_action p) (p_actionSource p) (p_applianceType p)
    (p_macAddress p) (p_deviceTypeVersion p) (p_fwVersion p) (p_applianceId p)
    (p_actionType p) (p_actionValue p) (p_connection_source p) (p_user_id p)
    (p_preset p) v (p_myRuleConfiguration p) (p_mid p) (p_actions p)
    (p_application_version p) (p_ts p).

(** The notifications that a state update raises. *)
Definition stateUpdateNotifications (api : CieloAPIConnection) (data : JSValue)
  : list Notification :=
  (if commandCallback api then [CommandCallback (member "action" data)] else [])
  ++ (if temperatureCallback api
         && truthy (member "lat_env_var" data)
         && truthy (member "temperature" (member "lat_env_var" data))
      then [TemperatureCallback (member "temperature" (member "lat_env_var" data))]
      else []).

(** A login answer that [establishConnection] accepts. *)
Definition loginAccepted (responseJSON : JSValue) : bool :=
  strict_eq_num 200 (member "status" responseJSON)
  && truthy (member "data" responseJSON)
  && truthy (member "user" (member "data" responseJSON)).

(** *** A manager that does not reconnect *)

(** Reconnection is switched off, no attempt has been counted and none is
    scheduled. *)
Definition reconnectionOff (m : Manager.CieloConnectionManager) : Prop :=
  Manager.autoReconnect m = false
  ∧ Manager.reconnectAttempts m = 0
  ∧ Manager.pendingReconnects m = [].

(** ** Sample data, from the protocol notes of the repository *)

Definition bedroom : CieloHVAC :=
  mkCieloHVAC (JStr "off") (JStr "70") (JStr "auto") (JStr "auto") (JStr "71")
    (JStr "Bedroom") "AA:BB:CC:DD:EE:FF" "BP01" (JNum 7) (JStr "1.0.9").

Definition openSocket : WebSocket := {| ws_readyState := OPEN; ws_sent := [] |}.

Definition bedroomConnection : CieloAPIConnection :=
  set_ws (set_hvacs (new_CieloAPIConnection true true) [bedroom]) (Some openSocket).

Definition livingRoom : CieloHVAC :=
  mkCieloHVAC (JStr "off") (JStr "73") (JStr "cool") (JStr "auto") (JStr "80")
    (JStr "Living Room") "C45BBEC42467" "BP01" (JNum 1675) (JStr "1.0.9,2.4.0").

Definition livingRoomConnection : CieloAPIConnection :=
  set_ws (set_hvacs (new_CieloAPIConnection true true) [livingRoom]) (Some openSocket).

(** A state update that carries the power only. *)
Definition powerOnlyFrame : JSValue :=
  JObj [ ("message_type", JStr "StateUpdate");
         ("mac_address", JStr "C45BBEC42467");
         ("action", JObj [ ("power", JStr "on") ]) ].

(** A state update as the protocol notes show it. *)
Definition fullFrame : JSValue :=
  JObj [ ("message_type", JStr "StateUpdate");
         ("action", JObj [ ("device_status", JStr "on"); ("temp", JStr "73");
                           ("fanspeed", JStr "auto"); ("mode", JStr "heat");
                           ("power", JStr "on") ]);
         ("lat_env_var", JObj [ ("temperature", JStr "80"); ("humidity", JStr "41") ]);
         ("mac_address", JStr "C45BBEC42467") ].

(** A frame of the older protocol: no type, no action. *)
Definition heartbeatFrame : JSValue :=
  JObj [ ("lat_env_var", JObj [ ("temperature", JStr "80") ]);
         ("mac_address", JStr "C45BBEC42467");
         ("mid", JStr "Heartbeat") ].

(** A directory entry whose MAC address is written with separators. *)
Definition colonEntry : DirectoryDevice :=
  {| d_macAddress := "c4:5b:be:c4:24:67";
     d_deviceName := JStr "Living Room";
     d_applianceId := JNum 1675;
     d_fwVersion := JStr "1.0.9,2.4.0";
     d_deviceTypeVersion := JStr "BP01";
     d_latestAction :=
       JObj [ ("power", JStr "off"); ("temp", JStr "70");
              ("mode", JStr "auto"); ("fanspeed", JStr "auto") ];
     d_latEnv := JObj [ ("temp", JStr "71") ] |}.

(** A state update whose MAC address is written without separators. *)
Definition compactFrame : JSValue :=
  JObj [ ("message_type", JStr "StateUpdate");
         ("action", JObj [ ("temp", JStr "73"); ("fanspeed", JStr "auto");
                           ("mode", JStr "heat"); ("power", JStr "on") ]);
         ("mac_address", JStr "C45BBEC42467") ].

(** A login answer and a refresh answer that grants the same expiry. *)
Definition loginAnswer : JSValue :=
  JObj [ ("status", JNum 200);
         ("message", JStr "SUCCESS");
         ("data",
          JObj [ ("user",
                  JObj [ ("sessionId", JStr "s-1"); ("userId", JStr "9yjCpPYIJ1");
                         ("accessToken", JStr "access-1");
                         ("refreshToken", JStr "refresh-1");
                         ("expiresIn", JNum 1763600000) ]) ]) ].

Definition refreshAnswer : JSValue :=
  JObj [ ("data",
          JObj [ ("accessToken", JStr "access-2");
                 ("refreshToken", JStr "refresh-2");
                 ("expiresIn", JNum 1763600000) ]) ].

(** Answers of the solving service, and a world that holds some. *)
Definition acceptedAnswer : Solver.FetchOutcome :=
  Solver.mkFetchOutcome 200
    (Ok (JObj [ ("status", JNum 1); ("request", JStr "2122988149") ])).

Definition notReadyAnswer : Solver.FetchOutcome :=
  Solver.mkFetchOutcome 300
    (Ok (JObj [ ("status", JNum 0); ("request", JStr "CAPCHA_NOT_READY") ])).

Definition solvedAnswer : Solver.FetchOutcome :=
  Solver.mkFetchOutcome 300
    (Ok (JObj [ ("status", JNum 1); ("request", JStr "03AGdBq25SxXT-pmSeBXjzScW-EiocHwwpwqtk1QXlJnGnU") ])).

Definition refusedAnswer : Solver.FetchOutcome :=
  Solver.mkFetchOutcome 200
    (Ok (JObj [ ("status", JNum 0); ("request", JStr "ERROR_ZERO_BALANCE") ])).

Definition networkError : Solver.FetchOutcome :=
  Solver.mkFetchOutcome 50
    (Throw (Error "request to https://2captcha.com/res.php failed, reason: getaddrinfo EAI_AGAIN 2captcha.com")).

Definition worldWith (answers : list Solver.FetchOutcome) : Solver.World :=
  Solver.mkWorld answers [] 0 [] [].

Definition noOptions : Solver.SolveOptions :=
  Solver.mkSolveOptions JUndefined JUndefined JUndefined None None.

(** A state update that carries the mode only. *)
Definition modeOnlyFrame : JSValue :=
  JObj [ ("message_type", JStr "StateUpdate");
         ("mac_address", JStr "C45BBEC42467");
         ("action", JObj [ ("mode", JStr "heat") ]) ].

(** The living room's connection after power "on" was sent, and after the
    state update with the mode only has then arrived. *)
Definition poweredOnConnection : CieloAPIConnection :=
  step livingRoomConnection (SendCommand livingRoom "power" (JStr "on") 1000).

Definition modeChangedConnection : CieloAPIConnection :=
  step poweredOnConnection (Message modeOnlyFrame).

(** A state update that reports a room temperature of 0. *)
Definition freezingFrame : JSValue :=
  JObj [ ("message_type", JStr "StateUpdate");
         ("action", JObj [ ("temp", JStr "73"); ("fanspeed", JStr "auto");
                           ("mode", JStr "heat"); ("power", JStr "on") ]);
         ("lat_env_var", JObj [ ("temperature", JNum 0) ]);
         ("mac_address", JStr "C45BBEC42467") ].

(** A state update for the bedroom. *)
Definition bedroomFrame : JSValue :=
  JObj [ ("message_type", JStr "StateUpdate");
         ("action", JObj [ ("temp", JStr "68"); ("fanspeed", JStr "low");
                           ("mode", JStr "cool"); ("power", JStr "on") ]);
         ("mac_address", JStr "AA:BB:CC:DD:EE:FF") ].

(** A connection with both devices, and one that has no socket yet. *)
Definition homeConnection : CieloAPIConnection :=
  set_ws (set_hvacs (new_CieloAPIConnection true true) [bedroom; livingRoom])
    (Some openSocket).

Definition offlineConnection : CieloAPIConnection :=
  set_ws (set_hvacs (new_CieloAPIConnection true true) [bedroom]) None.

(** Directory entries: one as the service sends it, one without a latest
    action. *)
Definition compactEntry : DirectoryDevice :=
  {| d_macAddress := "C45BBEC42467";
     d_deviceName := JStr "Living Room";
     d_applianceId := JNum 1675;
     d_fwVersion := JStr "1.0.9,2.4.0";
     d_deviceTypeVersion := JStr "BP01";
     d_latestAction :=
       JObj [ ("power", JStr "off"); ("temp", JStr "73");
              ("mode", JStr "cool"); ("fanspeed", JStr "auto") ];
     d_latEnv := JObj [ ("temp", JStr "80") ] |}.

Definition newEntry : DirectoryDevice :=
  {| d_macAddress := "AA:BB:CC:DD:EE:FF";
     d_deviceName := JStr "Bedroom";
     d_applianceId := JNum 7;
     d_fwVersion := JStr "1.0.9";
     d_deviceTypeVersion := JStr "BP01";
     d_latestAction := JUndefined;
     d_latEnv := JObj [ ("temp", JStr "71") ] |}.

(** Answers of the service: a refused login, a refused refresh, a device
    list and a refused device list. *)
Definition refusedLogin : JSValue :=
  JObj [ ("status", JNum 401); ("message", JStr "Invalid captcha") ].

Definition refusedRefresh : JSValue :=
  JObj [ ("error", JObj [ ("message", JStr "Token expired") ]) ].

Definition deviceList : JSValue :=
  JObj [ ("data",
          JObj [ ("listDevices",
                  JArr [ JObj [ ("macAddress", JStr "C45BBEC42467");
                                ("deviceName", JStr "Living Room") ] ]) ]) ].

Definition refusedDeviceList : JSValue :=
  JObj [ ("error", JObj [ ("message", JStr "Unauthorized") ]) ].

(** A manager built with reconnection switched off. *)
Definition manualOptions : Manager.Options :=
  Manager.mkOptions None None None (Some false) None None None.

(** * Properties *)

(** ** Values *)

Lemma get_truthy k v : truthy v = true → get k v = Ok (member k v).
Proof. destruct v; simpl; intros H; try discriminate; reflexivity. Qed.

Lemma get_not_nullish k v : nullish v = false → get k v = Ok (member k v).
Proof. destruct v; simpl; intros H; try discriminate; reflexivity. Qed.

(** ** The device type version *)

Lemma hasTypePrefix_not_empty s :
  hasTypePrefix s = true → String.eqb s EmptyString = false.
Proof. destruct s; [discriminate | reflexivity]. Qed.

Lemma hasTypePrefix_kept d : hasTypePrefix (keptDeviceTypeVersion d) = true.
Proof.
  destruct d; simpl; try reflexivity.
  destruct (hasTypePrefix s) eqn:E; [exact E | reflexivity].
Qed.

Lemma new_CieloHVAC_deviceTypeVersion mac n a f d h :
  new_CieloHVAC mac n a f d = Ok h →
  deviceTypeVersion h = keptDeviceTypeVersion d.
Proof.
  unfold new_CieloHVAC, keptDeviceTypeVersion, hasTypePrefix.
  destruct d as [ | |b|z|s|l|l|s]; simpl.
  - intros [= <-]; reflexivity.
  - intros [= <-]; reflexivity.
  - destruct b; [discriminate | intros [= <-]; reflexivity].
  - destruct (z =? 0); simpl; [intros [= <-]; reflexivity | discriminate].
  - destruct (String.eqb s EmptyString) eqn:Es; simpl.
    + apply String.eqb_eq in Es; subst s. intros [= <-]; reflexivity.
    + destruct (startsWith "BI" s || startsWith "BP" s); intros [= <-]; reflexivity.
  - discriminate.
  - discriminate.
  - discriminate.
Qed.

Lemma new_CieloHVAC_returns mac n a f d :
  (∃ s, d = JStr s) ∨ truthy d = false →
  ∃ h, new_CieloHVAC mac n a f d = Ok h.
Proof.
  unfold new_CieloHVAC. intros [[s ->] | H].
  - destruct (truthy (JStr s)); [|eauto].
    destruct (startsWith "BI" s || startsWith "BP" s); eauto.
  - rewrite H; eauto.
Qed.

Lemma DeviceObject_prefix h :
  DeviceObject h → hasTypePrefix (getDeviceTypeVersion h) = true.
Proof.
  induction 1 as [mac n a f d h Hnew | h p t mo fs _ IH | h r _ IH].
  - unfold getDeviceTypeVersion.
    rewrite (new_CieloHVAC_deviceTypeVersion _ _ _ _ _ _ Hnew).
    apply hasTypePrefix_kept.
  - exact IH.
  - exact IH.
Qed.

(** C10, as amended. Every device object carries a device type version that
    starts with "BI" or "BP": the constructor returns for a string or a falsy
    value (an absent one too), keeps a string with one of the two prefixes
    and stores "BP01" for any other such value; the methods that change a
    device leave the field alone; the getter returns it and every command
    payload built for the device carries it unchanged. For a truthy value
    that is not a string the constructor throws, so that no device object
    exists. *)
Theorem deviceTypeVersion_always_prefixed :
  (∀ mac n a f d,
      (∃ s, d = JStr s) ∨ truthy d = false →
      ∃ h, new_CieloHVAC mac n a f d = Ok h
           ∧ getDeviceTypeVersion h = keptDeviceTypeVersion d)
  ∧ (∀ h, DeviceObject h →
       hasTypePrefix (getDeviceTypeVersion h) = true
       ∧ ∀ api a v now,
           p_deviceTypeVersion (snd (buildCommandPayload api h a v now))
             = getDeviceTypeVersion h
           ∧ hasTypePrefix
               (p_deviceTypeVersion (snd (buildCommandPayload api h a v now)))
             = true)
  ∧ (∀ mac n a f d,
       (∀ s, d ≠ JStr s) → truthy d = true →
       new_CieloHVAC mac n a f d
       = Throw (TypeError "deviceTypeVersion.startsWith is not a function")).
Proof.
  split; [|split].
  - intros mac n a f d Hd.
    destruct (new_CieloHVAC_returns mac n a f d Hd) as [h Hh].
    exists h; split; [exact Hh|].
    apply (new_CieloHVAC_deviceTypeVersion _ _ _ _ _ _ Hh).
  - intros h Hh.
    pose proof (DeviceObject_prefix h Hh) as Hp.
    split; [exact Hp|].
    intros api a v now.
    assert (E : p_deviceTypeVersion (snd (buildCommandPayload api h a v now))
                = getDeviceTypeVersion h).
    { unfold buildCommandPayload; simpl.
      rewrite (hasTypePrefix_not_empty _ Hp). reflexivity. }
    split; [exact E | rewrite E; exact Hp].
  - intros mac n a f d Hs Ht. unfold new_CieloHVAC. rewrite Ht.
    destruct d; try reflexivity. exfalso. exact (Hs s eq_refl).
Qed.

Lemma deviceTypeVersion_always_prefixed_witness :
  (∃ h, new_CieloHVAC "C45BBEC42467" (JStr "Living Room") (JNum 1675)
          (JStr "1.0.9,2.4.0") (JStr "XX07") = Ok h
        ∧ getDeviceTypeVersion h = "BP01")
  ∧ hasTypePrefix
      (getDeviceTypeVersion
         (updateState
            (mkCieloHVAC DEFAULT_POWER DEFAULT_TEMPERATURE DEFAULT_MODE DEFAULT_FAN
               DEFAULT_TEMPERATURE (JStr "Living Room") "C45BBEC42467" "BI02"
               (JNum 1675) (JStr "1.0.9,2.4.0"))
            (JStr "on") (JStr "73") (JStr "heat") (JStr "auto"))) = true
  ∧ new_CieloHVAC "C45BBEC42467" (JStr "Living Room") (JNum 1675)
      (JStr "1.0.9,2.4.0") (JBool true)
    = Throw (TypeError "deviceTypeVersion.startsWith is not a function").
Proof.
  split; [|split].
  - apply (proj1 deviceTypeVersion_always_prefixed).
    left. exists "XX07". reflexivity.
  - apply (proj1 (proj2 deviceTypeVersion_always_prefixed)).
    apply Device_updateState.
    apply (Device_new "C45BBEC42467" (JStr "Living Room") (JNum 1675)
             (JStr "1.0.9,2.4.0") (JStr "BI02")).
    reflexivity.
  - apply (proj2 (proj2 deviceTypeVersion_always_prefixed));
      [intros s; discriminate | reflexivity].
Defined.

(** C10, as stated, fails: a device type version that is the number 7 is
    not replaced by "BP01"; the constructor throws and returns no device. *)
Lemma deviceTypeVersion_number_not_replaced :
  new_CieloHVAC "C45BBEC42467" (JStr "Living Room") (JNum 1675)
    (JStr "1.0.9,2.4.0") (JNum 7)
  = Throw (TypeError "deviceTypeVersion.startsWith is not a function")
  ∧ ¬ ∃ h, new_CieloHVAC "C45BBEC42467" (JStr "Living Room") (JNum 1675)
             (JStr "1.0.9,2.4.0") (JNum 7) = Ok h
           ∧ getDeviceTypeVersion h = "BP01".
Proof.
  split; [reflexivity|]. intros (h & H & _). discriminate H.
Qed.

(** ** Command payloads *)

Lemma eqb_neq_false (a b : string) : a ≠ b → String.eqb a b = false.
Proof. intros H. apply String.eqb_neq. exact H. Qed.

Lemma buildCommandPayload_hvacs api hvac a v now :
  hvacs (fst (buildCommandPayload api hvac a v now)) = hvacs api.
Proof.
  unfold buildCommandPayload; simpl.
  destruct (String.eqb a "power"); reflexivity.
Qed.

Lemma buildCommandPayload_ws api hvac a v now :
  ws (fst (buildCommandPayload api hvac a v now)) = ws api.
Proof.
  unfold buildCommandPayload; simpl.
  destruct (String.eqb a "power"); reflexivity.
Qed.

Lemma buildCommandPayload_oldPower api hvac a v now :
  p_oldPower (snd (buildCommandPayload api hvac a v now))
  = js_or (dict_get (previousPowerStates api) (getMacAddress hvac)) (JStr "off").
Proof. reflexivity. Qed.

Lemma buildCommandPayload_records_power api hvac v now :
  getMacAddress hvac ≠ "__proto__" →
  previousPowerStates (fst (buildCommandPayload api hvac "power" v now))
    !! getMacAddress hvac = Some v.
Proof.
  intros Hk. unfold buildCommandPayload; simpl. unfold dict_set.
  rewrite (eqb_neq_false _ _ Hk). simpl. apply lookup_insert_eq.
Qed.

Lemma dict_get_recorded d k v : d !! k = Some v → dict_get d k = v.
Proof. unfold dict_get. intros ->. reflexivity. Qed.

Lemma dict_get_unseen d k :
  d !! k = None → inPrototype k = false → dict_get d k = JUndefined.
Proof. unfold dict_get. intros -> ->. reflexivity. Qed.

Lemma dict_set_lookup d k v : k ≠ "__proto__" → dict_set d k v !! k = Some v.
Proof.
  intros Hk. unfold dict_set. rewrite (eqb_neq_false _ _ Hk).
  apply lookup_insert_eq.
Qed.

Lemma sendCommand_open api hvac a v now w :
  ws api = Some w → ws_open w = true →
  sendCommand api hvac a v now
  = (set_ws (fst (buildCommandPayload api hvac a v now))
       (Some {| ws_readyState := OPEN;
                ws_sent := ws_sent w ++ [snd (buildCommandPayload api hvac a v now)] |}),
     Ok tt).
Proof.
  intros Hw Ho. unfold sendCommand.
  pose proof (buildCommandPayload_ws api hvac a v now) as E.
  destruct (buildCommandPayload api hvac a v now) as [api1 payload]; simpl in *.
  rewrite E, Hw, Ho. reflexivity.
Qed.

(** A temperature command prints the value for the nested object and sends
    it as given at the top level. *)
Lemma temperature_command_representations api hvac value now :
  let p := snd (buildCommandPayload api hvac "temp" value now) in
  act_temp (p_actions p) = JStr (ToString value)
  ∧ typeof (act_temp (p_actions p)) = "string"
  ∧ p_actionValue p = value.
Proof. repeat split. Qed.

(** For any other command the nested temperature is the device's stored one,
    as it is. *)
Lemma other_command_temperature api hvac action value now :
  action ≠ "temp" →
  act_temp (p_actions (snd (buildCommandPayload api hvac action value now)))
  = getTemperature hvac.
Proof. intros H. simpl. rewrite (eqb_neq_false _ _ H). reflexivity. Qed.

(** C5. A device that has not received a state yet holds the numeric default
    temperature; a power command for it carries that number, not a string,
    in the nested actions object. A temperature command does carry a string
    there and the value as given at the top level. *)
Theorem default_temperature_sent_as_number :
  ∃ h,
    new_CieloHVAC "C45BBEC42467" (JStr "Living Room") (JNum 1675)
      (JStr "1.0.9,2.4.0") (JStr "BP01") = Ok h
    ∧ getTemperature h = JNum 75
    ∧ ∀ api now,
        let p := snd (buildCommandPayload api h "power" (JStr "on") now) in
        let q := snd (buildCommandPayload api h "temp" (JNum 72) now) in
        act_temp (p_actions p) = JNum 75
        ∧ typeof (act_temp (p_actions p)) = "number"
        ∧ act_temp (p_actions q) = JStr "72"
        ∧ p_actionValue q = JNum 72.
Proof.
  eexists. split; [reflexivity|]. split; [reflexivity|].
  intros api now. repeat split.
Qed.

(** ** Sending never writes to a device *)

Lemma sendCommand_hvacs api hvac a v now :
  hvacs (fst (sendCommand api hvac a v now)) = hvacs api.
Proof.
  unfold sendCommand.
  pose proof (buildCommandPayload_hvacs api hvac a v now) as E.
  destruct (buildCommandPayload api hvac a v now) as [api1 payload]; simpl in *.
  destruct (ws api1) as [w|]; [destruct (ws_open w)|]; simpl; exact E.
Qed.

(** ** The message listener *)

Lemma stateUpdateDevice_effect data h prev :
  nullish data = false →
  truthy (member "action" data) = true →
  stateUpdateDevice data (member "action" data) (member "mac_address" data) h prev
  = Ok (stateUpdateEffect data h,
        if strict_eq_str (getMacAddress h) (member "mac_address" data)
        then dict_set prev (getMacAddress h) (member "power" (member "action" data))
        else prev).
Proof.
  intros Hd Ha. unfold stateUpdateDevice, stateUpdateEffect.
  destruct (strict_eq_str (getMacAddress h) (member "mac_address" data)); [|reflexivity].
  rewrite !(get_truthy _ _ Ha). rewrite (get_not_nullish _ _ Hd). simpl.
  destruct (truthy (member "lat_env_var" data)) eqn:Hl; simpl.
  - rewrite !(get_truthy _ _ Hl). simpl.
    destruct (is_undefined (member "temperature" (member "lat_env_var" data)));
      reflexivity.
  - reflexivity.
Qed.

Lemma dict_set_twice d k v : dict_set (dict_set d k v) k v = dict_set d k v.
Proof.
  unfold dict_set. destruct (String.eqb k "__proto__"); [reflexivity|].
  apply insert_insert_eq.
Qed.

Lemma forEachHvac_effect data l prev :
  nullish data = false →
  truthy (member "action" data) = true →
  ∃ prev',
    forEachHvac
      (stateUpdateDevice data (member "action" data) (member "mac_address" data))
      l prev
    = Ok (stateUpdateEffect data <$> l, prev')
    ∧ ((∀ h, h ∈ l →
             strict_eq_str (getMacAddress h) (member "mac_address" data) = false) →
       prev' = prev)
    ∧ (∀ h, h ∈ l →
            strict_eq_str (getMacAddress h) (member "mac_address" data) = true →
            prev' = dict_set prev (getMacAddress h)
                      (member "power" (member "action" data))).
Proof.
  intros Hd Ha. revert prev.
  induction l as [|h rest IH]; intros prev; simpl.
  - exists prev. split; [reflexivity|]. split; [intros _; reflexivity|].
    intros h Hin. apply not_elem_of_nil in Hin. destruct Hin.
  - rewrite (stateUpdateDevice_effect data h prev Hd Ha). csimpl.
    destruct (IH (if strict_eq_str (getMacAddress h) (member "mac_address" data)
                  then dict_set prev (getMacAddress h)
                         (member "power" (member "action" data))
                  else prev)) as [prev' [E [Hsame Hset]]].
    rewrite E. simpl. exists prev'. split; [reflexivity|]. split.
    + intros Hall.
      rewrite Hsame.
      * rewrite (Hall h); [reflexivity | left].
      * intros h' Hin. apply Hall. right. exact Hin.
    + assert (Hrest :
        (∀ h', h' ∈ rest →
           strict_eq_str (getMacAddress h') (member "mac_address" data) = false)
        ∨ (∃ h', h' ∈ rest
             ∧ strict_eq_str (getMacAddress h') (member "mac_address" data) = true)).
      { clear. induction rest as [|x xs IHx].
        - left. intros h' Hin. apply not_elem_of_nil in Hin. destruct Hin.
        - destruct (strict_eq_str (getMacAddress x) (member "mac_address" data)) eqn:Ex.
          + right. exists x. split; [left | exact Ex].
          + destruct IHx as [Hn | [y [Hy Ey]]].
            * left. intros h' Hin. apply elem_of_cons in Hin as [-> | Hin];
                [exact Ex | apply Hn; exact Hin].
            * right. exists y. split; [right; exact Hy | exact Ey]. }
      assert (Hkey : ∀ a b,
                strict_eq_str (getMacAddress a) (member "mac_address" data) = true →
                strict_eq_str (getMacAddress b) (member "mac_address" data) = true →
                getMacAddress a = getMacAddress b).
      { intros a b Ea Eb.
        destruct (member "mac_address" data); simpl in Ea, Eb; try discriminate.
        apply String.eqb_eq in Ea, Eb. congruence. }
      intros h0 Hin E0.
      apply elem_of_cons in Hin as [-> | Hin].
      * rewrite E0 in *.
        destruct Hrest as [Hn | [y [Hy Ey]]].
        -- apply Hsame. exact Hn.
        -- rewrite (Hset y Hy Ey). rewrite (Hkey y h Ey E0).
           apply dict_set_twice.
      * rewrite (Hset h0 Hin E0).
        destruct (strict_eq_str (getMacAddress h) (member "mac_address" data)) eqn:Eh;
          [|reflexivity].
        rewrite (Hkey h h0 Eh E0). apply dict_set_twice.
Qed.

(** A frame that is not a state update leaves the connection as it is. *)
Lemma onMessage_ignored api data :
  nullish data = false →
  isStateUpdate data = false →
  onMessage api data = Ok api.
Proof.
  intros Hd Hs. unfold onMessage, isStateUpdate in *.
  rewrite !(get_not_nullish _ _ Hd). simpl.
  destruct (member "message_type" data) as [ | |b|z|s|l|l|s];
    try reflexivity.
  - destruct b; reflexivity.
  - simpl. destruct (z =? 0); reflexivity.
  - revert Hs. generalize (strict_eq_str "StateUpdate" (JStr s)). intros b Hs.
    simpl.
    destruct (String.eqb s EmptyString); simpl; [reflexivity|].
    destruct (0 <? String.length s)%nat; simpl; [|reflexivity].
    destruct (truthy (member "action" data)); simpl; [|reflexivity].
    destruct (String.eqb (typeof (member "action" data)) "object"); simpl;
      [|reflexivity].
    rewrite !andb_true_r in Hs. rewrite Hs. reflexivity.
Qed.

(** A state update runs [updateState] on the devices with the frame's MAC
    address and on no other. *)
Lemma onMessage_stateUpdate api data :
  nullish data = false →
  isStateUpdate data = true →
  ∃ api',
    onMessage api data = Ok api'
    ∧ hvacs api' = (stateUpdateEffect data <$> hvacs api)
    ∧ ((∀ h, h ∈ hvacs api →
             strict_eq_str (getMacAddress h) (member "mac_address" data) = false) →
       previousPowerStates api' = previousPowerStates api)
    ∧ (∀ h, h ∈ hvacs api →
            strict_eq_str (getMacAddress h) (member "mac_address" data) = true →
            previousPowerStates api'
            = dict_set (previousPowerStates api) (getMacAddress h)
                (member "power" (member "action" data))).
Proof.
  intros Hd Hs. unfold isStateUpdate in Hs.
  apply andb_prop in Hs as [Hs Hobj]. apply andb_prop in Hs as [Hmt Ha].
  destruct (forEachHvac_effect data (hvacs api) (previousPowerStates api) Hd Ha)
    as [prev' [E [Hsame Hset]]].
  unfold onMessage.
  rewrite !(get_not_nullish _ _ Hd). simpl.
  destruct (member "message_type" data) as [ | |b|z|s|l|l|s];
    cbv [strict_eq_str] in Hmt; try discriminate.
  apply String.eqb_eq in Hmt. subst s. simpl.
  rewrite Ha, Hobj. simpl. rewrite E. simpl.
  destruct (commandCallback api); simpl;
    (destruct (temperatureCallback api); simpl;
     [ destruct (truthy (member "lat_env_var" data)) eqn:Hl; simpl;
       [ rewrite (get_truthy _ _ Hl); simpl;
         destruct (truthy (member "temperature" (member "lat_env_var" data)))
       | ]
     | ]);
    (eexists; split; [reflexivity | split; [reflexivity | split; [exact Hsame | exact Hset]]]).
Qed.

Lemma strict_eq_str_true s v : strict_eq_str s v = true → v = JStr s.
Proof.
  destruct v; simpl; try discriminate.
  intros H. apply String.eqb_eq in H. subst. reflexivity.
Qed.

Lemma strict_eq_str_refl s : strict_eq_str s (JStr s) = true.
Proof. simpl. apply String.eqb_refl. Qed.

Lemma stateUpdateEffect_other data h :
  strict_eq_str (getMacAddress h) (member "mac_address" data) = false →
  stateUpdateEffect data h = h.
Proof. unfold stateUpdateEffect. intros ->. reflexivity. Qed.

Lemma stateUpdateEffect_commandState data h :
  strict_eq_str (getMacAddress h) (member "mac_address" data) = true →
  commandState (stateUpdateEffect data h)
  = (member "power" (member "action" data),
     member "mode" (member "action" data),
     member "fanspeed" (member "action" data),
     member "temp" (member "action" data)).
Proof.
  unfold stateUpdateEffect. intros ->.
  destruct (truthy (member "lat_env_var" data)
            && negb (is_undefined (member "temperature" (member "lat_env_var" data))));
    reflexivity.
Qed.

Lemma stateUpdateEffect_none data (l : list CieloHVAC) :
  (∀ h, h ∈ l →
        strict_eq_str (getMacAddress h) (member "mac_address" data) = false) →
  stateUpdateEffect data <$> l = l.
Proof.
  induction l as [|h rest IH]; intros Hall; csimpl; [reflexivity|].
  rewrite (stateUpdateEffect_other data h); [|apply Hall; left].
  rewrite IH; [reflexivity|]. intros h' Hin. apply Hall. right. exact Hin.
Qed.

Lemma commandState_changed_some data (l : list CieloHVAC) :
  commandState <$> (stateUpdateEffect data <$> l) ≠ commandState <$> l →
  ∃ h, h ∈ l ∧ member "mac_address" data = JStr (getMacAddress h).
Proof.
  induction l as [|h rest IH]; csimpl; intros Hne; [congruence|].
  destruct (strict_eq_str (getMacAddress h) (member "mac_address" data)) eqn:E.
  - exists h. split; [left | apply strict_eq_str_true; exact E].
  - rewrite (stateUpdateEffect_other data h E) in Hne.
    destruct IH as [h' [Hin Hm]].
    + intros Heq. apply Hne. rewrite Heq. reflexivity.
    + exists h'. split; [right; exact Hin | exact Hm].
Qed.

Lemma onMessage_nullish api data :
  nullish data = true → ∃ e, onMessage api data = Throw e.
Proof.
  destruct data; simpl; try discriminate; intros _; eexists; reflexivity.
Qed.

(** C7. Sending a command (and building its payload) leaves every device of
    the connection as it was, so also its power, mode, fan speed and
    temperature; when an operation of the connection does change the command
    state of a device, the operation is a received frame that is a state
    update carrying the MAC address of a subscribed device. *)
Theorem commandState_changes_only_on_state_update :
  ∀ api op,
    (∀ hvac a v now,
        op = SendCommand hvac a v now →
        hvacs (step api op) = hvacs api
        ∧ hvacs (fst (buildCommandPayload api hvac a v now)) = hvacs api
        ∧ ∀ i h, hvacs api !! i = Some h →
                 ∃ h', hvacs (step api op) !! i = Some h'
                       ∧ commandState h' = commandState h)
    ∧ (commandState <$> hvacs (step api op) ≠ commandState <$> hvacs api →
       ∃ data h,
         op = Message data
         ∧ isStateUpdate data = true
         ∧ h ∈ hvacs api
         ∧ member "mac_address" data = JStr (getMacAddress h)).
Proof.
  intros api op. split.
  - intros hvac a v now ->. unfold step.
    rewrite sendCommand_hvacs.
    split; [reflexivity|].
    split; [apply buildCommandPayload_hvacs|].
    intros i h Hi. exists h. split; [exact Hi | reflexivity].
  - destruct op as [hvac a v now | data]; simpl.
    + rewrite sendCommand_hvacs. congruence.
    + destruct (nullish data) eqn:Hd.
      { destruct (onMessage_nullish api data Hd) as [e ->]. congruence. }
      destruct (isStateUpdate data) eqn:Hs.
      * destruct (onMessage_stateUpdate api data Hd Hs) as [api' [-> [Hh _]]].
        rewrite Hh. intros Hne.
        destruct (commandState_changed_some data (hvacs api) Hne) as [h [Hin Hm]].
        exists data, h. repeat split; assumption.
      * rewrite (onMessage_ignored api data Hd Hs). congruence.
Qed.

Lemma commandState_changes_only_on_state_update_witness :
  hvacs (step bedroomConnection (SendCommand bedroom "power" (JStr "on") 1000))
    = hvacs bedroomConnection
  ∧ ∃ data h,
      Message fullFrame = Message data
      ∧ isStateUpdate data = true
      ∧ h ∈ hvacs livingRoomConnection
      ∧ member "mac_address" data = JStr (getMacAddress h).
Proof.
  split.
  - apply (proj1 (commandState_changes_only_on_state_update bedroomConnection
                    (SendCommand bedroom "power" (JStr "on") 1000))
             bedroom "power" (JStr "on") 1000).
    reflexivity.
  - apply (proj2 (commandState_changes_only_on_state_update livingRoomConnection
                    (Message fullFrame))).
    vm_compute. discriminate.
Defined.

(** What a state update leaves of the connection besides the devices and the
    recorded power values. *)
Lemma onMessage_stateUpdate_rest api data api' :
  nullish data = false →
  isStateUpdate data = true →
  onMessage api data = Ok api' →
  notifications api' = notifications api ++ stateUpdateNotifications api data
  ∧ sessionID api' = sessionID api
  ∧ userID api' = userID api
  ∧ accessToken api' = accessToken api
  ∧ refreshToken api' = refreshToken api
  ∧ expiresIn api' = expiresIn api
  ∧ commandCount api' = commandCount api
  ∧ ws api' = ws api
  ∧ commandCallback api' = commandCallback api
  ∧ temperatureCallback api' = temperatureCallback api.
Proof.
  intros Hd Hs. unfold isStateUpdate in Hs.
  apply andb_prop in Hs as [Hs Hobj]. apply andb_prop in Hs as [Hmt Ha].
  destruct (forEachHvac_effect data (hvacs api) (previousPowerStates api) Hd Ha)
    as [prev' [E _]].
  unfold onMessage, stateUpdateNotifications.
  rewrite !(get_not_nullish _ _ Hd). simpl.
  destruct (member "message_type" data) as [ | |b|z|s|l|l|s];
    cbv [strict_eq_str] in Hmt; try discriminate.
  apply String.eqb_eq in Hmt. subst s. simpl.
  rewrite Ha, Hobj. simpl. rewrite E. simpl.
  destruct (commandCallback api) eqn:Hc; simpl;
    (destruct (temperatureCallback api) eqn:Ht; simpl;
     [ destruct (truthy (member "lat_env_var" data)) eqn:Hl; simpl;
       [ rewrite (get_truthy _ _ Hl); simpl;
         destruct (truthy (member "temperature" (member "lat_env_var" data)))
       | ]
     | ]);
    intros [= <-]; simpl; rewrite ?app_nil_r, <- ?app_assoc;
    repeat split; assumption.
Qed.

(** C8, as amended. A frame that is the JSON text of a value other than
    [null] and has not the type of a state update (no type, a type that is
    not a string, another type), has no action object, or carries a MAC
    address of no subscribed device is handled without an exception and
    leaves every device, and the recorded power values, as they were. Of
    these, a frame without the type or without an action object calls no
    callback; a state update for a MAC address of no subscribed device
    still calls the command callback with its action and, when it carries a
    truthy room temperature, the temperature callback. A frame that is the
    JSON text [null] makes the listener throw a [TypeError], and a frame
    that is not JSON makes it throw the error of [JSON.parse]. *)
Theorem unmatched_frames_ignored :
  ∀ api data,
    (nullish data = false →
     member "message_type" data ≠ JStr "StateUpdate"
     ∨ truthy (member "action" data)
       && String.eqb (typeof (member "action" data)) "object" = false
     ∨ (∀ h, h ∈ hvacs api → member "mac_address" data ≠ JStr (getMacAddress h)) →
     ∃ api',
       onFrame api (Ok data) = Ok api'
       ∧ hvacs api' = hvacs api
       ∧ previousPowerStates api' = previousPowerStates api
       ∧ notifications api'
         = notifications api
           ++ (if isStateUpdate data then stateUpdateNotifications api data else [])
       ∧ (member "message_type" data ≠ JStr "StateUpdate"
          ∨ truthy (member "action" data)
            && String.eqb (typeof (member "action" data)) "object" = false →
          api' = api))
    ∧ (nullish data = true →
       ∃ message, onFrame api (Ok data) = Throw (TypeError message))
    ∧ (∀ e, onFrame api (Throw e) = Throw e).
Proof.
  intros api data. split; [|split].
  - intros Hd H.
    change (onFrame api (Ok data)) with (onMessage api data).
    destruct (isStateUpdate data) eqn:Hs.
    + pose proof Hs as Hs'. unfold isStateUpdate in Hs'.
      apply andb_prop in Hs' as [Hs' Hobj]. apply andb_prop in Hs' as [Hmt Ha].
      assert (Hshape : ¬ (member "message_type" data ≠ JStr "StateUpdate"
                          ∨ truthy (member "action" data)
                            && String.eqb (typeof (member "action" data)) "object"
                            = false)).
      { intros [Hx | Hx].
        - apply Hx. apply strict_eq_str_true. exact Hmt.
        - rewrite Ha, Hobj in Hx. discriminate. }
      destruct H as [H | [H | H]];
        [exfalso; apply Hshape; left; exact H
        |exfalso; apply Hshape; right; exact H|].
      assert (Hnone : ∀ h, h ∈ hvacs api →
                strict_eq_str (getMacAddress h) (member "mac_address" data) = false).
      { intros h Hin.
        destruct (strict_eq_str (getMacAddress h) (member "mac_address" data)) eqn:E;
          [|reflexivity].
        exfalso. apply (H h Hin). apply strict_eq_str_true. exact E. }
      destruct (onMessage_stateUpdate api data Hd Hs) as [api' [E [Hh [Hp _]]]].
      destruct (onMessage_stateUpdate_rest api data api' Hd Hs E) as [Hn _].
      exists api'. split; [exact E|]. split; [|split; [|split]].
      * rewrite Hh. apply stateUpdateEffect_none. exact Hnone.
      * apply Hp. exact Hnone.
      * exact Hn.
      * intros Hx. exfalso. exact (Hshape Hx).
    + exists api. split; [apply onMessage_ignored; assumption|].
      split; [reflexivity|]. split; [reflexivity|].
      split; [rewrite app_nil_r; reflexivity | reflexivity].
  - intros Hd. change (onFrame api (Ok data)) with (onMessage api data).
    destruct data; simpl in Hd; try discriminate; eexists; reflexivity.
  - intros e. reflexivity.
Qed.

Lemma unmatched_frames_ignored_witness :
  (∃ api', onFrame livingRoomConnection (Ok heartbeatFrame) = Ok api'
           ∧ hvacs api' = hvacs livingRoomConnection
           ∧ previousPowerStates api' = previousPowerStates livingRoomConnection
           ∧ notifications api' = notifications livingRoomConnection)
  ∧ (∃ api', onFrame bedroomConnection (Ok fullFrame) = Ok api'
             ∧ hvacs api' = hvacs bedroomConnection
             ∧ previousPowerStates api' = previousPowerStates bedroomConnection
             ∧ notifications api'
               = [ CommandCallback (member "action" fullFrame);
                   TemperatureCallback (JStr "80") ])
  ∧ (∃ message, onFrame livingRoomConnection (Ok JNull) = Throw (TypeError message)).
Proof.
  split; [|split].
  - destruct (unmatched_frames_ignored livingRoomConnection heartbeatFrame) as [U _].
    specialize (U eq_refl).
    assert (Hc : member "message_type" heartbeatFrame ≠ JStr "StateUpdate")
      by discriminate.
    destruct (U (or_introl Hc)) as (api' & E & Hh & Hp & Hn & _).
    exists api'. split; [exact E|]. split; [exact Hh|]. split; [exact Hp|].
    rewrite Hn. vm_compute. reflexivity.
  - destruct (unmatched_frames_ignored bedroomConnection fullFrame) as [U _].
    specialize (U eq_refl).
    assert (Hno : ∀ h, h ∈ hvacs bedroomConnection
                       → member "mac_address" fullFrame ≠ JStr (getMacAddress h)).
    { intros h Hin. apply list_elem_of_singleton in Hin. subst h. discriminate. }
    destruct (U (or_intror (or_intror Hno))) as (api' & E & Hh & Hp & Hn & _).
    exists api'. split; [exact E|]. split; [exact Hh|]. split; [exact Hp|].
    rewrite Hn. vm_compute. reflexivity.
  - destruct (unmatched_frames_ignored livingRoomConnection JNull) as (_ & N & _).
    exact (N eq_refl).
Defined.

(** C8, as stated, fails: the frame whose text is [null] has no type, and
    the listener does not ignore it but throws. *)
Lemma null_frame_throws :
  member "message_type" JNull ≠ JStr "StateUpdate"
  ∧ onFrame livingRoomConnection (Ok JNull)
    = Throw (TypeError "Cannot read properties of null (reading 'message_type')").
Proof. split; [discriminate | reflexivity]. Qed.

(** C3. A state update that carries the power only is applied with
    [updateState], which assigns all four fields: the mode "cool" of the
    device, its fan speed and its temperature become [undefined]. The room
    temperature, which the frame does not carry either, is kept. *)
Theorem partial_update_clears_absent_fields :
  getMode livingRoom = JStr "cool"
  ∧ ∃ api' h',
      onMessage livingRoomConnection powerOnlyFrame = Ok api'
      ∧ hvacs api' = [h']
      ∧ getPower h' = JStr "on"
      ∧ getMode h' = JUndefined
      ∧ getFanSpeed h' = JUndefined
      ∧ getTemperature h' = JUndefined
      ∧ getRoomTemperature h' = getRoomTemperature livingRoom.
Proof.
  split; [reflexivity|].
  eexists. eexists. split; [reflexivity|].
  split; [reflexivity|]. repeat split.
Qed.

(** ** The payload of a command *)

(** C4, as amended. The payload built for a command carries the device's
    current value for each of power, mode, fan speed and temperature that
    the command does not change, the new value for the one it changes
    (printed as a string when it is the temperature), the constant protocol
    fields, and as [oldPower] the value recorded for the device's MAC
    address when that value is truthy, and "off" when the recorded value is
    falsy or none was recorded; a power command records its value for the
    next payload, and so does a state update received for the device; and
    sending power "on" for a device never seen powered writes a frame with
    actionType "power", actionValue "on", actions.power "on" and oldPower
    "off". *)
Theorem buildCommandPayload_contents :
  ∀ api hvac action value now,
    let p := snd (buildCommandPayload api hvac action value now) in
    let a := p_actions p in
    let mac := macAddress hvac in
    (p_actionType p = action ∧ p_actionValue p = value ∧ p_macAddress p = mac)
    ∧ ((action ≠ "power" → act_power a = power hvac)
       ∧ (action ≠ "mode" → act_mode a = mode hvac)
       ∧ (action ≠ "fanspeed" → act_fanspeed a = fanSpeed hvac)
       ∧ (action ≠ "temp" → act_temp a = temperature hvac))
    ∧ ((action = "power" → act_power a = value)
       ∧ (action = "mode" → act_mode a = value)
       ∧ (action = "fanspeed" → act_fanspeed a = value)
       ∧ (action = "temp" → act_temp a = JStr (ToString value)))
    ∧ (act_swing a = "adjust" ∧ act_turbo a = "off"
       ∧ act_light a = "on/off" ∧ act_followme a = "off")
    ∧ ((∀ v, previousPowerStates api !! mac = Some v → truthy v = true →
             p_oldPower p = v)
       ∧ (∀ v, previousPowerStates api !! mac = Some v → truthy v = false →
               p_oldPower p = JStr "off")
       ∧ (previousPowerStates api !! mac = None → inPrototype mac = false →
          p_oldPower p = JStr "off")
       ∧ (∀ v action' value' now',
            mac ≠ "__proto__" →
            p_oldPower
              (snd (buildCommandPayload
                      (fst (buildCommandPayload api hvac "power" v now))
                      hvac action' value' now'))
            = if truthy v then v else JStr "off")
       ∧ (∀ data api' action' value' now',
            nullish data = false → isStateUpdate data = true →
            hvac ∈ hvacs api →
            member "mac_address" data = JStr mac →
            truthy (member "power" (member "action" data)) = true →
            mac ≠ "__proto__" →
            onMessage api data = Ok api' →
            p_oldPower (snd (buildCommandPayload api' hvac action' value' now'))
            = member "power" (member "action" data)))
    ∧ (∀ w, previousPowerStates api !! mac = None → inPrototype mac = false →
            ws api = Some w → ws_open w = true →
            ∃ api' q,
              sendCommand api hvac "power" (JStr "on") now = (api', Ok tt)
              ∧ ws_sent <$> ws api' = Some (ws_sent w ++ [q])
              ∧ p_actionType q = "power"
              ∧ p_actionValue q = JStr "on"
              ∧ act_power (p_actions q) = JStr "on"
              ∧ p_oldPower q = JStr "off").
Proof.
  intros api hvac action value now p a mac.
  split; [repeat split|].
  split.
  { subst p a; simpl. repeat split; intros H; rewrite (eqb_neq_false _ _ H); reflexivity. }
  split.
  { subst p a; simpl. repeat split; intros ->; reflexivity. }
  split; [repeat split|].
  split.
  { split; [|split; [|split; [|split]]].
    - intros v Hv Ht. subst p. rewrite buildCommandPayload_oldPower.
      change (getMacAddress hvac) with mac.
      rewrite (dict_get_recorded _ _ _ Hv). unfold js_or. rewrite Ht. reflexivity.
    - intros v Hv Ht. subst p. rewrite buildCommandPayload_oldPower.
      change (getMacAddress hvac) with mac.
      rewrite (dict_get_recorded _ _ _ Hv). unfold js_or. rewrite Ht. reflexivity.
    - intros Hn Hp. subst p. rewrite buildCommandPayload_oldPower.
      change (getMacAddress hvac) with mac.
      rewrite (dict_get_unseen _ _ Hn Hp). reflexivity.
    - intros v action' value' now' Hk.
      rewrite buildCommandPayload_oldPower.
      rewrite (dict_get_recorded _ _ v).
      + reflexivity.
      + apply buildCommandPayload_records_power. exact Hk.
    - intros data api' action' value' now' Hd Hs Hin Hm Ht Hk Hon.
      destruct (onMessage_stateUpdate api data Hd Hs) as (api'' & E & _ & _ & Hset).
      assert (api'' = api') by congruence. subst api''.
      rewrite buildCommandPayload_oldPower.
      rewrite (dict_get_recorded _ _ (member "power" (member "action" data))).
      + unfold js_or. rewrite Ht. reflexivity.
      + rewrite (Hset hvac Hin).
        * apply dict_set_lookup. exact Hk.
        * rewrite Hm. apply strict_eq_str_refl. }
  intros w Hn Hp Hw Ho.
  eexists. eexists. split; [apply (sendCommand_open _ _ _ _ _ w Hw Ho)|].
  split; [reflexivity|].
  split; [reflexivity|]. split; [reflexivity|]. split; [reflexivity|].
  rewrite buildCommandPayload_oldPower. change (getMacAddress hvac) with mac.
  rewrite (dict_get_unseen _ _ Hn Hp). reflexivity.
Qed.

Lemma buildCommandPayload_contents_witness :
  (act_mode (p_actions (snd (buildCommandPayload livingRoomConnection livingRoom
                               "power" (JStr "on") 1000)))
   = JStr "cool"
   ∧ act_fanspeed (p_actions (snd (buildCommandPayload livingRoomConnection livingRoom
                                     "power" (JStr "on") 1000)))
     = JStr "auto"
   ∧ act_temp (p_actions (snd (buildCommandPayload livingRoomConnection livingRoom
                                 "power" (JStr "on") 1000)))
     = JStr "73"
   ∧ act_power (p_actions (snd (buildCommandPayload livingRoomConnection livingRoom
                                  "mode" (JStr "heat") 1000)))
     = JStr "off")
  ∧ act_temp (p_actions (snd (buildCommandPayload livingRoomConnection livingRoom
                                "temp" (JNum 72) 1000)))
    = JStr "72"
  ∧ p_oldPower (snd (buildCommandPayload livingRoomConnection livingRoom
                       "power" (JStr "on") 1000))
    = JStr "off"
  ∧ p_oldPower
      (snd (buildCommandPayload
              (fst (buildCommandPayload livingRoomConnection livingRoom
                      "power" (JStr "on") 1000))
              livingRoom "mode" (JStr "heat") 2000))
    = JStr "on"
  ∧ ∃ api' q,
      sendCommand livingRoomConnection livingRoom "power" (JStr "on") 1000
      = (api', Ok tt)
      ∧ ws_sent <$> ws api' = Some ([] ++ [q])
      ∧ p_actionType q = "power"
      ∧ p_actionValue q = JStr "on"
      ∧ act_power (p_actions q) = JStr "on"
      ∧ p_oldPower q = JStr "off".
Proof.
  pose proof (buildCommandPayload_contents livingRoomConnection livingRoom
                "power" (JStr "on") 1000) as P.
  pose proof (buildCommandPayload_contents livingRoomConnection livingRoom
                "mode" (JStr "heat") 1000) as M.
  pose proof (buildCommandPayload_contents livingRoomConnection livingRoom
                "temp" (JNum 72) 1000) as T.
  cbv zeta in P, M, T.
  destruct P as (_ & (_ & Pmode & Pfan & Ptemp) & _ & _
                 & (_ & _ & Pold & Pnext & _) & Psend).
  destruct M as (_ & (Mpower & _) & _).
  destruct T as (_ & _ & (_ & _ & _ & Ttemp) & _).
  split.
  { split; [apply Pmode; discriminate|]. split; [apply Pfan; discriminate|].
    split; [apply Ptemp; discriminate | apply Mpower; discriminate]. }
  split; [apply Ttemp; reflexivity|].
  split; [apply Pold; reflexivity|].
  split; [apply (Pnext (JStr "on") "mode" (JStr "heat") 2000); discriminate|].
  apply (Psend openSocket); reflexivity.
Defined.

(** C4, as stated, fails: power "on" was recorded for the device, then a
    state update without a power value arrives for it; the value recorded
    last is [undefined], and the next payload carries "off" as the old
    power, which is neither the value recorded last nor the power value
    recorded before it. *)
Lemma oldPower_not_the_recorded_value :
  previousPowerStates poweredOnConnection !! "C45BBEC42467" = Some (JStr "on")
  ∧ onMessage poweredOnConnection modeOnlyFrame = Ok modeChangedConnection
  ∧ hvacs modeChangedConnection = [stateUpdateEffect modeOnlyFrame livingRoom]
  ∧ previousPowerStates modeChangedConnection !! "C45BBEC42467" = Some JUndefined
  ∧ p_oldPower
      (snd (buildCommandPayload modeChangedConnection
              (stateUpdateEffect modeOnlyFrame livingRoom)
              "fanspeed" (JStr "high") 2000))
    = JStr "off"
  ∧ p_oldPower
      (snd (buildCommandPayload modeChangedConnection
              (stateUpdateEffect modeOnlyFrame livingRoom)
              "fanspeed" (JStr "high") 2000))
    ≠ JUndefined
  ∧ p_oldPower
      (snd (buildCommandPayload modeChangedConnection
              (stateUpdateEffect modeOnlyFrame livingRoom)
              "fanspeed" (JStr "high") 2000))
    ≠ JStr "on".
Proof.
  repeat split; try (vm_compute; reflexivity); vm_compute; discriminate.
Qed.

(** ** Device identity *)

Lemma bind_Ok {A B : Type} (m : Result A) (f : A → Result B) (b : B) :
  m ≫= f = Ok b → ∃ a, m = Ok a ∧ f a = Ok b.
Proof.
  destruct m as [a|e]; simpl; [|discriminate].
  intros H. exists a. split; [reflexivity | exact H].
Qed.

Lemma new_CieloHVAC_macAddress mac n a f d h :
  new_CieloHVAC mac n a f d = Ok h → getMacAddress h = mac.
Proof.
  unfold new_CieloHVAC.
  destruct (truthy d); [destruct d; try discriminate|].
  - destruct (startsWith "BI" s || startsWith "BP" s); intros [= <-]; reflexivity.
  - intros [= <-]; reflexivity.
Qed.

Lemma subscribeDevice_macAddress device h :
  subscribeDevice device = Ok h → getMacAddress h = d_macAddress device.
Proof.
  unfold subscribeDevice. intros H.
  apply bind_Ok in H as (h0 & Hnew & H).
  apply bind_Ok in H as (p & _ & H).
  apply bind_Ok in H as (t & _ & H).
  apply bind_Ok in H as (mo & _ & H).
  apply bind_Ok in H as (fs & _ & H).
  apply bind_Ok in H as (r & _ & H).
  injection H as <-. simpl.
  apply (new_CieloHVAC_macAddress _ _ _ _ _ _ Hnew).
Qed.

Lemma toUpperCaseAscii_idempotent c :
  toUpperCaseAscii (toUpperCaseAscii c) = toUpperCaseAscii c.
Proof. destruct c as [[] [] [] [] [] [] [] []]; reflexivity. Qed.

Lemma toUpperCase_idempotent s : toUpperCase (toUpperCase s) = toUpperCase s.
Proof.
  induction s as [|c rest IH]; simpl; [reflexivity|].
  rewrite toUpperCaseAscii_idempotent, IH. reflexivity.
Qed.

Lemma find_first {A : Type} (p : A → bool) (l : list A) (x : A) :
  x ∈ l → p x = true → ∃ y, List.find p l = Some y ∧ p y = true.
Proof.
  intros Hin Hp.
  destruct (List.find p l) as [y|] eqn:E.
  - exists y. split; [reflexivity|]. apply (find_some _ _ E).
  - apply list_elem_of_In in Hin.
    rewrite (find_none _ _ E x Hin) in Hp. discriminate.
Qed.

Lemma findHvac_connected m a q :
  Manager.getApi m = Ok a →
  Manager.findHvac m q
  = Ok (List.find
          (fun h => String.eqb (toUpperCase (getMacAddress h)) (toUpperCase q))
          (hvacs a)).
Proof.
  intros H. unfold Manager.findHvac, Manager.getHvacs. rewrite H. reflexivity.
Qed.

Lemma findHvac_inv m q r :
  Manager.findHvac m q = Ok r →
  ∃ a, Manager.getApi m = Ok a
       ∧ r = List.find
               (fun h => String.eqb (toUpperCase (getMacAddress h)) (toUpperCase q))
               (hvacs a).
Proof.
  unfold Manager.findHvac, Manager.getHvacs.
  destruct (Manager.getApi m) as [a|e]; simpl; [|discriminate].
  intros [= <-]. exists a. split; reflexivity.
Qed.

Lemma onMessage_other_device api data q i h api' :
  member "mac_address" data = JStr q →
  getMacAddress h ≠ q →
  hvacs api !! i = Some h →
  onMessage api data = Ok api' →
  hvacs api' !! i = Some h.
Proof.
  intros Hq Hne Hi Hm.
  destruct (nullish data) eqn:Hd.
  { destruct (onMessage_nullish api data Hd) as [e He]. congruence. }
  destruct (isStateUpdate data) eqn:Hs.
  - destruct (onMessage_stateUpdate api data Hd Hs) as [api'' [E [Hh _]]].
    assert (api'' = api') by congruence. subst api''.
    rewrite Hh, list_lookup_fmap, Hi. simpl. f_equal.
    apply stateUpdateEffect_other. rewrite Hq. simpl.
    apply String.eqb_neq. exact Hne.
  - rewrite (onMessage_ignored api data Hd Hs) in Hm.
    injection Hm as <-. exact Hi.
Qed.

(** C2, as the code has it. A device keeps the MAC address of its directory
    entry as written. A state update is applied to the device whose MAC
    address is the same string as the frame's. The manager's [findHvac]
    compares the upper-cased forms, so it ignores letter case, of the query
    and of the stored address alike; it removes no separator, and two
    addresses whose upper-cased forms differ resolve to one device neither
    through [findHvac] nor through a frame. *)
Theorem mac_matching :
  (∀ device h,
      subscribeDevice device = Ok h → getMacAddress h = d_macAddress device)
  ∧ (∀ api data i h,
       nullish data = false → isStateUpdate data = true →
       hvacs api !! i = Some h →
       member "mac_address" data = JStr (getMacAddress h) →
       appliedAt api data i)
  ∧ (∀ m a q h,
       Manager.getApi m = Ok a → h ∈ hvacs a →
       toUpperCase (getMacAddress h) = toUpperCase q →
       ∃ h', Manager.findHvac m q = Ok (Some h')
             ∧ toUpperCase (getMacAddress h') = toUpperCase q)
  ∧ (∀ m q, Manager.findHvac m (toUpperCase q) = Manager.findHvac m q)
  ∧ (∀ m q h',
       Manager.findHvac m q = Ok (Some h') →
       toUpperCase (getMacAddress h') = toUpperCase q)
  ∧ (∀ api data q i h api',
       member "mac_address" data = JStr q →
       toUpperCase (getMacAddress h) ≠ toUpperCase q →
       hvacs api !! i = Some h →
       onMessage api data = Ok api' →
       hvacs api' !! i = Some h).
Proof.
  split; [exact subscribeDevice_macAddress|].
  split.
  { intros api data i h Hd Hs Hi Hm.
    destruct (onMessage_stateUpdate api data Hd Hs) as [api' [E [Hh _]]].
    exists api', (stateUpdateEffect data h).
    split; [exact E|]. split.
    - rewrite Hh, list_lookup_fmap, Hi. reflexivity.
    - apply stateUpdateEffect_commandState. rewrite Hm. apply strict_eq_str_refl. }
  split.
  { intros m a q h Ha Hin Hu.
    rewrite (findHvac_connected m a q Ha).
    destruct (find_first
                (fun h => String.eqb (toUpperCase (getMacAddress h)) (toUpperCase q))
                (hvacs a) h Hin) as [y [Hf Hy]].
    - apply String.eqb_eq. exact Hu.
    - exists y. rewrite Hf. split; [reflexivity|]. apply String.eqb_eq. exact Hy. }
  split.
  { intros m q. unfold Manager.findHvac.
    rewrite toUpperCase_idempotent. reflexivity. }
  split.
  { intros m q h' H.
    apply findHvac_inv in H as [a [_ Hf]].
    symmetry in Hf. apply find_some in Hf as [_ Hp].
    apply String.eqb_eq. exact Hp. }
  intros api data q i h api' Hq Hne Hi Hm.
  apply (onMessage_other_device api data q i h api' Hq); try assumption.
  intros E. apply Hne. rewrite E. reflexivity.
Qed.

Lemma mac_matching_witness :
  appliedAt livingRoomConnection fullFrame 0
  ∧ (∃ h', Manager.findHvac
             (Manager.set_isConnected
                (Manager.set_api
                   (Manager.new_CieloConnectionManager
                      (Manager.mkOptions None None None None None None None))
                   (Some livingRoomConnection))
                true)
             "c45bbec42467" = Ok (Some h')
           ∧ toUpperCase (getMacAddress h') = toUpperCase "c45bbec42467")
  ∧ ∀ api',
      onMessage livingRoomConnection
        (JObj [ ("message_type", JStr "StateUpdate");
                ("action", JObj [ ("power", JStr "on") ]);
                ("mac_address", JStr "c4:5b:be:c4:24:67") ]) = Ok api' →
      hvacs api' !! 0%nat = Some livingRoom.
Proof.
  destruct mac_matching as (_ & Happlied & Hfind & _ & _ & Hother).
  split; [|split].
  - apply (Happlied livingRoomConnection fullFrame 0%nat livingRoom); reflexivity.
  - apply (Hfind _ livingRoomConnection "c45bbec42467" livingRoom).
    + reflexivity.
    + left.
    + reflexivity.
  - intros api'.
    apply (Hother livingRoomConnection _ "c4:5b:be:c4:24:67" 0%nat livingRoom api').
    + reflexivity.
    + vm_compute. discriminate.
    + reflexivity.
Defined.

(** C2, as stated, fails: a device made from a directory entry with the MAC
    address c4:5b:be:c4:24:67 does not receive the state update that carries
    C45BBEC42467, and [findHvac] does not find it under that address. *)
Lemma mac_formats_do_not_resolve :
  ∃ api1 h,
    subscribeToHVACs (new_CieloAPIConnection true true) []
      (InfoObject JUndefined (DataList [colonEntry])) true
    = (api1, Resolved)
    ∧ hvacs api1 = [h]
    ∧ getMacAddress h = "c4:5b:be:c4:24:67"
    ∧ ¬ appliedAt api1 compactFrame 0
    ∧ (∃ api2, onMessage api1 compactFrame = Ok api2 ∧ hvacs api2 = [h])
    ∧ Manager.findHvac
        (Manager.set_isConnected
           (Manager.set_api
              (Manager.new_CieloConnectionManager
                 (Manager.mkOptions None None None None None None None))
              (Some api1))
           true)
        "C45BBEC42467" = Ok None.
Proof.
  exists (fst (subscribeToHVACs (new_CieloAPIConnection true true) []
                 (InfoObject JUndefined (DataList [colonEntry])) true)),
         (seededDevice colonEntry).
  split; [vm_compute; reflexivity|]. split; [vm_compute; reflexivity|].
  split; [reflexivity|].
  split.
  { intros (api' & h' & Hm & Hl & Hc).
    vm_compute in Hm. injection Hm as <-.
    vm_compute in Hl. injection Hl as <-.
    vm_compute in Hc. discriminate. }
  split.
  { exists (step (fst (subscribeToHVACs (new_CieloAPIConnection true true) []
                         (InfoObject JUndefined (DataList [colonEntry])) true))
              (Message compactFrame)).
    split; vm_compute; reflexivity. }
  vm_compute. reflexivity.
Qed.

(** ** Session *)

Lemma refreshAccessToken_Ok api tok status body api' :
  refreshAccessToken api tok status body = Ok api' →
  api' = set_tokens api
           (member "accessToken" (member "data" body))
           (member "refreshToken" (member "data" body))
           (member "expiresIn" (member "data" body)).
Proof.
  unfold refreshAccessToken.
  destruct (truthy (js_or tok (refreshToken api))); simpl; [|discriminate].
  destruct (nullish body) eqn:Hb.
  { destruct body; simpl in *; discriminate. }
  rewrite (get_not_nullish _ _ Hb). simpl.
  destruct (truthy (member "data" body)) eqn:Hd; [|discriminate].
  rewrite !(get_truthy _ _ Hd). simpl.
  intros [= <-]. reflexivity.
Qed.

Lemma refreshAccessToken_returns api tok status body :
  truthy (js_or tok (refreshToken api)) = true →
  truthy (member "data" body) = true →
  ∃ api', refreshAccessToken api tok status body = Ok api'.
Proof.
  intros Ht Hd. unfold refreshAccessToken. rewrite Ht. simpl.
  assert (Hb : nullish body = false).
  { destruct body; simpl in *; try reflexivity; discriminate. }
  rewrite (get_not_nullish _ _ Hb). simpl. rewrite Hd.
  rewrite !(get_truthy _ _ Hd). simpl. eexists. reflexivity.
Qed.

Lemma establishConnection_Ok api responseJSON api' :
  establishConnection api responseJSON = Ok api' →
  ∃ user,
    loginData responseJSON = Ok user
    ∧ api' = set_session api (member "sessionId" user) (member "userId" user)
               (member "accessToken" user) (member "refreshToken" user)
               (member "expiresIn" user).
Proof.
  unfold establishConnection. intros H.
  apply bind_Ok in H as (user & Hu & H).
  exists user. split; [exact Hu|].
  destruct (nullish user) eqn:Hn.
  { destruct user; simpl in *; discriminate. }
  rewrite !(get_not_nullish _ _ Hn) in H. simpl in H.
  injection H as <-. reflexivity.
Qed.

(** C9, as the code has it. A successful login stores the session id, the
    user id, the tokens and the expiry of the login answer. A successful
    refresh after it leaves the session id and the user id as they were and
    stores the access token, the refresh token and the expiry of the refresh
    answer; the refresh succeeds whenever a refresh token is at hand and the
    answer has a data object; the expiry grows exactly when the answer's
    expiry exceeds the one of the login. *)
Theorem refresh_replaces_tokens :
  ∀ api0 responseJSON api1 tok status body,
    establishConnection api0 responseJSON = Ok api1 →
    (∃ user,
        loginData responseJSON = Ok user
        ∧ sessionID api1 = member "sessionId" user
        ∧ userID api1 = member "userId" user
        ∧ getExpiresIn api1 = member "expiresIn" user)
    ∧ (truthy (js_or tok (refreshToken api1)) = true →
       truthy (member "data" body) = true →
       ∃ api2, refreshAccessToken api1 tok status body = Ok api2)
    ∧ ∀ api2,
        refreshAccessToken api1 tok status body = Ok api2 →
        sessionID api2 = sessionID api1
        ∧ userID api2 = userID api1
        ∧ accessToken api2 = member "accessToken" (member "data" body)
        ∧ refreshToken api2 = member "refreshToken" (member "data" body)
        ∧ getExpiresIn api2 = member "expiresIn" (member "data" body)
        ∧ (js_lt (getExpiresIn api1) (getExpiresIn api2) = true
           ↔ js_lt (getExpiresIn api1) (member "expiresIn" (member "data" body))
             = true).
Proof.
  intros api0 responseJSON api1 tok status body Hlogin.
  split.
  { apply establishConnection_Ok in Hlogin as [user [Hu ->]].
    exists user. repeat split. exact Hu. }
  split; [apply refreshAccessToken_returns|].
  intros api2 H. apply refreshAccessToken_Ok in H. subst api2.
  repeat split; intros H; exact H.
Qed.

Lemma refresh_replaces_tokens_witness :
  ∃ api1 api2,
    establishConnection (new_CieloAPIConnection true true) loginAnswer = Ok api1
    ∧ refreshAccessToken api1 JUndefined 200 refreshAnswer = Ok api2
    ∧ sessionID api2 = JStr "s-1"
    ∧ userID api2 = JStr "9yjCpPYIJ1"
    ∧ accessToken api2 = JStr "access-2"
    ∧ refreshToken api2 = JStr "refresh-2".
Proof.
  eexists. eexists.
  split; [reflexivity|]. split; [reflexivity|].
  destruct (refresh_replaces_tokens (new_CieloAPIConnection true true) loginAnswer
              _ JUndefined 200 refreshAnswer eq_refl) as (_ & _ & H).
  destruct (H _ eq_refl) as (Hs & Hu & Ha & Hr & _).
  split; [exact Hs|]. split; [exact Hu|]. split; [exact Ha | exact Hr].
Defined.

(** C9, as stated, fails: the code stores the expiry that the backend sends,
    and an answer that grants the same expiry leaves it where it was. *)
Lemma refresh_expiry_not_increased :
  ∃ api1 api2,
    establishConnection (new_CieloAPIConnection true true) loginAnswer = Ok api1
    ∧ refreshAccessToken api1 JUndefined 200 refreshAnswer = Ok api2
    ∧ getExpiresIn api1 = JNum 1763600000
    ∧ getExpiresIn api2 = JNum 1763600000
    ∧ js_lt (getExpiresIn api1) (getExpiresIn api2) = false.
Proof.
  eexists. eexists.
  split; [reflexivity|]. split; [reflexivity|]. repeat split.
Qed.

(** ** Reconnection *)

Module ManagerProperties.
Import Manager.

Lemma scheduleReconnect_timers m :
  timers (scheduleReconnect m)
  = timers m
    ++ [mkTimer (nextTimer m) ReconnectTimer
          (Z.min (reconnectDelay m * 2 ^ reconnectAttempts m) maxDelay)].
Proof.
  unfold scheduleReconnect; simpl.
  replace (reconnectAttempts m + 1 - 1) with (reconnectAttempts m) by lia.
  reflexivity.
Qed.

Lemma scheduleReconnect_fields m :
  reconnectAttempts (scheduleReconnect m) = reconnectAttempts m + 1
  ∧ nextTimer (scheduleReconnect m) = S (nextTimer m)
  ∧ reconnectDelay (scheduleReconnect m) = reconnectDelay m
  ∧ maxReconnectAttempts (scheduleReconnect m) = maxReconnectAttempts m
  ∧ autoReconnect (scheduleReconnect m) = autoReconnect m
  ∧ isConnected (scheduleReconnect m) = isConnected m.
Proof. repeat split. Qed.

Lemma pendingReconnects_scheduleReconnect m :
  pendingReconnects (scheduleReconnect m)
  = pendingReconnects m
    ++ [mkTimer (nextTimer m) ReconnectTimer
          (Z.min (reconnectDelay m * 2 ^ reconnectAttempts m) maxDelay)].
Proof.
  unfold pendingReconnects. rewrite scheduleReconnect_timers.
  rewrite List.filter_app. reflexivity.
Qed.

(** A failed attempt that may retry is [scheduleReconnect] on the manager
    marked disconnected. *)
Lemma connect_failure m outcome now e :
  snd outcome = Throw e →
  autoReconnect m = true →
  reconnectAttempts m < maxReconnectAttempts m →
  connect m outcome now
  = (scheduleReconnect (set_isConnected (set_api m (Some (fst outcome))) false), Ok tt).
Proof.
  intros Ho Ha Hlt. unfold connect. rewrite Ho. simpl. rewrite Ha.
  apply Z.ltb_lt in Hlt. rewrite Hlt. reflexivity.
Qed.

(** A failed attempt with the counter at the maximum, or with reconnection
    switched off, schedules nothing: the promise rejects. *)
Lemma connect_failure_final m outcome now e :
  snd outcome = Throw e →
  autoReconnect m = false ∨ maxReconnectAttempts m ≤ reconnectAttempts m →
  timers (fst (connect m outcome now)) = timers m
  ∧ snd (connect m outcome now) = Throw e.
Proof.
  intros Ho H. unfold connect. rewrite Ho. simpl.
  destruct H as [-> | H]; simpl; [split; reflexivity|].
  apply Z.ltb_ge in H. rewrite H, andb_false_r. split; reflexivity.
Qed.

Lemma clear_newest (l : list Timer) (id : nat) kind delay :
  (∀ t, t ∈ l → (timer_id t < id)%nat) →
  filter (fun t => timer_id t ≠ id) (l ++ [mkTimer id kind delay]) = l.
Proof.
  intros Hl. rewrite filter_app.
  rewrite filter_singleton_False; [|exact [] | simpl; intros H; apply H; reflexivity].
  rewrite app_nil_r.
  induction l as [|t rest IH]; [reflexivity|].
  rewrite filter_cons_True.
  - rewrite IH; [reflexivity|]. intros t' Hin. apply Hl. right. exact Hin.
  - pose proof (Hl t ltac:(left)) as H. lia.
Qed.

(** The state after [S k] failed attempts in a row. *)
Lemma consecutiveAttempts_failed m outcome now e (k : nat) :
  snd outcome = Throw e →
  autoReconnect m = true →
  reconnectAttempts m = 0 →
  timersFresh m →
  Z.of_nat k < maxReconnectAttempts m →
  let m' := consecutiveAttempts k m outcome now in
  timers m'
  = timers m
    ++ [mkTimer (nextTimer m + k) ReconnectTimer
          (Z.min (reconnectDelay m * 2 ^ Z.of_nat k) maxDelay)]
  ∧ nextTimer m' = S (nextTimer m + k)
  ∧ reconnectAttempts m' = Z.of_nat k + 1
  ∧ reconnectDelay m' = reconnectDelay m
  ∧ maxReconnectAttempts m' = maxReconnectAttempts m
  ∧ autoReconnect m' = true.
Proof.
  intros Ho Ha H0 Hf. induction k as [|k IH]; intros Hk.
  - cbn [consecutiveAttempts].
    rewrite (connect_failure m outcome now e Ho Ha) by lia.
    cbn [fst]. rewrite scheduleReconnect_timers. simpl.
    rewrite H0, Nat.add_0_r. repeat split; try reflexivity. exact Ha.
  - destruct IH as (Ht & Hn & Hr & Hd & Hm & Hau); [lia|].
    cbn [consecutiveAttempts] in *.
    set (mk := consecutiveAttempts k m outcome now) in *.
    unfold pendingReconnects. rewrite Ht.
    rewrite List.filter_app. cbn [List.filter isReconnect timer_kind].
    rewrite last_snoc. cbn [timer_id].
    unfold fireReconnectTimer.
    assert (Hc : timers (clearTimer mk (nextTimer m + k)) = timers m).
    { unfold clearTimer; simpl. rewrite Ht. apply clear_newest.
      intros t Hin. pose proof (Hf t Hin). lia. }
    rewrite (connect_failure _ outcome now e Ho).
    + cbn [fst]. rewrite scheduleReconnect_timers. simpl.
      rewrite Ht in *. rewrite Hn, Hr, Hd, Hm, Hau.
      unfold clearTimer in Hc; simpl in Hc. rewrite Ht in Hc. rewrite Hc.
      replace (nextTimer m + S k)%nat with (S (nextTimer m + k)) by lia.
      replace (Z.of_nat (S k)) with (Z.of_nat k + 1) by lia.
      repeat split; reflexivity.
    + simpl. exact Hau.
    + simpl. rewrite Hr, Hm. lia.
Qed.

Lemma backoffDelay_monotone base n :
  0 < base → 1 ≤ n →
  backoffDelay base n ≤ backoffDelay base (n + 1) ∧ backoffDelay base n ≤ maxDelay.
Proof.
  intros Hb Hn. unfold backoffDelay. split; [|apply Z.le_min_r].
  apply Z.min_le_compat_r.
  replace (n + 1 - 1) with (Z.succ (n - 1)) by lia.
  rewrite Z.pow_succ_r by lia.
  assert (0 < 2 ^ (n - 1)) by (apply Z.pow_pos_nonneg; lia).
  nia.
Qed.

Lemma backoffDelay_first base : backoffDelay base 1 = Z.min base maxDelay.
Proof. unfold backoffDelay. simpl. rewrite Z.mul_1_r. reflexivity. Qed.

(** A successful attempt puts the counter back to zero; when the token is
    about to expire it schedules a reconnect at once, the first of a new
    series. *)
Lemma connect_success m outcome now r :
  snd outcome = Ok r →
  let ms := fst (connect m outcome now) in
  reconnectDelay ms = reconnectDelay m
  ∧ isConnected ms = true
  ∧ (reconnectAttempts ms = 0
     ∨ (reconnectAttempts ms = 1
        ∧ ∃ id, last (timers ms)
                = Some (mkTimer id ReconnectTimer (backoffDelay (reconnectDelay m) 1)))).
Proof.
  intros Ho. unfold connect. rewrite Ho. cbn [fst].
  unfold startHealthCheck, stopHealthCheck, scheduleTokenRefresh, stopTokenRefresh.
  rewrite backoffDelay_first.
  repeat first
    [ progress simpl
    | match goal with
      | |- context [match ?x with Some _ => _ | None => _ end] => destruct x
      | |- context [if ?b then _ else _] => destruct b
      end ].
  all: split; [reflexivity|]; split; [reflexivity|].
  all: first
    [ left; reflexivity
    | right; split; [reflexivity|];
      eexists; rewrite last_snoc, Z.mul_1_r; reflexivity ].
Qed.

(** C6. When connection attempts fail one after the other, starting with the
    counter at zero, the delay scheduled before reconnect attempt [n] is the
    base delay doubled [n - 1] times and capped at five minutes, for every
    [n] up to the maximum number of attempts; these delays do not decrease
    and never exceed the cap; and a success puts the counter back, so that
    the next delay scheduled is the base delay (capped) again. *)
Theorem reconnect_backoff :
  ∀ m outcome now e (n : nat),
    snd outcome = Throw e →
    autoReconnect m = true →
    reconnectAttempts m = 0 →
    timersFresh m →
    (1 ≤ n)%nat →
    Z.of_nat n ≤ maxReconnectAttempts m →
    0 < reconnectDelay m →
    let base := reconnectDelay m in
    let m' := consecutiveAttempts (n - 1) m outcome now in
    (∃ id, last (timers m')
           = Some (mkTimer id ReconnectTimer (backoffDelay base (Z.of_nat n))))
    ∧ reconnectAttempts m' = Z.of_nat n
    ∧ (pendingReconnects m = [] → length (pendingReconnects m') = 1%nat)
    ∧ (backoffDelay base (Z.of_nat n) ≤ backoffDelay base (Z.of_nat n + 1)
       ∧ backoffDelay base (Z.of_nat n) ≤ maxDelay
       ∧ backoffDelay base 1 = Z.min base maxDelay)
    ∧ (∀ api' now',
         let ms := fst (connect m' (api', Ok tt) now') in
         (reconnectAttempts ms = 0
          ∧ ∃ id, last (timers (scheduleReconnect ms))
                  = Some (mkTimer id ReconnectTimer (backoffDelay base 1)))
         ∨ (reconnectAttempts ms = 1
            ∧ ∃ id, last (timers ms)
                    = Some (mkTimer id ReconnectTimer (backoffDelay base 1)))).
Proof.
  intros m outcome now e n Ho Ha H0 Hf Hn Hmax Hb base m'.
  destruct (consecutiveAttempts_failed m outcome now e (n - 1) Ho Ha H0 Hf)
    as (Ht & Hnx & Hr & Hd & Hm & Hau); [lia|].
  fold m' in Ht, Hnx, Hr, Hd, Hm, Hau.
  replace (Z.of_nat (n - 1)) with (Z.of_nat n - 1) in * by lia.
  split.
  { eexists. rewrite Ht, last_snoc. reflexivity. }
  split; [lia|].
  split.
  { intros Hp. unfold pendingReconnects in *. rewrite Ht, List.filter_app, Hp.
    reflexivity. }
  split.
  { destruct (backoffDelay_monotone base (Z.of_nat n) Hb) as [H1 H2]; [lia|].
    split; [exact H1|]. split; [exact H2 | apply backoffDelay_first]. }
  intros api' now' ms.
  destruct (connect_success m' (api', Ok tt) now' tt eq_refl) as (Hd' & _ & [H | H]).
  - left. split; [exact H|].
    eexists. rewrite scheduleReconnect_timers, last_snoc.
    fold ms in Hd', H. rewrite Hd', H, Hd, backoffDelay_first, Z.mul_1_r.
    reflexivity.
  - right. fold ms in H. rewrite Hd in H. exact H.
Qed.

Lemma reconnect_backoff_witness :
  (∃ id, last (timers (consecutiveAttempts 2 defaultManager loginFailure 0))
         = Some (mkTimer id ReconnectTimer 20000))
  ∧ reconnectAttempts (consecutiveAttempts 2 defaultManager loginFailure 0) = 3.
Proof.
  assert (Hf : timersFresh defaultManager).
  { intros t Hin. apply not_elem_of_nil in Hin. destruct Hin. }
  destruct (reconnect_backoff defaultManager loginFailure 0
              (Error "Login failed: Unknown error") 3
              eq_refl eq_refl eq_refl Hf ltac:(lia) ltac:(vm_compute; discriminate)
              eq_refl)
    as (H1 & H2 & _).
  split; [exact H1 | exact H2].
Defined.

(** C1. [scheduleReconnect] keeps no handle of the timeout it creates and
    clears none: each call adds a pending reconnect. On a connected manager,
    an error of the socket followed by a health check leaves two reconnects
    pending, and so does the error event alone, which reaches [handleError]
    through both listeners that [#connect] registers. *)
Theorem reconnects_pile_up :
  (∀ m, length (pendingReconnects (scheduleReconnect m))
        = S (length (pendingReconnects m)))
  ∧ (let m1 := fst (connect defaultManager (livingRoomConnection, Ok tt) 0) in
     let message := "WebSocket was closed before the connection was established" in
     isConnected m1 = true
     ∧ healthCheckTimer m1 = Some 0%nat
     ∧ pendingReconnects m1 = []
     ∧ pendingReconnects (healthCheckTick (handleError m1 message))
       = [ mkTimer 1 ReconnectTimer 5000; mkTimer 2 ReconnectTimer 10000 ]
     ∧ pendingReconnects (onSocketError m1 message)
       = [ mkTimer 1 ReconnectTimer 5000; mkTimer 2 ReconnectTimer 10000 ]).
Proof.
  split.
  - intros m. rewrite pendingReconnects_scheduleReconnect.
    rewrite length_app. simpl. lia.
  - repeat split.
Qed.

End ManagerProperties.

(** ** The solving service *)

Module SolverProperties.
Import Solver.

Lemma task_bind_inv {A B : Type} (t : Task A) (f : A → Task B) w c w' :
  (t ≫= f) w = (c, w') →
  (∃ a w1, t w = (Return a, w1) ∧ f a w1 = (c, w'))
  ∨ (∃ e, t w = (Raise e, w') ∧ c = Raise e)
  ∨ (t w = (Pending, w') ∧ c = Pending).
Proof.
  unfold mbind, Task_bind.
  destruct (t w) as [[a|e|] w1]; intros H.
  - left. exists a, w1. split; [reflexivity | exact H].
  - right. left. injection H as <- <-. exists e. split; reflexivity.
  - right. right. injection H as <- <-. split; reflexivity.
Qed.

Lemma sumZ_app l1 l2 : sumZ (l1 ++ l2) = sumZ l1 + sumZ l2.
Proof. induction l1 as [|x l IH]; simpl; [reflexivity | rewrite IH; lia]. Qed.

Lemma retry_delay_nonneg d k : 0 ≤ d → 0 ≤ k → 0 ≤ d * 2 ^ k.
Proof.
  intros Hd Hk. apply Z.mul_nonneg_nonneg; [exact Hd|].
  apply Z.pow_nonneg. lia.
Qed.

(** The steps of the environment keep it well behaved and never move the
    clock back. *)
Lemma fetchJson_effect req w c w' :
  fetchJson req w = (c, w') →
  requests w' = requests w ++ [req]
  ∧ sleeps w' = sleeps w
  ∧ lateness w' = lateness w
  ∧ ((c = Pending ∧ fetches w = [] ∧ fetches w' = [] ∧ clock w' = clock w)
     ∨ (∃ f, fetches w = f :: fetches w' ∧ c = completionOf f
             ∧ clock w' = clock w + fetch_elapsed f)).
Proof.
  unfold fetchJson, completionOf.
  destruct (fetches w) as [|f rest] eqn:E.
  - intros [= <- <-]. simpl. repeat split. left. repeat split.
  - destruct (fetch_answer f) as [v|e] eqn:Ea; intros [= <- <-]; simpl;
      (repeat split; right; exists f; rewrite Ea; repeat split).
Qed.

Lemma sleep_effect d w :
  sleep d w
  = (Return tt,
     mkWorld (fetches w) (tail (lateness w)) (clock w + d + hd 0 (lateness w))
       (requests w) (sleeps w ++ [d])).
Proof. reflexivity. Qed.

Lemma nonneg_tail (l : list Z) :
  Forall (fun x => 0 ≤ x) l → Forall (fun x => 0 ≤ x) (tail l) ∧ 0 ≤ hd 0 l.
Proof.
  intros H. destruct H as [|x l Hx Hl]; simpl.
  - split; [constructor | lia].
  - split; [exact Hl | exact Hx].
Qed.

Lemma isPending_completionOf f : isPending (completionOf f) = false.
Proof. unfold completionOf. destruct (fetch_answer f); reflexivity. Qed.

(** The effect of the retry loop, whatever the environment answers. *)
Lemma fetchWithRetry_loop_effect remaining :
  ∀ attempt maxRetries d lastError req w c w',
    remaining = Z.to_nat (maxRetries - attempt + 1) →
    1 ≤ attempt →
    fetchWithRetry_loop remaining attempt maxRetries d lastError req w = (c, w') →
    ∃ n : nat,
      (n ≤ remaining)%nat
      ∧ (remaining ≠ 0%nat → (1 ≤ n)%nat)
      ∧ requests w' = requests w ++ repeat req n
      ∧ sleeps w'
        = sleeps w
          ++ map (fun k => d * 2 ^ (attempt - 1 + Z.of_nat k)) (seq 0 (n - 1))
      ∧ (length (fetches w') + n
         = length (fetches w) + (if isPending c then 1 else 0))%nat
      ∧ (isPending c = true → fetches w' = [])
      ∧ (remaining = 0%nat → c = Raise lastError ∧ w' = w)
      ∧ (nonnegWorld w → 0 ≤ d → nonnegWorld w' ∧ clock w ≤ clock w').
Proof.
  induction remaining as [|k IH];
    intros attempt maxRetries d lastError req w c w' Hrem Hatt H.
  - simpl in H. injection H as <- <-. exists 0%nat. simpl.
    rewrite !app_nil_r.
    split; [lia|]. split; [intros Hc; exfalso; apply Hc; reflexivity|].
    split; [reflexivity|]. split; [reflexivity|]. split; [lia|].
    split; [discriminate|]. split; [intros _; split; reflexivity|].
    intros Hn _. split; [exact Hn | lia].
  - simpl in H. unfold catch in H.
    destruct (fetchJson req w) as [c1 w1] eqn:Ef.
    destruct (fetchJson_effect req w c1 w1 Ef) as (Hr & Hs & Hl & Hcase).
    assert (Hstop :
      c = c1 → w' = w1 →
      ∃ n : nat,
        (n ≤ S k)%nat ∧ (S k ≠ 0%nat → (1 ≤ n)%nat)
        ∧ requests w' = requests w ++ repeat req n
        ∧ sleeps w'
          = sleeps w
            ++ map (fun k => d * 2 ^ (attempt - 1 + Z.of_nat k)) (seq 0 (n - 1))
        ∧ (length (fetches w') + n
           = length (fetches w) + (if isPending c then 1 else 0))%nat
        ∧ (isPending c = true → fetches w' = [])
        ∧ (S k = 0%nat → c = Raise lastError ∧ w' = w)
        ∧ (nonnegWorld w → 0 ≤ d → nonnegWorld w' ∧ clock w ≤ clock w')).
    { intros -> ->. exists 1%nat. simpl. rewrite app_nil_r.
      split; [lia|]. split; [lia|]. split; [exact Hr|]. split; [exact Hs|].
      destruct Hcase as [(-> & Hw & Hw1 & Hc) | (f & Hw & -> & Hc)].
      - rewrite Hw, Hw1. simpl.
        split; [lia|]. split; [reflexivity|]. split; [discriminate|].
        intros [Hf Hla] _. split; [|lia].
        split; [rewrite Hw1; constructor | rewrite Hl; exact Hla].
      - rewrite Hw, isPending_completionOf. simpl.
        split; [lia|]. split; [discriminate|]. split; [discriminate|].
        intros [Hf Hla] _. rewrite Hw in Hf.
        inversion Hf as [|? ? Hf0 Hfr]; subst.
        split; [|lia].
        split; [exact Hfr | rewrite Hl; exact Hla]. }
    destruct c1 as [v|[e|]|].
    + injection H as <- <-. apply Hstop; reflexivity.
    + destruct (isNetworkError e && (attempt <? maxRetries)) eqn:Eretry.
      * apply andb_prop in Eretry as [_ Hlt]. apply Z.ltb_lt in Hlt.
        unfold mbind, Task_bind in H. rewrite sleep_effect in H.
        set (w2 := mkWorld (fetches w1) (tail (lateness w1))
                     (clock w1 + d * 2 ^ (attempt - 1) + hd 0 (lateness w1))
                     (requests w1) (sleeps w1 ++ [d * 2 ^ (attempt - 1)])) in H.
        destruct (IH (attempt + 1) maxRetries d (Exn e) req w2 c w'
                    ltac:(lia) ltac:(lia) H)
          as (n & Hn & Hn1 & Hreq & Hsl & Hlen & Hpend & _ & Hnn).
        assert (Hk : k ≠ 0%nat) by lia.
        specialize (Hn1 Hk).
        destruct Hcase as [(Hc & _) | (f & Hw & Hcf & Hc)]; [discriminate|].
        exists (S n). simpl in Hreq, Hsl, Hlen.
        split; [lia|]. split; [lia|].
        split.
        { rewrite Hreq, Hr. rewrite <- app_assoc. reflexivity. }
        split.
        { rewrite Hsl, Hs. rewrite <- app_assoc. f_equal.
          replace (S n - 1)%nat with (S (n - 1)) by lia.
          simpl. f_equal.
          - f_equal. f_equal. lia.
          - rewrite <- seq_shift, map_map. apply map_ext. intros a.
            f_equal. f_equal. lia. }
        split.
        { rewrite Hw. simpl. lia. }
        split; [exact Hpend|].
        split; [discriminate|].
        intros [Hf Hla] Hd.
        rewrite Hw in Hf. inversion Hf as [|? ? Hf0 Hfr]; subst.
        destruct (nonneg_tail (lateness w1)) as [Ht Hh];
          [rewrite Hl; exact Hla|].
        destruct Hnn as [Hnn Hclk]; [split; simpl; assumption | exact Hd |].
        split; [exact Hnn|].
        simpl in Hclk.
        pose proof (retry_delay_nonneg d (attempt - 1) Hd ltac:(lia)).
        lia.
      * injection H as <- <-. apply Hstop; reflexivity.
    + destruct Hcase as [(Hc & _) | (f & _ & Hcf & _)]; [discriminate|].
      unfold completionOf in Hcf. destruct (fetch_answer f); discriminate.
    + injection H as <- <-. apply Hstop; reflexivity.
Qed.

(** The run of the retry loop over answers that fail with network errors and
    one that ends it. *)
Lemma fetchWithRetry_loop_run maxRetries d req f rest pre :
  ∀ attempt remaining lastError w,
    fetches w = pre ++ f :: rest →
    (∀ x, x ∈ pre → networkFailure x = true) →
    remaining = Z.to_nat (maxRetries - attempt + 1) →
    1 ≤ attempt →
    attempt + Z.of_nat (length pre) ≤ maxRetries →
    networkFailure f = false ∨ attempt + Z.of_nat (length pre) = maxRetries →
    ∃ w',
      fetchWithRetry_loop remaining attempt maxRetries d lastError req w
      = (completionOf f, w')
      ∧ fetches w' = rest
      ∧ requests w' = requests w ++ repeat req (S (length pre))
      ∧ sleeps w'
        = sleeps w
          ++ map (fun k => d * 2 ^ (attempt - 1 + Z.of_nat k)) (seq 0 (length pre))
      ∧ lateness w' = drop (length pre) (lateness w)
      ∧ clock w'
        = clock w + sumZ (map fetch_elapsed (pre ++ [f]))
          + sumZ (map (fun k => d * 2 ^ (attempt - 1 + Z.of_nat k))
                    (seq 0 (length pre)))
          + sumZ (take (length pre) (lateness w)).
Proof.
  induction pre as [|x pre IH];
    intros attempt remaining lastError w Hw Hpre Hrem Hatt Hle Hend.
  - simpl in *.
    destruct remaining as [|k]; [lia|].
    simpl. unfold catch, fetchJson. rewrite Hw.
    unfold completionOf, networkFailure in *.
    destruct (fetch_answer f) as [v|e] eqn:Ea.
    + eexists. split; [reflexivity|]. simpl.
      rewrite !app_nil_r, drop_0. repeat split. unfold sumZ; simpl; ring.
    + assert (Hno : isNetworkError e && (attempt <? maxRetries) = false).
      { destruct Hend as [-> | Hend]; [reflexivity|].
        replace (attempt <? maxRetries) with false
          by (symmetry; apply Z.ltb_ge; lia).
        apply andb_false_r. }
      rewrite Hno.
      eexists. split; [reflexivity|]. simpl.
      rewrite !app_nil_r, drop_0. repeat split. unfold sumZ; simpl; ring.
  - simpl in Hw. cbn [length] in Hle, Hend.
    destruct remaining as [|k]; [lia|].
    pose proof (Hpre x ltac:(left)) as Hx.
    unfold networkFailure in Hx.
    destruct (fetch_answer x) as [v|e] eqn:Ea; [discriminate|].
    simpl. unfold catch, fetchJson. rewrite Hw, Ea.
    rewrite Hx. replace (attempt <? maxRetries) with true
      by (symmetry; apply Z.ltb_lt; lia).
    simpl. unfold mbind, Task_bind. rewrite sleep_effect. simpl.
    match goal with
    | |- ∃ w', fetchWithRetry_loop _ _ _ _ _ _ ?w2 = _ ∧ _ =>
        destruct (IH (attempt + 1) k (Exn e) w2) as (w' & Hrun & Hf & Hr & Hs & Hl & Hc)
    end.
    + reflexivity.
    + intros y Hy. apply Hpre. right. exact Hy.
    + lia.
    + lia.
    + lia.
    + destruct Hend as [H | H]; [left; exact H | right; lia].
    + exists w'. split; [exact Hrun|]. split; [exact Hf|].
      simpl in Hr, Hs, Hl, Hc.
      assert (Hmap :
        map (fun k0 => d * 2 ^ (attempt + 1 - 1 + Z.of_nat k0)) (seq 0 (length pre))
        = map (fun k0 => d * 2 ^ (attempt - 1 + Z.of_nat k0)) (seq 1 (length pre))).
      { rewrite <- seq_shift, map_map. apply map_ext. intros a.
        f_equal. f_equal. lia. }
      rewrite Hmap in Hs, Hc.
      split.
      { rewrite Hr, <- app_assoc. reflexivity. }
      split.
      { rewrite Hs, <- app_assoc. simpl. do 4 f_equal. clear. lia. }
      unfold sumZ in *.
      destruct (lateness w) as [|l0 ls]; simpl in Hl, Hc |- *.
      * rewrite drop_nil in Hl. rewrite take_nil in Hc. simpl in Hc.
        split; [exact Hl|]. rewrite Hc. simpl. clear. ring_simplify.
        replace (attempt - 1 + Z.of_nat 0) with (attempt - 1) by (simpl; lia). ring.
      * split; [exact Hl|]. rewrite Hc. simpl. clear.
        replace (attempt - 1 + Z.of_nat 0) with (attempt - 1) by (simpl; lia). ring.
Qed.

Lemma retryDelays_shift d n :
  map (fun k => d * 2 ^ (1 - 1 + Z.of_nat k)) (seq 0 n) = retryDelays d n.
Proof. unfold retryDelays. apply map_ext. intros k. reflexivity. Qed.

Lemma liftResult_inv {A : Type} (r : Result A) w c w' :
  liftResult r w = (c, w') →
  w' = w ∧ ((∃ a, r = Ok a ∧ c = Return a) ∨ (∃ e, r = Throw e ∧ c = Raise (Exn e))).
Proof.
  destruct r as [a|e]; intros [= <- <-]; (split; [reflexivity|]).
  - left. exists a. split; reflexivity.
  - right. exists e. split; reflexivity.
Qed.

(** The effect of the polling loop, whatever the service answers: the
    requests it sends are bounded by the time left. *)
Lemma pollLoop_effect apiKey captchaId pollingInterval timeout startTime fuel :
  ∀ w c w',
    nonnegWorld w →
    0 < pollingInterval →
    (length (fetches w) < fuel)%nat →
    pollLoop fuel apiKey captchaId pollingInterval timeout startTime w = (c, w') →
    ∃ n : nat,
      requests w' = requests w ++ repeat (ResultRequest apiKey captchaId) n
      ∧ (length (fetches w') + n
         = length (fetches w) + (if isPending c then 1 else 0))%nat
      ∧ (isPending c = true → fetches w' = [])
      ∧ (timeout ≤ clock w - startTime →
         n = 0%nat
         ∧ c = Raise (Exn (Error ("2Captcha timeout after " +:+ pretty timeout +:+ "ms"))))
      ∧ (clock w - startTime < timeout →
         Z.of_nat n * pollingInterval
         ≤ 3 * (timeout - (clock w - startTime) + pollingInterval)).
Proof.
  induction fuel as [|k IH]; intros w c w' Hnn Hpi Hfuel H; [lia|].
  cbn [pollLoop] in H.
  unfold mbind at 1, Task_bind at 1, dateNow at 1 in H.
  destruct (clock w - startTime <? timeout) eqn:Etime.
  2:{ apply Z.ltb_ge in Etime. injection H as <- <-.
      exists 0%nat. simpl. rewrite app_nil_r.
      split; [reflexivity|]. split; [lia|]. split; [discriminate|].
      split; [intros _; split; reflexivity | lia]. }
  apply Z.ltb_lt in Etime.
  destruct (fetchWithRetry (ResultRequest apiKey captchaId) 3 2000 w)
    as [c1 w1] eqn:Efetch.
  destruct (fetchWithRetry_loop_effect 3 1 3 2000 ExnUndefined
              (ResultRequest apiKey captchaId) w c1 w1 eq_refl ltac:(lia) Efetch)
    as (n1 & Hn1 & Hn1' & Hreq1 & _ & Hlen1 & Hpend1 & _ & Hnn1).
  specialize (Hn1' ltac:(lia)).
  destruct (Hnn1 Hnn ltac:(lia)) as [Hnnw1 Hclk1].
  assert (Hterm : ∀ c0 : Completion JSValue,
    isPending c0 = isPending c1 →
    ∃ n : nat,
      requests w1 = requests w ++ repeat (ResultRequest apiKey captchaId) n
      ∧ (length (fetches w1) + n
         = length (fetches w) + (if isPending c0 then 1 else 0))%nat
      ∧ (isPending c0 = true → fetches w1 = [])
      ∧ (timeout ≤ clock w - startTime →
         n = 0%nat
         ∧ c0 = Raise (Exn (Error ("2Captcha timeout after " +:+ pretty timeout +:+ "ms"))))
      ∧ (clock w - startTime < timeout →
         Z.of_nat n * pollingInterval
         ≤ 3 * (timeout - (clock w - startTime) + pollingInterval))).
  { intros c0 Hc0. exists n1. rewrite Hc0.
    split; [exact Hreq1|]. split; [exact Hlen1|]. split; [exact Hpend1|].
    split; [lia|]. intros _. nia. }
  apply task_bind_inv in H as [(result & w1' & Hf & H) | [(e & Hf & ->) | (Hf & ->)]].
  2:{ rewrite Efetch in Hf. injection Hf as -> ->. apply Hterm. reflexivity. }
  2:{ rewrite Efetch in Hf. injection Hf as -> ->. apply Hterm. reflexivity. }
  rewrite Efetch in Hf. injection Hf as -> <-.
  apply task_bind_inv in H as [(status & w2 & Hst & H) | [(e & Hst & ->) | (Hst & ->)]].
  2:{ apply liftResult_inv in Hst as [-> _]. apply Hterm. reflexivity. }
  2:{ apply liftResult_inv in Hst as [_ [(a & _ & Hx) | (e & _ & Hx)]];
      discriminate. }
  apply liftResult_inv in Hst as [-> _].
  destruct (strict_eq_num 1 status).
  { apply liftResult_inv in H as [-> [(a & _ & ->) | (e & _ & ->)]];
      apply Hterm; reflexivity. }
  apply task_bind_inv in H as [(request & w2 & Hrq & H) | [(e & Hrq & ->) | (Hrq & ->)]].
  2:{ apply liftResult_inv in Hrq as [-> _]. apply Hterm. reflexivity. }
  2:{ apply liftResult_inv in Hrq as [_ [(a & _ & Hx) | (e & _ & Hx)]];
      discriminate. }
  apply liftResult_inv in Hrq as [-> _].
  destruct (strict_eq_str "CAPCHA_NOT_READY" request).
  2:{ injection H as <- <-. apply Hterm. reflexivity. }
  unfold mbind at 1, Task_bind at 1 in H. rewrite sleep_effect in H.
  set (w3 := mkWorld (fetches w1) (tail (lateness w1))
               (clock w1 + pollingInterval + hd 0 (lateness w1))
               (requests w1) (sleeps w1 ++ [pollingInterval])) in H.
  destruct Hnnw1 as [Hf1 Hl1].
  destruct (nonneg_tail (lateness w1) Hl1) as [Ht Hh].
  simpl in Hlen1.
  destruct (IH w3 c w') as (n2 & Hreq2 & Hlen2 & Hpend2 & Hout2 & Hin2).
  - split; simpl; assumption.
  - exact Hpi.
  - simpl. lia.
  - exact H.
  - simpl in Hreq2, Hlen2, Hout2, Hin2.
    exists (n1 + n2)%nat.
    split.
    { rewrite Hreq2, Hreq1, repeat_app, app_assoc. reflexivity. }
    split; [lia|]. split; [exact Hpend2|]. split; [lia|].
    intros _.
    destruct (Z_lt_le_dec (clock w1 + pollingInterval + hd 0 (lateness w1) - startTime)
                timeout) as [Hlt | Hge].
    + specialize (Hin2 Hlt). nia.
    + destruct (Hout2 Hge) as [-> _]. nia.
Qed.

Lemma fetchWithRetry_first req f rest w :
  fetches w = f :: rest →
  networkFailure f = false →
  fetchWithRetry req 3 2000 w
  = (completionOf f,
     mkWorld rest (lateness w) (clock w + fetch_elapsed f)
       (requests w ++ [req]) (sleeps w)).
Proof.
  intros Hw Hf. unfold fetchWithRetry. simpl.
  unfold catch, fetchJson. rewrite Hw.
  unfold completionOf, networkFailure in *.
  destruct (fetch_answer f) as [v|e]; [reflexivity|].
  rewrite Hf. reflexivity.
Qed.

(** X1. Whatever the service answers, [fetchWithRetry] sends the request at
    most [maxRetries] times and at least once when [maxRetries] is positive,
    and it uses one answer per request; it waits between two requests only,
    [initialDelay] doubled after each failure; with no retry allowed it
    throws [undefined] and sends nothing. *)
Theorem fetchWithRetry_effect :
  ∀ req maxRetries initialDelay w c w',
    fetchWithRetry req maxRetries initialDelay w = (c, w') →
    ∃ n : nat,
      (n ≤ Z.to_nat maxRetries)%nat
      ∧ (1 ≤ maxRetries → (1 ≤ n)%nat)
      ∧ requests w' = requests w ++ repeat req n
      ∧ sleeps w' = sleeps w ++ retryDelays initialDelay (n - 1)
      ∧ (length (fetches w') + n
         = length (fetches w) + (if isPending c then 1 else 0))%nat
      ∧ (maxRetries ≤ 0 → c = Raise ExnUndefined ∧ w' = w)
      ∧ (nonnegWorld w → 0 ≤ initialDelay → nonnegWorld w' ∧ clock w ≤ clock w').
Proof.
  intros req maxRetries d w c w' H. unfold fetchWithRetry in H.
  destruct (fetchWithRetry_loop_effect (Z.to_nat maxRetries) 1 maxRetries d
              ExnUndefined req w c w' ltac:(f_equal; lia) ltac:(lia) H)
    as (n & Hn & Hn1 & Hreq & Hsl & Hlen & _ & H0 & Hnn).
  exists n. rewrite retryDelays_shift in Hsl.
  split; [exact Hn|]. split; [intros; apply Hn1; lia|].
  split; [exact Hreq|]. split; [exact Hsl|]. split; [exact Hlen|].
  split; [intros; apply H0; lia | exact Hnn].
Qed.

(** X2. [fetchWithRetry] goes on after network errors only: when the first
    answers fail with network errors and the next one is a success, another
    error, or the last one allowed, that answer is the outcome; one request
    was sent per answer, with the delays of the back-off between them. *)
Theorem fetchWithRetry_run :
  ∀ req maxRetries initialDelay w pre f rest,
    fetches w = pre ++ f :: rest →
    (∀ x, x ∈ pre → networkFailure x = true) →
    Z.of_nat (length pre) < maxRetries →
    networkFailure f = false ∨ Z.of_nat (length pre) + 1 = maxRetries →
    fetchWithRetry req maxRetries initialDelay w
    = (completionOf f,
       mkWorld rest (drop (length pre) (lateness w))
         (clock w + sumZ (map fetch_elapsed (pre ++ [f]))
          + sumZ (retryDelays initialDelay (length pre))
          + sumZ (take (length pre) (lateness w)))
         (requests w ++ repeat req (S (length pre)))
         (sleeps w ++ retryDelays initialDelay (length pre))).
Proof.
  intros req maxRetries d w pre f rest Hw Hpre Hlt Hend.
  unfold fetchWithRetry.
  destruct (fetchWithRetry_loop_run maxRetries d req f rest pre 1
              (Z.to_nat maxRetries) ExnUndefined w Hw Hpre)
    as (w' & Hrun & Hf & Hr & Hs & Hl & Hc).
  - f_equal. lia.
  - lia.
  - lia.
  - destruct Hend as [H | H]; [left; exact H | right; lia].
  - rewrite Hrun. rewrite retryDelays_shift in Hs, Hc.
    destruct w' as [fs ls ck rq sl]. simpl in *. subst. reflexivity.
Qed.

Lemma sumZ_nonneg l : Forall (fun x => 0 ≤ x) l → 0 ≤ sumZ l.
Proof.
  induction 1 as [|x l Hx _ IH]; unfold sumZ in *; simpl; lia.
Qed.

Lemma sumZ_elapsed_nonneg l :
  Forall (fun f => 0 ≤ fetch_elapsed f) l → 0 ≤ sumZ (map fetch_elapsed l).
Proof.
  induction 1 as [|x l Hx _ IH]; unfold sumZ in *; simpl; lia.
Qed.

Lemma member_string_not_nullish k v s : member k v = JStr s → nullish v = false.
Proof. destruct v; simpl; try discriminate; reflexivity. Qed.

Lemma member_number_not_nullish k v n : member k v = JNum n → nullish v = false.
Proof. destruct v; simpl; try discriminate; reflexivity. Qed.

(** A run of the polling loop: answers that say not ready, then one that
    ends it. *)
Lemma pollLoop_run apiKey captchaId pollingInterval timeout startTime v final rest polls :
  ∀ w fuel,
    fetches w = polls ++ final :: rest →
    Forall notReady polls →
    finalAnswer v final →
    Forall (fun f => 0 ≤ fetch_elapsed f) polls →
    Forall (fun x => 0 ≤ x) (lateness w) →
    0 ≤ pollingInterval →
    (length polls < fuel)%nat →
    clock w - startTime + sumZ (map fetch_elapsed polls)
      + Z.of_nat (length polls) * pollingInterval + sumZ (lateness w) < timeout →
    ∃ w',
      pollLoop fuel apiKey captchaId pollingInterval timeout startTime w
      = (pollVerdict v, w')
      ∧ fetches w' = rest
      ∧ requests w'
        = requests w ++ repeat (ResultRequest apiKey captchaId) (S (length polls))
      ∧ sleeps w' = sleeps w ++ repeat pollingInterval (length polls).
Proof.
  induction polls as [|x polls IH];
    intros w fuel Hw Hpolls Hfinal Hel Hla Hpi Hfuel Htime;
    (destruct fuel as [|k]; [simpl in Hfuel; lia|]);
    pose proof (sumZ_nonneg _ Hla) as Hsum.
  - simpl in Hw. unfold sumZ in Htime at 1. simpl in Htime.
    destruct Hfinal as (Hans & Hnull & Hend).
    cbn [pollLoop]. unfold mbind, Task_bind, dateNow.
    replace (clock w - startTime <? timeout) with true
      by (symmetry; apply Z.ltb_lt; lia).
    rewrite (fetchWithRetry_first _ final rest w Hw)
      by (unfold networkFailure; rewrite Hans; reflexivity).
    unfold completionOf. rewrite Hans.
    rewrite !(get_not_nullish _ _ Hnull). cbn [liftResult].
    unfold mret, Task_ret, pollVerdict.
    destruct (strict_eq_num 1 (member "status" v)) eqn:Es.
    + eexists. split; [reflexivity|]. simpl. rewrite app_nil_r. repeat split.
    + destruct Hend as [Hend | Hend]; [discriminate|]. rewrite Hend.
      eexists. split; [reflexivity|]. simpl. rewrite app_nil_r. repeat split.
  - simpl in Hw. cbn [length] in Htime, Hfuel.
    inversion Hpolls as [|? ? (xv & Hans & Hst & Hreq) Hpolls']; subst.
    inversion Hel as [|? ? Hx Hel']; subst.
    pose proof (member_string_not_nullish _ _ _ Hreq) as Hnull.
    cbn [pollLoop]. unfold mbind, Task_bind, dateNow.
    assert (Hmap : sumZ (map fetch_elapsed (x :: polls))
                   = fetch_elapsed x + sumZ (map fetch_elapsed polls))
      by reflexivity.
    pose proof (sumZ_elapsed_nonneg _ Hel') as Hsum'.
    assert (0 ≤ Z.of_nat (length polls) * pollingInterval) by nia.
    replace (clock w - startTime <? timeout) with true
      by (symmetry; apply Z.ltb_lt; nia).
    rewrite (fetchWithRetry_first _ x (polls ++ final :: rest) w Hw)
      by (unfold networkFailure; rewrite Hans; reflexivity).
    unfold completionOf. rewrite Hans.
    rewrite !(get_not_nullish _ _ Hnull). cbn [liftResult].
    unfold mret, Task_ret. rewrite Hst, Hreq.
    rewrite strict_eq_str_refl. rewrite sleep_effect. cbn [lateness clock fetches requests sleeps].
    destruct (nonneg_tail _ Hla) as [Htl Hhd].
    match goal with
    | |- ∃ w', pollLoop _ _ _ _ _ _ ?w3 = _ ∧ _ =>
        destruct (IH w3 k) as (w' & Hrun & Hf & Hr & Hs)
    end.
    + reflexivity.
    + exact Hpolls'.
    + exact Hfinal.
    + exact Hel'.
    + exact Htl.
    + exact Hpi.
    + lia.
    + cbn [lateness clock].
      assert (hd 0 (lateness w) + sumZ (tail (lateness w)) = sumZ (lateness w)).
      { destruct (lateness w); reflexivity. }
      rewrite Hmap in Htime. nia.
    + exists w'. split; [exact Hrun|]. split; [exact Hf|].
      cbn [requests sleeps] in Hr, Hs.
      split.
      * rewrite Hr, <- app_assoc. reflexivity.
      * rewrite Hs, <- app_assoc. reflexivity.
Qed.

(** The effect of [solve2Captcha], whatever the service answers. *)
Lemma solve2Captcha_effect apiKey siteKey options w c w' :
  let pageUrl := js_or (so_pageUrl options) (JStr "https://home.cielowigle.com") in
  let pollingInterval := Manager.num_or (so_pollingInterval options) 5000 in
  let timeout := Manager.num_or (so_timeout options) 180000 in
  nonnegWorld w →
  0 < pollingInterval →
  solve2Captcha apiKey siteKey options w = (c, w') →
  ∃ (n0 n : nat) (captchaId : JSValue),
    requests w'
    = requests w ++ repeat (SubmitRequest apiKey siteKey pageUrl) n0
      ++ repeat (ResultRequest apiKey captchaId) n
    ∧ (n0 ≤ 3)%nat
    ∧ ((0 < n0 + n)%nat → truthy apiKey = true ∧ truthy siteKey = true)
    ∧ Z.of_nat n * pollingInterval ≤ 3 * (Z.max 0 timeout + pollingInterval)
    ∧ (length (fetches w') + (n0 + n)
       = length (fetches w) + (if isPending c then 1 else 0))%nat
    ∧ (isPending c = true → fetches w' = []).
Proof.
  intros pageUrl pollingInterval timeout Hnn Hpi H.
  unfold solve2Captcha in H.
  fold pageUrl pollingInterval timeout in H.
  assert (Hnone : c = c → w' = w → isPending c = false →
    ∃ (n0 n : nat) (captchaId : JSValue),
      requests w'
      = requests w ++ repeat (SubmitRequest apiKey siteKey pageUrl) n0
        ++ repeat (ResultRequest apiKey captchaId) n
      ∧ (n0 ≤ 3)%nat
      ∧ ((0 < n0 + n)%nat → truthy apiKey = true ∧ truthy siteKey = true)
      ∧ Z.of_nat n * pollingInterval ≤ 3 * (Z.max 0 timeout + pollingInterval)
      ∧ (length (fetches w') + (n0 + n)
         = length (fetches w) + (if isPending c then 1 else 0))%nat
      ∧ (isPending c = true → fetches w' = [])).
  { intros _ -> Hc. exists 0%nat, 0%nat, JUndefined. simpl. rewrite app_nil_r, Hc.
    split; [reflexivity|]. split; [lia|]. split; [lia|]. split; [lia|].
    split; [lia | discriminate]. }
  destruct (truthy apiKey) eqn:Ek; simpl in H.
  2:{ injection H as <- <-. apply Hnone; reflexivity. }
  destruct (truthy siteKey) eqn:Es; simpl in H.
  2:{ injection H as <- <-. apply Hnone; reflexivity. }
  clear Hnone.
  destruct (fetchWithRetry (SubmitRequest apiKey siteKey pageUrl) 3 2000 w)
    as [c1 w1] eqn:Efetch.
  destruct (fetchWithRetry_loop_effect 3 1 3 2000 ExnUndefined
              (SubmitRequest apiKey siteKey pageUrl) w c1 w1 eq_refl ltac:(lia) Efetch)
    as (n0 & Hn0 & _ & Hreq0 & _ & Hlen0 & Hpend0 & _ & Hnn0).
  destruct (Hnn0 Hnn ltac:(lia)) as [Hnnw1 _].
  assert (Hterm : ∀ c0 : Completion JSValue,
    isPending c0 = isPending c1 →
    ∃ (n0 n : nat) (captchaId : JSValue),
      requests w1
      = requests w ++ repeat (SubmitRequest apiKey siteKey pageUrl) n0
        ++ repeat (ResultRequest apiKey captchaId) n
      ∧ (n0 ≤ 3)%nat
      ∧ ((0 < n0 + n)%nat → true = true ∧ true = true)
      ∧ Z.of_nat n * pollingInterval ≤ 3 * (Z.max 0 timeout + pollingInterval)
      ∧ (length (fetches w1) + (n0 + n)
         = length (fetches w) + (if isPending c0 then 1 else 0))%nat
      ∧ (isPending c0 = true → fetches w1 = [])).
  { intros c0 Hc0. exists n0, 0%nat, JUndefined. simpl. rewrite app_nil_r, Hc0.
    split; [exact Hreq0|]. split; [exact Hn0|]. split; [intros _; split; reflexivity|].
    split; [lia|]. split; [lia | exact Hpend0]. }
  apply task_bind_inv in H as [(resp & w1' & Hf & H) | [(e & Hf & ->) | (Hf & ->)]].
  2:{ rewrite Efetch in Hf. injection Hf as -> ->. apply Hterm. reflexivity. }
  2:{ rewrite Efetch in Hf. injection Hf as -> ->. apply Hterm. reflexivity. }
  rewrite Efetch in Hf. injection Hf as -> <-.
  apply task_bind_inv in H as [(status & w2 & Hst & H) | [(e & Hst & ->) | (Hst & ->)]].
  2:{ apply liftResult_inv in Hst as [-> _]. apply Hterm. reflexivity. }
  2:{ apply liftResult_inv in Hst as [_ [(a & _ & Hx) | (e & _ & Hx)]]; discriminate. }
  apply liftResult_inv in Hst as [-> _].
  destruct (strict_eq_num 1 status); simpl in H.
  2:{ apply task_bind_inv in H
        as [(request & w2 & Hrq & H) | [(e & Hrq & ->) | (Hrq & ->)]].
      - apply liftResult_inv in Hrq as [-> _]. injection H as <- <-.
        apply Hterm. reflexivity.
      - apply liftResult_inv in Hrq as [-> _]. apply Hterm. reflexivity.
      - apply liftResult_inv in Hrq as [_ [(a & _ & Hx) | (e & _ & Hx)]]; discriminate. }
  apply task_bind_inv in H as [(captchaId & w2 & Hid & H) | [(e & Hid & ->) | (Hid & ->)]].
  2:{ apply liftResult_inv in Hid as [-> _]. apply Hterm. reflexivity. }
  2:{ apply liftResult_inv in Hid as [_ [(a & _ & Hx) | (e & _ & Hx)]]; discriminate. }
  apply liftResult_inv in Hid as [-> _].
  unfold mbind at 1, Task_bind at 1 in H. rewrite sleep_effect in H.
  unfold mbind at 1, Task_bind at 1, dateNow at 1 in H.
  unfold mbind at 1, Task_bind at 1, remainingAnswers at 1 in H.
  cbn [clock fetches] in H.
  set (w3 := mkWorld (fetches w1) (tail (lateness w1))
               (clock w1 + 10000 + hd 0 (lateness w1))
               (requests w1) (sleeps w1 ++ [10000])) in H.
  destruct Hnnw1 as [Hf1 Hl1].
  destruct (nonneg_tail (lateness w1) Hl1) as [Ht Hh].
  destruct (pollLoop_effect apiKey captchaId pollingInterval timeout
              (clock w1 + 10000 + hd 0 (lateness w1))
              (S (length (fetches w1))) w3 c w')
    as (n & Hreq & Hlen & Hpend & Hout & Hin).
  - split; simpl; assumption.
  - exact Hpi.
  - simpl. lia.
  - exact H.
  - simpl in Hreq, Hlen, Hout, Hin. simpl in Hlen0.
    exists n0, n, captchaId.
    split.
    { rewrite Hreq, Hreq0, <- app_assoc. reflexivity. }
    split; [exact Hn0|]. split; [intros _; split; reflexivity|].
    split.
    { destruct (Z_lt_le_dec 0 timeout) as [Hlt | Hge].
      - specialize (Hin ltac:(lia)). lia.
      - destruct (Hout ltac:(lia)) as [-> _]. lia. }
    split; [lia | exact Hpend].
Qed.

(** X3. Whatever the service answers (no answer taking negative time, no
    timer firing early, a positive polling interval), [solve2Captcha] sends
    the submission at most three times and then polls for one captcha id
    only; the number [n] of polling requests satisfies
    [n * pollingInterval ≤ 3 * (timeout + pollingInterval)]; every request
    uses one answer of the service, and with enough answers at hand the call
    ends: it returns or throws. *)
Theorem solve2Captcha_bounded :
  ∀ apiKey siteKey options w c w',
    let pageUrl := js_or (so_pageUrl options) (JStr "https://home.cielowigle.com") in
    let pollingInterval := Manager.num_or (so_pollingInterval options) 5000 in
    let timeout := Manager.num_or (so_timeout options) 180000 in
    nonnegWorld w →
    0 < pollingInterval →
    solve2Captcha apiKey siteKey options w = (c, w') →
    ∃ (n0 n : nat) (captchaId : JSValue),
      requests w'
      = requests w ++ repeat (SubmitRequest apiKey siteKey pageUrl) n0
        ++ repeat (ResultRequest apiKey captchaId) n
      ∧ (n0 ≤ 3)%nat
      ∧ Z.of_nat n * pollingInterval ≤ 3 * (Z.max 0 timeout + pollingInterval)
      ∧ (length (fetches w') + (n0 + n)
         = length (fetches w) + (if isPending c then 1 else 0))%nat
      ∧ (3 * (Z.max 0 timeout + pollingInterval)
         < (Z.of_nat (length (fetches w)) - 2) * pollingInterval →
         isPending c = false).
Proof.
  intros apiKey siteKey options w c w' pageUrl pollingInterval timeout Hnn Hpi H.
  destruct (solve2Captcha_effect apiKey siteKey options w c w' Hnn Hpi H)
    as (n0 & n & captchaId & Hreq & Hn0 & _ & Hbound & Hlen & Hpend).
  fold pageUrl pollingInterval timeout in Hreq, Hbound.
  exists n0, n, captchaId.
  split; [exact Hreq|]. split; [exact Hn0|]. split; [exact Hbound|].
  split; [exact Hlen|].
  intros Hmany. destruct (isPending c) eqn:Ec; [|reflexivity].
  rewrite (Hpend eq_refl) in Hlen. simpl in Hlen. nia.
Qed.

(** X4. When the submission is accepted, the service says not ready for some
    polls and then gives a final answer, all within the timeout,
    [solve2Captcha] returns the token of a solution, or throws the error of
    the service, right after that answer: it has sent one submission and one
    poll per answer, has waited ten seconds and then one polling interval
    per answer that said not ready, and leaves the later answers unused. *)
Theorem solve2Captcha_run :
  ∀ apiKey siteKey options w s polls final v rest captchaId,
    let pageUrl := js_or (so_pageUrl options) (JStr "https://home.cielowigle.com") in
    let pollingInterval := Manager.num_or (so_pollingInterval options) 5000 in
    let timeout := Manager.num_or (so_timeout options) 180000 in
    truthy apiKey = true →
    truthy siteKey = true →
    fetches w = s :: polls ++ final :: rest →
    accepted captchaId s →
    Forall notReady polls →
    finalAnswer v final →
    nonnegWorld w →
    0 ≤ pollingInterval →
    sumZ (map fetch_elapsed polls) + Z.of_nat (length polls) * pollingInterval
      + sumZ (lateness w) < timeout →
    ∃ w',
      solve2Captcha apiKey siteKey options w = (pollVerdict v, w')
      ∧ fetches w' = rest
      ∧ requests w'
        = requests w ++ SubmitRequest apiKey siteKey pageUrl
            :: repeat (ResultRequest apiKey captchaId) (S (length polls))
      ∧ sleeps w' = sleeps w ++ 10000 :: repeat pollingInterval (length polls).
Proof.
  intros apiKey siteKey options w s polls final v rest captchaId
    pageUrl pollingInterval timeout Hk Hs Hw (sv & Hans & Hst & Hid)
    Hpolls Hfinal [Hel Hla] Hpi Htime.
  unfold solve2Captcha. fold pageUrl pollingInterval timeout.
  rewrite Hk, Hs. cbn [negb].
  pose proof (member_number_not_nullish _ _ _ Hst) as Hnull.
  unfold mbind, Task_bind.
  rewrite (fetchWithRetry_first _ s (polls ++ final :: rest) w Hw)
    by (unfold networkFailure; rewrite Hans; reflexivity).
  unfold completionOf. rewrite Hans.
  rewrite !(get_not_nullish _ _ Hnull). cbn [liftResult].
  unfold mret, Task_ret. rewrite Hst, Hid. cbn [strict_eq_num negb Z.eqb Pos.eqb].
  rewrite sleep_effect. unfold dateNow, remainingAnswers.
  cbn [lateness clock fetches requests sleeps].
  rewrite Hw in Hel. apply Forall_cons in Hel as [Hs0 Hel'].
  apply Forall_app in Hel' as [Hpel _].
  destruct (nonneg_tail _ Hla) as [Htl Hhd].
  match goal with
  | |- ∃ w', pollLoop ?fuel _ _ _ _ ?start ?w3 = _ ∧ _ =>
      destruct (pollLoop_run apiKey captchaId pollingInterval timeout start
                  v final rest polls w3 fuel) as (w' & Hrun & Hf & Hr & Hsl)
  end.
  - reflexivity.
  - exact Hpolls.
  - exact Hfinal.
  - exact Hpel.
  - exact Htl.
  - exact Hpi.
  - rewrite length_app. simpl. lia.
  - cbn [lateness clock].
    assert (hd 0 (lateness w) + sumZ (tail (lateness w)) = sumZ (lateness w)).
    { destruct (lateness w); reflexivity. }
    lia.
  - exists w'. split; [exact Hrun|]. split; [exact Hf|].
    cbn [requests sleeps] in Hr, Hsl.
    split.
    + rewrite Hr, <- app_assoc. reflexivity.
    + rewrite Hsl, <- app_assoc. reflexivity.
Qed.

(** X5. [solve2Captcha] rejects before any request when the API key or the
    site key is missing, and when the service refuses the submission (a
    status other than the number 1) it throws the service's message after
    that one request, without waiting and without polling. *)
Theorem solve2Captcha_rejected :
  ∀ apiKey siteKey options w,
    (truthy apiKey = false →
     solve2Captcha apiKey siteKey options w
     = (Raise (Exn (Error
          "2Captcha API key is required. Sign up at https://2captcha.com/")), w))
    ∧ (truthy apiKey = true → truthy siteKey = false →
       solve2Captcha apiKey siteKey options w
       = (Raise (Exn (Error
            "reCAPTCHA siteKey is required. See instructions in solveCaptcha.js")), w))
    ∧ (∀ f rest v,
         truthy apiKey = true → truthy siteKey = true →
         fetches w = f :: rest →
         fetch_answer f = Ok v →
         nullish v = false →
         strict_eq_num 1 (member "status" v) = false →
         solve2Captcha apiKey siteKey options w
         = (Raise (Exn (Error ("2Captcha submission failed: "
                               +:+ ToString (member "request" v)))),
            mkWorld rest (lateness w) (clock w + fetch_elapsed f)
              (requests w
               ++ [SubmitRequest apiKey siteKey
                     (js_or (so_pageUrl options) (JStr "https://home.cielowigle.com"))])
              (sleeps w))).
Proof.
  intros apiKey siteKey options w. unfold solve2Captcha.
  split; [intros ->; reflexivity|].
  split; [intros -> ->; reflexivity|].
  intros f rest v -> -> Hw Hans Hnull Hst. cbn [negb].
  unfold mbind, Task_bind.
  rewrite (fetchWithRetry_first _ f rest w Hw)
    by (unfold networkFailure; rewrite Hans; reflexivity).
  unfold completionOf. rewrite Hans.
  rewrite !(get_not_nullish _ _ Hnull). cbn [liftResult].
  unfold mret, Task_ret. rewrite Hst. reflexivity.
Qed.

Lemma siteKey_truthy a b :
  truthy (js_or a (js_or b (JStr DEFAULT_SITEKEY))) = true.
Proof.
  unfold js_or. destruct (truthy a) eqn:Ea; [exact Ea|].
  destruct (truthy b) eqn:Eb; [exact Eb | reflexivity].
Qed.

(** X6. [solveCieloCaptcha] takes the API key from the options, else from
    the environment, and without one it rejects before any request; the site
    key is the one of the options, else of the environment, else the
    built-in one, so it is never missing; every request it sends is a
    submission with the API key, the site key and the page, or a poll with
    the API key and the captcha id. *)
Theorem solveCieloCaptcha_keys :
  ∀ options env w c w',
    let apiKey := js_or (so_apiKey options) (envValue (TWOCAPTCHA_API_KEY env)) in
    let siteKey :=
      js_or (so_siteKey options)
        (js_or (envValue (CIELO_RECAPTCHA_SITEKEY env)) (JStr DEFAULT_SITEKEY)) in
    let pageUrl := js_or (so_pageUrl options) (JStr "https://home.cielowigle.com") in
    truthy siteKey = true
    ∧ (truthy apiKey = false →
       solveCieloCaptcha options env w = (Raise (Exn (Error missingApiKeyMessage)), w))
    ∧ (nonnegWorld w →
       0 < Manager.num_or (so_pollingInterval options) 5000 →
       solveCieloCaptcha options env w = (c, w') →
       ∃ (n0 n : nat) (captchaId : JSValue),
         requests w'
         = requests w ++ repeat (SubmitRequest apiKey siteKey pageUrl) n0
           ++ repeat (ResultRequest apiKey captchaId) n
         ∧ ((0 < n0 + n)%nat → truthy apiKey = true)).
Proof.
  intros options env w c w' apiKey siteKey pageUrl.
  split; [apply siteKey_truthy|].
  unfold solveCieloCaptcha. fold apiKey siteKey.
  split; [intros ->; reflexivity|].
  intros Hnn Hpi H.
  destruct (truthy apiKey) eqn:Ek; simpl in H.
  - destruct (solve2Captcha_effect apiKey siteKey options w c w' Hnn Hpi H)
      as (n0 & n & captchaId & Hreq & _ & _ & _).
    exists n0, n, captchaId. split; [exact Hreq | intros _; reflexivity].
  - injection H as <- <-. exists 0%nat, 0%nat, JUndefined. simpl.
    rewrite app_nil_r. split; [reflexivity | lia].
Qed.

(** X7. [getFromEnv] returns the token of the environment exactly when it is
    set and has a length of at least 100, counted as the program counts it,
    in UTF-16 code units (the characters, for ASCII text); an unset or empty
    variable is reported as not set, a shorter token as invalid. *)
Theorem getFromEnv_accepts :
  ∀ env,
    (∀ t, getFromEnv env = Ok t
          ↔ CIELO_CAPTCHA_TOKEN env = Some t ∧ (100 ≤ jsLength t)%nat)
    ∧ (CIELO_CAPTCHA_TOKEN env = None ∨ CIELO_CAPTCHA_TOKEN env = Some EmptyString →
       getFromEnv env
       = Throw (Error "CIELO_CAPTCHA_TOKEN environment variable not set"))
    ∧ (∀ t, CIELO_CAPTCHA_TOKEN env = Some t →
            t ≠ EmptyString →
            (jsLength t < 100)%nat →
            getFromEnv env
            = Throw (Error
                "Invalid captcha token - it should be very long (2000+ characters)")).
Proof.
  intros env. unfold getFromEnv, useManualToken.
  destruct (CIELO_CAPTCHA_TOKEN env) as [t0|]; simpl.
  - destruct (String.eqb_spec t0 EmptyString) as [-> | Hne]; simpl.
    + split; [|split].
      * intros t. split; [discriminate|]. intros [[= <-] Hl]. simpl in Hl. lia.
      * reflexivity.
      * intros t [= <-] Hn. exfalso. apply Hn. reflexivity.
    + destruct (jsLength t0 <? 100)%nat eqn:El.
      * apply Nat.ltb_lt in El.
        split; [|split].
        -- intros t. split; [discriminate|]. intros [[= <-] Hl]. lia.
        -- intros [H | H]; [discriminate | injection H as ->; congruence].
        -- reflexivity.
      * apply Nat.ltb_ge in El.
        split; [|split].
        -- intros t. split.
           ++ intros [= <-]. split; [reflexivity | exact El].
           ++ intros [[= <-] _]. reflexivity.
        -- intros [H | H]; [discriminate | injection H as ->; congruence].
        -- intros t [= <-] _ Hl. lia.
  - split; [|split].
    + intros t. split; [discriminate | intros [H _]; discriminate].
    + reflexivity.
    + intros t H. discriminate.
Qed.

Lemma fetchWithRetry_effect_witness :
  ∃ n : nat,
    (n ≤ Z.to_nat 3)%nat
    ∧ (1 ≤ 3 → (1 ≤ n)%nat)
    ∧ requests
        (snd (fetchWithRetry (ResultRequest (JStr "key") (JStr "2122988149")) 3 2000
                (worldWith [networkError; networkError; solvedAnswer])))
      = [] ++ repeat (ResultRequest (JStr "key") (JStr "2122988149")) n.
Proof.
  destruct (fetchWithRetry_effect (ResultRequest (JStr "key") (JStr "2122988149")) 3 2000
              (worldWith [networkError; networkError; solvedAnswer])
              (fst (fetchWithRetry (ResultRequest (JStr "key") (JStr "2122988149")) 3 2000
                      (worldWith [networkError; networkError; solvedAnswer])))
              (snd (fetchWithRetry (ResultRequest (JStr "key") (JStr "2122988149")) 3 2000
                      (worldWith [networkError; networkError; solvedAnswer])))
              eq_refl)
    as (n & H1 & H2 & H3 & _).
  exists n. split; [exact H1|]. split; [exact H2 | exact H3].
Defined.

Lemma fetchWithRetry_run_witness :
  fetchWithRetry (ResultRequest (JStr "key") (JStr "2122988149")) 3 2000
    (worldWith [networkError; networkError; solvedAnswer; notReadyAnswer])
  = (completionOf solvedAnswer,
     mkWorld [notReadyAnswer] [] 6400
       (repeat (ResultRequest (JStr "key") (JStr "2122988149")) 3)
       [2000; 4000]).
Proof.
  apply (fetchWithRetry_run (ResultRequest (JStr "key") (JStr "2122988149")) 3 2000
           (worldWith [networkError; networkError; solvedAnswer; notReadyAnswer])
           [networkError; networkError] solvedAnswer [notReadyAnswer]).
  - reflexivity.
  - intros x Hx.
    apply elem_of_cons in Hx as [-> | Hx]; [reflexivity|].
    apply elem_of_cons in Hx as [-> | Hx]; [reflexivity|].
    apply not_elem_of_nil in Hx. destruct Hx.
  - simpl. lia.
  - left. reflexivity.
Defined.

Lemma solve2Captcha_bounded_witness :
  ∃ (n0 n : nat) (captchaId : JSValue),
    requests
      (snd (solve2Captcha (JStr "key") (JStr DEFAULT_SITEKEY) noOptions
              (worldWith [acceptedAnswer; notReadyAnswer; solvedAnswer])))
    = [] ++ repeat (SubmitRequest (JStr "key") (JStr DEFAULT_SITEKEY)
                      (JStr "https://home.cielowigle.com")) n0
      ++ repeat (ResultRequest (JStr "key") captchaId) n
    ∧ (n0 ≤ 3)%nat
    ∧ Z.of_nat n * 5000 ≤ 3 * (Z.max 0 180000 + 5000).
Proof.
  destruct (solve2Captcha_bounded (JStr "key") (JStr DEFAULT_SITEKEY) noOptions
              (worldWith [acceptedAnswer; notReadyAnswer; solvedAnswer])
              (fst (solve2Captcha (JStr "key") (JStr DEFAULT_SITEKEY) noOptions
                      (worldWith [acceptedAnswer; notReadyAnswer; solvedAnswer])))
              (snd (solve2Captcha (JStr "key") (JStr DEFAULT_SITEKEY) noOptions
                      (worldWith [acceptedAnswer; notReadyAnswer; solvedAnswer]))))
    as (n0 & n & captchaId & H1 & H2 & H3 & _).
  - split; simpl; repeat constructor; vm_compute; discriminate.
  - reflexivity.
  - reflexivity.
  - exists n0, n, captchaId. split; [exact H1|]. split; [exact H2 | exact H3].
Defined.

Lemma solve2Captcha_run_witness :
  ∃ w',
    solve2Captcha (JStr "key") (JStr DEFAULT_SITEKEY) noOptions
      (worldWith [acceptedAnswer; notReadyAnswer; notReadyAnswer; notReadyAnswer;
                  solvedAnswer])
    = (Return (JStr "03AGdBq25SxXT-pmSeBXjzScW-EiocHwwpwqtk1QXlJnGnU"), w')
    ∧ fetches w' = []
    ∧ requests w'
      = [] ++ SubmitRequest (JStr "key") (JStr DEFAULT_SITEKEY)
                (JStr "https://home.cielowigle.com")
          :: repeat (ResultRequest (JStr "key") (JStr "2122988149")) 4
    ∧ sleeps w' = [] ++ 10000 :: repeat 5000 3.
Proof.
  apply (solve2Captcha_run (JStr "key") (JStr DEFAULT_SITEKEY) noOptions
           (worldWith [acceptedAnswer; notReadyAnswer; notReadyAnswer; notReadyAnswer;
                       solvedAnswer])
           acceptedAnswer [notReadyAnswer; notReadyAnswer; notReadyAnswer]
           solvedAnswer
           (JObj [ ("status", JNum 1);
                   ("request", JStr "03AGdBq25SxXT-pmSeBXjzScW-EiocHwwpwqtk1QXlJnGnU") ])
           [] (JStr "2122988149")).
  - reflexivity.
  - reflexivity.
  - reflexivity.
  - eexists. repeat split.
  - repeat constructor; (eexists; repeat split).
  - repeat split. left. reflexivity.
  - split; simpl; repeat constructor; vm_compute; discriminate.
  - vm_compute. discriminate.
  - reflexivity.
Defined.

Lemma solve2Captcha_rejected_witness :
  solve2Captcha (JStr "key") (JStr DEFAULT_SITEKEY) noOptions
    (worldWith [refusedAnswer; solvedAnswer])
  = (Raise (Exn (Error "2Captcha submission failed: ERROR_ZERO_BALANCE")),
     mkWorld [solvedAnswer] [] 200
       [SubmitRequest (JStr "key") (JStr DEFAULT_SITEKEY)
          (JStr "https://home.cielowigle.com")]
       []).
Proof.
  apply (proj2 (proj2 (solve2Captcha_rejected (JStr "key") (JStr DEFAULT_SITEKEY)
                         noOptions (worldWith [refusedAnswer; solvedAnswer])))
           refusedAnswer [solvedAnswer]
           (JObj [ ("status", JNum 0); ("request", JStr "ERROR_ZERO_BALANCE") ]));
    reflexivity.
Defined.

Lemma solveCieloCaptcha_keys_witness :
  solveCieloCaptcha noOptions (mkProcessEnv None None None)
    (worldWith [acceptedAnswer; solvedAnswer])
  = (Raise (Exn (Error missingApiKeyMessage)),
     worldWith [acceptedAnswer; solvedAnswer]).
Proof.
  apply (proj1 (proj2 (solveCieloCaptcha_keys noOptions (mkProcessEnv None None None)
                         (worldWith [acceptedAnswer; solvedAnswer])
                         Pending (worldWith [])))).
  reflexivity.
Defined.

Lemma getFromEnv_accepts_witness :
  getFromEnv (mkProcessEnv None None (Some "03AGdBq25SxXT"))
  = Throw (Error "Invalid captcha token - it should be very long (2000+ characters)").
Proof.
  apply (proj2 (proj2 (getFromEnv_accepts
                         (mkProcessEnv None None (Some "03AGdBq25SxXT"))))
           "03AGdBq25SxXT").
  - reflexivity.
  - discriminate.
  - apply Nat.ltb_lt. vm_compute. reflexivity.
Defined.

End SolverProperties.

(** ** Frames, commands and subscription *)

Module ConnectionProperties.

Lemma match_or_not data (l : list CieloHVAC) :
  (∀ h, h ∈ l →
        strict_eq_str (getMacAddress h) (member "mac_address" data) = false)
  ∨ (∃ h, h ∈ l
          ∧ strict_eq_str (getMacAddress h) (member "mac_address" data) = true).
Proof.
  induction l as [|x xs IH].
  - left. intros h Hin. apply not_elem_of_nil in Hin. destruct Hin.
  - destruct (strict_eq_str (getMacAddress x) (member "mac_address" data)) eqn:Ex.
    + right. exists x. split; [left | exact Ex].
    + destruct IH as [Hn | [y [Hy Ey]]].
      * left. intros h Hin. apply elem_of_cons in Hin as [-> | Hin];
          [exact Ex | apply Hn; exact Hin].
      * right. exists y. split; [right; exact Hy | exact Ey].
Qed.

Lemma stateUpdateEffect_identity data h :
  getMacAddress (stateUpdateEffect data h) = getMacAddress h
  ∧ getDeviceTypeVersion (stateUpdateEffect data h) = getDeviceTypeVersion h
  ∧ deviceName (stateUpdateEffect data h) = deviceName h
  ∧ getApplianceID (stateUpdateEffect data h) = getApplianceID h
  ∧ getFwVersion (stateUpdateEffect data h) = getFwVersion h.
Proof.
  unfold stateUpdateEffect.
  destruct (strict_eq_str (getMacAddress h) (member "mac_address" data));
    [|repeat split].
  destruct (truthy (member "lat_env_var" data)
            && negb (is_undefined (member "temperature" (member "lat_env_var" data))));
    repeat split.
Qed.

Lemma stateUpdateEffect_twice data h :
  stateUpdateEffect data (stateUpdateEffect data h) = stateUpdateEffect data h.
Proof.
  destruct (stateUpdateEffect_identity data h) as [Hm _].
  unfold stateUpdateEffect at 1. rewrite Hm.
  unfold stateUpdateEffect.
  destruct (strict_eq_str (getMacAddress h) (member "mac_address" data));
    [|reflexivity].
  destruct (truthy (member "lat_env_var" data)
            && negb (is_undefined (member "temperature" (member "lat_env_var" data))));
    reflexivity.
Qed.

(** X8. A state update calls the command callback once, with the action of
    the frame, whether or not a device has the frame's MAC address, and the
    temperature callback only when the frame carries a truthy room
    temperature; any other frame calls nothing. The device stores every room
    temperature that is not [undefined]: a temperature of 0 is stored and
    not notified. *)
Theorem onMessage_notifications :
  ∀ api data api',
    nullish data = false →
    onMessage api data = Ok api' →
    notifications api'
    = notifications api
      ++ (if isStateUpdate data then stateUpdateNotifications api data else [])
    ∧ ∀ i h,
        isStateUpdate data = true →
        hvacs api !! i = Some h →
        member "mac_address" data = JStr (getMacAddress h) →
        ∃ h', hvacs api' !! i = Some h'
              ∧ getRoomTemperature h'
                = if truthy (member "lat_env_var" data)
                     && negb (is_undefined
                                (member "temperature" (member "lat_env_var" data)))
                  then member "temperature" (member "lat_env_var" data)
                  else getRoomTemperature h.
Proof.
  intros api data api' Hd H.
  destruct (isStateUpdate data) eqn:Hs.
  - destruct (onMessage_stateUpdate_rest api data api' Hd Hs H) as [Hn _].
    split; [exact Hn|].
    intros i h _ Hi Hm.
    destruct (onMessage_stateUpdate api data Hd Hs) as (api'' & E & Hh & _).
    assert (api'' = api') by congruence. subst api''.
    exists (stateUpdateEffect data h).
    split; [rewrite Hh, list_lookup_fmap, Hi; reflexivity|].
    unfold stateUpdateEffect. rewrite Hm, strict_eq_str_refl.
    destruct (truthy (member "lat_env_var" data)
              && negb (is_undefined (member "temperature" (member "lat_env_var" data))));
      reflexivity.
  - rewrite (onMessage_ignored api data Hd Hs) in H. injection H as <-.
    rewrite app_nil_r. split; [reflexivity | discriminate].
Qed.

Lemma onMessage_notifications_witness :
  ∃ api',
    onMessage livingRoomConnection freezingFrame = Ok api'
    ∧ notifications api' = [CommandCallback (member "action" freezingFrame)]
    ∧ ∃ h', hvacs api' !! 0%nat = Some h' ∧ getRoomTemperature h' = JNum 0.
Proof.
  eexists. split; [reflexivity|].
  destruct (onMessage_notifications livingRoomConnection freezingFrame _
              eq_refl eq_refl) as [Hn Hr].
  split; [exact Hn|].
  exact (Hr 0%nat livingRoom eq_refl eq_refl eq_refl).
Defined.

(** X9. A frame never adds, removes or reorders devices and never touches
    what identifies them (MAC address, device type version, name, appliance
    id, firmware version); it leaves the session, the socket and the command
    counter of the connection as they were. *)
Theorem onMessage_preserves_identity :
  ∀ api data api',
    onMessage api data = Ok api' →
    (getMacAddress <$> hvacs api' = getMacAddress <$> hvacs api
     ∧ getDeviceTypeVersion <$> hvacs api' = getDeviceTypeVersion <$> hvacs api
     ∧ deviceName <$> hvacs api' = deviceName <$> hvacs api
     ∧ getApplianceID <$> hvacs api' = getApplianceID <$> hvacs api
     ∧ getFwVersion <$> hvacs api' = getFwVersion <$> hvacs api)
    ∧ (sessionID api' = sessionID api ∧ userID api' = userID api
       ∧ accessToken api' = accessToken api ∧ refreshToken api' = refreshToken api
       ∧ expiresIn api' = expiresIn api)
    ∧ ws api' = ws api
    ∧ commandCount api' = commandCount api.
Proof.
  intros api data api' H.
  destruct (nullish data) eqn:Hd.
  { destruct (onMessage_nullish api data Hd) as [e He]. congruence. }
  destruct (isStateUpdate data) eqn:Hs.
  - destruct (onMessage_stateUpdate_rest api data api' Hd Hs H)
      as (_ & H1 & H2 & H3 & H4 & H5 & H6 & H7 & _).
    destruct (onMessage_stateUpdate api data Hd Hs) as (api'' & E & Hh & _).
    assert (api'' = api') by congruence. subst api''.
    split.
    { rewrite Hh, <- !list_fmap_compose.
      repeat split; apply list_fmap_ext; intros i h _; simpl;
        apply (stateUpdateEffect_identity data h). }
    repeat split; assumption.
  - rewrite (onMessage_ignored api data Hd Hs) in H. injection H as <-.
    repeat split.
Qed.

Lemma onMessage_preserves_identity_witness :
  ∃ api',
    onMessage livingRoomConnection fullFrame = Ok api'
    ∧ getMacAddress <$> hvacs api' = ["C45BBEC42467"]
    ∧ ws api' = Some openSocket
    ∧ commandCount api' = commandCount livingRoomConnection.
Proof.
  eexists. split; [reflexivity|].
  destruct (onMessage_preserves_identity livingRoomConnection fullFrame _ eq_refl)
    as ((Hm & _) & _ & Hw & Hc).
  split; [exact Hm|]. split; [exact Hw | exact Hc].
Defined.

Lemma matches_after data (l : list CieloHVAC) h :
  h ∈ l →
  strict_eq_str (getMacAddress h) (member "mac_address" data) = true →
  stateUpdateEffect data h ∈ (stateUpdateEffect data <$> l)
  ∧ strict_eq_str (getMacAddress (stateUpdateEffect data h))
      (member "mac_address" data) = true.
Proof.
  intros Hin E. split.
  - apply list_elem_of_fmap. exists h. split; [reflexivity | exact Hin].
  - destruct (stateUpdateEffect_identity data h) as [-> _]. exact E.
Qed.

(** X10. Delivering a frame a second time changes nothing more: the devices
    and the recorded power values are those left by the first delivery. *)
Theorem onMessage_idempotent :
  ∀ api data api1 api2,
    onMessage api data = Ok api1 →
    onMessage api1 data = Ok api2 →
    hvacs api2 = hvacs api1
    ∧ previousPowerStates api2 = previousPowerStates api1.
Proof.
  intros api data api1 api2 H1 H2.
  destruct (nullish data) eqn:Hd.
  { destruct (onMessage_nullish api data Hd) as [e He]. congruence. }
  destruct (isStateUpdate data) eqn:Hs.
  - destruct (onMessage_stateUpdate api data Hd Hs) as (a1 & E1 & Hh1 & Hn1 & Hset1).
    assert (a1 = api1) by congruence. subst a1.
    destruct (onMessage_stateUpdate api1 data Hd Hs) as (a2 & E2 & Hh2 & Hn2 & Hset2).
    assert (a2 = api2) by congruence. subst a2.
    split.
    + rewrite Hh2, Hh1, <- list_fmap_compose.
      apply list_fmap_ext. intros i h _. apply stateUpdateEffect_twice.
    + destruct (match_or_not data (hvacs api)) as [Hnone | (h & Hin & Eh)].
      * apply Hn2. intros h Hin. rewrite Hh1 in Hin.
        apply list_elem_of_fmap in Hin as (h0 & -> & Hin0).
        destruct (stateUpdateEffect_identity data h0) as [-> _].
        apply Hnone. exact Hin0.
      * destruct (matches_after data (hvacs api) h Hin Eh) as [Hin' Eh'].
        rewrite <- Hh1 in Hin'.
        rewrite (Hset2 _ Hin' Eh'), (Hset1 h Hin Eh).
        destruct (stateUpdateEffect_identity data h) as [-> _].
        apply dict_set_twice.
  - rewrite (onMessage_ignored api data Hd Hs) in H1. injection H1 as <-.
    rewrite (onMessage_ignored api data Hd Hs) in H2. injection H2 as <-.
    split; reflexivity.
Qed.

Lemma onMessage_idempotent_witness :
  let api1 := step livingRoomConnection (Message fullFrame) in
  let api2 := step api1 (Message fullFrame) in
  hvacs api2 = hvacs api1
  ∧ previousPowerStates api2 = previousPowerStates api1.
Proof.
  cbv zeta.
  apply (onMessage_idempotent livingRoomConnection fullFrame
           (step livingRoomConnection (Message fullFrame))
           (step (step livingRoomConnection (Message fullFrame)) (Message fullFrame)));
    vm_compute; reflexivity.
Defined.

Lemma stateUpdateEffect_commute d1 d2 h :
  member "mac_address" d1 ≠ member "mac_address" d2 →
  stateUpdateEffect d2 (stateUpdateEffect d1 h)
  = stateUpdateEffect d1 (stateUpdateEffect d2 h).
Proof.
  intros Hne.
  destruct (strict_eq_str (getMacAddress h) (member "mac_address" d1)) eqn:E1;
    destruct (strict_eq_str (getMacAddress h) (member "mac_address" d2)) eqn:E2.
  - apply strict_eq_str_true in E1. apply strict_eq_str_true in E2. congruence.
  - rewrite (stateUpdateEffect_other d2 h E2).
    apply stateUpdateEffect_other.
    destruct (stateUpdateEffect_identity d1 h) as [-> _]. exact E2.
  - rewrite (stateUpdateEffect_other d1 h E1).
    symmetry. apply stateUpdateEffect_other.
    destruct (stateUpdateEffect_identity d2 h) as [-> _]. exact E1.
  - rewrite (stateUpdateEffect_other d1 h E1), (stateUpdateEffect_other d2 h E2).
    symmetry. apply (stateUpdateEffect_other d1 h E1).
Qed.

Lemma dict_set_commute d k1 v1 k2 v2 :
  k1 ≠ k2 →
  dict_set (dict_set d k1 v1) k2 v2 = dict_set (dict_set d k2 v2) k1 v1.
Proof.
  intros Hne. unfold dict_set.
  destruct (String.eqb k1 "__proto__"), (String.eqb k2 "__proto__");
    try reflexivity.
  apply insert_insert_ne. congruence.
Qed.

(** A frame neither creates nor removes a match for another frame. *)
Lemma no_match_after d data (l : list CieloHVAC) :
  (∀ h, h ∈ l →
        strict_eq_str (getMacAddress h) (member "mac_address" data) = false) →
  ∀ h, h ∈ (stateUpdateEffect d <$> l) →
       strict_eq_str (getMacAddress h) (member "mac_address" data) = false.
Proof.
  intros Hn h Hin. apply list_elem_of_fmap in Hin as (h0 & -> & Hin0).
  destruct (stateUpdateEffect_identity d h0) as [-> _]. apply Hn. exact Hin0.
Qed.

Lemma match_after d data (l : list CieloHVAC) h :
  h ∈ l →
  strict_eq_str (getMacAddress h) (member "mac_address" data) = true →
  stateUpdateEffect d h ∈ (stateUpdateEffect d <$> l)
  ∧ getMacAddress (stateUpdateEffect d h) = getMacAddress h
  ∧ strict_eq_str (getMacAddress (stateUpdateEffect d h))
      (member "mac_address" data) = true.
Proof.
  intros Hin E. split; [|split].
  - apply list_elem_of_fmap. exists h. split; [reflexivity | exact Hin].
  - apply stateUpdateEffect_identity.
  - destruct (stateUpdateEffect_identity d h) as [-> _]. exact E.
Qed.

(** The power values recorded by two state updates, one after the other. *)
Lemma previousPowerStates_after_two api d1 d2 api1 api12 :
  nullish d1 = false → isStateUpdate d1 = true →
  nullish d2 = false → isStateUpdate d2 = true →
  onMessage api d1 = Ok api1 →
  onMessage api1 d2 = Ok api12 →
  previousPowerStates api12
  = (let after1 :=
       match List.find (λ h, strict_eq_str (getMacAddress h) (member "mac_address" d1))
               (hvacs api) with
       | Some h => dict_set (previousPowerStates api) (getMacAddress h)
                     (member "power" (member "action" d1))
       | None => previousPowerStates api
       end in
     match List.find (λ h, strict_eq_str (getMacAddress h) (member "mac_address" d2))
             (hvacs api) with
     | Some h => dict_set after1 (getMacAddress h)
                   (member "power" (member "action" d2))
     | None => after1
     end).
Proof.
  intros Hd1 Hs1 Hd2 Hs2 H1 H2.
  destruct (onMessage_stateUpdate api d1 Hd1 Hs1) as (a1 & E1 & Hh1 & Hn1 & Hset1).
  assert (a1 = api1) by congruence. subst a1.
  destruct (onMessage_stateUpdate api1 d2 Hd2 Hs2) as (a2 & E2 & Hh2 & Hn2 & Hset2).
  assert (a2 = api12) by congruence. subst a2.
  cbv zeta.
  assert (P1 : previousPowerStates api1
               = match List.find (λ h, strict_eq_str (getMacAddress h)
                                         (member "mac_address" d1)) (hvacs api) with
                 | Some h => dict_set (previousPowerStates api) (getMacAddress h)
                               (member "power" (member "action" d1))
                 | None => previousPowerStates api
                 end).
  { destruct (List.find _ (hvacs api)) as [h|] eqn:F.
    - apply find_some in F as [Hin Eh].
      apply Hset1; [apply list_elem_of_In; exact Hin | exact Eh].
    - apply Hn1. intros h Hin.
      apply (find_none _ _ F h). apply list_elem_of_In. exact Hin. }
  rewrite <- P1.
  destruct (List.find _ (hvacs api)) as [h|] eqn:F in |- *.
  - apply find_some in F as [Hin Eh]. apply list_elem_of_In in Hin.
    destruct (match_after d1 d2 (hvacs api) h Hin Eh) as (Hin' & Hm & Eh').
    rewrite <- Hh1 in Hin'. rewrite (Hset2 _ Hin' Eh'), Hm. reflexivity.
  - apply Hn2. rewrite Hh1. apply no_match_after. intros h Hin.
    apply (find_none _ _ F h). apply list_elem_of_In. exact Hin.
Qed.

(** X11. State updates for different MAC addresses can arrive in either
    order: the devices and the recorded power values come out the same. *)
Theorem onMessage_commute :
  ∀ api d1 d2 api1 api12 api2 api21,
    member "mac_address" d1 ≠ member "mac_address" d2 →
    onMessage api d1 = Ok api1 → onMessage api1 d2 = Ok api12 →
    onMessage api d2 = Ok api2 → onMessage api2 d1 = Ok api21 →
    hvacs api12 = hvacs api21
    ∧ previousPowerStates api12 = previousPowerStates api21.
Proof.
  intros api d1 d2 api1 api12 api2 api21 Hne H1 H12 H2 H21.
  destruct (nullish d1) eqn:Hd1.
  { destruct (onMessage_nullish api d1 Hd1) as [e He]. congruence. }
  destruct (nullish d2) eqn:Hd2.
  { destruct (onMessage_nullish api d2 Hd2) as [e He]. congruence. }
  destruct (isStateUpdate d1) eqn:Hs1; destruct (isStateUpdate d2) eqn:Hs2.
  - split.
    + destruct (onMessage_stateUpdate api d1 Hd1 Hs1) as (a & E & Hh1 & _).
      assert (a = api1) by congruence. subst a.
      destruct (onMessage_stateUpdate api1 d2 Hd2 Hs2) as (a & E' & Hh12 & _).
      assert (a = api12) by congruence. subst a.
      destruct (onMessage_stateUpdate api d2 Hd2 Hs2) as (a & E'' & Hh2 & _).
      assert (a = api2) by congruence. subst a.
      destruct (onMessage_stateUpdate api2 d1 Hd1 Hs1) as (a & E''' & Hh21 & _).
      assert (a = api21) by congruence. subst a.
      rewrite Hh12, Hh1, Hh21, Hh2, <- !list_fmap_compose.
      apply list_fmap_ext. intros i h _. simpl.
      apply stateUpdateEffect_commute. exact Hne.
    + rewrite (previousPowerStates_after_two api d1 d2 api1 api12 Hd1 Hs1 Hd2 Hs2 H1 H12).
      rewrite (previousPowerStates_after_two api d2 d1 api2 api21 Hd2 Hs2 Hd1 Hs1 H2 H21).
      cbv zeta.
      destruct (List.find (λ h, strict_eq_str (getMacAddress h) (member "mac_address" d1))
                  (hvacs api)) as [h1|] eqn:F1;
        destruct (List.find (λ h, strict_eq_str (getMacAddress h) (member "mac_address" d2))
                    (hvacs api)) as [h2|] eqn:F2; try reflexivity.
      apply find_some in F1 as [_ Eh1]. apply find_some in F2 as [_ Eh2].
      apply strict_eq_str_true in Eh1. apply strict_eq_str_true in Eh2.
      apply dict_set_commute. congruence.
  - rewrite (onMessage_ignored api d2 Hd2 Hs2) in H2. injection H2 as <-.
    rewrite (onMessage_ignored api1 d2 Hd2 Hs2) in H12. injection H12 as <-.
    split; congruence.
  - rewrite (onMessage_ignored api d1 Hd1 Hs1) in H1. injection H1 as <-.
    rewrite (onMessage_ignored api2 d1 Hd1 Hs1) in H21. injection H21 as <-.
    split; congruence.
  - rewrite (onMessage_ignored api1 d2 Hd2 Hs2) in H12. injection H12 as <-.
    rewrite (onMessage_ignored api2 d1 Hd1 Hs1) in H21. injection H21 as <-.
    rewrite (onMessage_ignored api d1 Hd1 Hs1) in H1.
    rewrite (onMessage_ignored api d2 Hd2 Hs2) in H2.
    split; congruence.
Qed.

Lemma onMessage_commute_witness :
  let api12 := step (step homeConnection (Message fullFrame)) (Message bedroomFrame) in
  let api21 := step (step homeConnection (Message bedroomFrame)) (Message fullFrame) in
  hvacs api12 = hvacs api21
  ∧ previousPowerStates api12 = previousPowerStates api21.
Proof.
  cbv zeta.
  apply (onMessage_commute homeConnection fullFrame bedroomFrame
           (step homeConnection (Message fullFrame))
           (step (step homeConnection (Message fullFrame)) (Message bedroomFrame))
           (step homeConnection (Message bedroomFrame))
           (step (step homeConnection (Message bedroomFrame)) (Message fullFrame)));
    [discriminate | vm_compute; reflexivity ..].
Defined.

(** *** Commands *)

Lemma buildCommandPayload_commandCount api hvac a v now :
  commandCount (fst (buildCommandPayload api hvac a v now)) = commandCount api + 1.
Proof.
  unfold buildCommandPayload; simpl.
  destruct (String.eqb a "power"); reflexivity.
Qed.

Lemma buildCommandPayload_previousPowerStates api hvac a v now :
  previousPowerStates (fst (buildCommandPayload api hvac a v now))
  = if String.eqb a "power"
    then dict_set (previousPowerStates api) (getMacAddress hvac) v
    else previousPowerStates api.
Proof.
  unfold buildCommandPayload; simpl.
  destruct (String.eqb a "power"); reflexivity.
Qed.

Lemma buildCommandPayload_userID api hvac a v now :
  userID (fst (buildCommandPayload api hvac a v now)) = userID api
  ∧ p_user_id (snd (buildCommandPayload api hvac a v now)) = userID api.
Proof.
  unfold buildCommandPayload; simpl.
  destruct (String.eqb a "power"); split; reflexivity.
Qed.

(** What [sendCommand] leaves of the connection, whatever the outcome. *)
Lemma sendCommand_connection api hvac a v now :
  commandCount (fst (sendCommand api hvac a v now)) = commandCount api + 1
  ∧ previousPowerStates (fst (sendCommand api hvac a v now))
    = previousPowerStates (fst (buildCommandPayload api hvac a v now))
  ∧ userID (fst (sendCommand api hvac a v now)) = userID api.
Proof.
  unfold sendCommand.
  pose proof (buildCommandPayload_commandCount api hvac a v now) as Ec.
  pose proof (buildCommandPayload_userID api hvac a v now) as [Eu _].
  destruct (buildCommandPayload api hvac a v now) as [api1 payload]; simpl in *.
  destruct (ws api1) as [w|]; [destruct (ws_open w)|]; simpl; repeat split; assumption.
Qed.

(** X12. A command resolves exactly when the connection has an open socket,
    and then exactly one frame, the payload, is appended to what the socket
    has sent; otherwise the socket is left as it was. The command counter
    goes up by one in both cases, and a power command records its value in
    both cases. *)
Theorem sendCommand_outcome :
  ∀ api hvac a v now,
    let api' := fst (sendCommand api hvac a v now) in
    let payload := snd (buildCommandPayload api hvac a v now) in
    (snd (sendCommand api hvac a v now) = Ok tt
     ↔ ∃ w, ws api = Some w ∧ ws_open w = true)
    ∧ (∀ w, ws api = Some w → ws_open w = true →
            ws api' = Some {| ws_readyState := OPEN; ws_sent := ws_sent w ++ [payload] |})
    ∧ (snd (sendCommand api hvac a v now) ≠ Ok tt → ws api' = ws api)
    ∧ commandCount api' = commandCount api + 1
    ∧ previousPowerStates api'
      = (if String.eqb a "power"
         then dict_set (previousPowerStates api) (getMacAddress hvac) v
         else previousPowerStates api).
Proof.
  intros api hvac a v now. cbv zeta.
  destruct (sendCommand_connection api hvac a v now) as (Hc & Hp & _).
  rewrite Hp, buildCommandPayload_previousPowerStates.
  split; [|split; [|split; [|split; [exact Hc | reflexivity]]]].
  - unfold sendCommand.
    pose proof (buildCommandPayload_ws api hvac a v now) as E.
    destruct (buildCommandPayload api hvac a v now) as [api1 payload]; simpl in *.
    rewrite E.
    destruct (ws api) as [w|]; [destruct (ws_open w) eqn:Ho|]; simpl.
    + split; [intros _; exists w; split; [reflexivity | exact Ho] | reflexivity].
    + split; [discriminate | intros (w' & [= <-] & Ho'); congruence].
    + split; [discriminate | intros (w' & Hw & _); discriminate].
  - intros w Hw Ho. rewrite (sendCommand_open api hvac a v now w Hw Ho). reflexivity.
  - unfold sendCommand.
    pose proof (buildCommandPayload_ws api hvac a v now) as E.
    destruct (buildCommandPayload api hvac a v now) as [api1 payload]; simpl in *.
    rewrite E.
    destruct (ws api) as [w|] eqn:Hw; [destruct (ws_open w) eqn:Ho|]; simpl;
      rewrite ?Hw, ?Ho; simpl; intros Hne;
      [exfalso; apply Hne; reflexivity | congruence | congruence].
Qed.

Lemma sendCommand_outcome_witness :
  snd (sendCommand bedroomConnection bedroom "power" (JStr "on") 1000) = Ok tt
  ∧ snd (sendCommand offlineConnection bedroom "power" (JStr "on") 1000) ≠ Ok tt
  ∧ ws (fst (sendCommand offlineConnection bedroom "power" (JStr "on") 1000)) = None.
Proof.
  pose proof (sendCommand_outcome bedroomConnection bedroom "power" (JStr "on") 1000)
    as P.
  pose proof (sendCommand_outcome offlineConnection bedroom "power" (JStr "on") 1000)
    as Q.
  cbv zeta in P, Q.
  destruct P as (Piff & _). destruct Q as (Qiff & _ & Qws & _).
  split; [apply Piff; exists openSocket; split; reflexivity|].
  assert (N : snd (sendCommand offlineConnection bedroom "power" (JStr "on") 1000)
              ≠ Ok tt).
  { intros H. apply Qiff in H as (w & Hw & _). discriminate Hw. }
  split; [exact N | exact (Qws N)].
Defined.

(** X13. Sending a command again, whether or not the first attempt went out,
    builds the same payload with a new timestamp; for a power command with a
    truthy value the old power of the second payload is the value itself.
    A rejected power command has thus already changed the old power that
    the next command reports. *)
Theorem sendCommand_again :
  ∀ api hvac a v now now',
    let first := snd (buildCommandPayload api hvac a v now) in
    let second :=
      snd (buildCommandPayload (fst (sendCommand api hvac a v now)) hvac a v now') in
    (a ≠ "power" → second = withTs first (unixSeconds now'))
    ∧ (a = "power" → truthy v = true → getMacAddress hvac ≠ "__proto__" →
       second = withOldPower (withTs first (unixSeconds now')) v).
Proof.
  intros api hvac a v now now'. cbv zeta.
  destruct (sendCommand_connection api hvac a v now) as (_ & Hp & Hu).
  rewrite buildCommandPayload_previousPowerStates in Hp.
  split.
  - intros Hne. rewrite (eqb_neq_false _ _ Hne) in Hp.
    unfold buildCommandPayload at 1. unfold withTs. simpl.
    rewrite Hp, (eqb_neq_false _ _ Hne). simpl. rewrite Hu. reflexivity.
  - intros -> Hv Hk. simpl in Hp.
    unfold buildCommandPayload at 1. unfold withTs, withOldPower. simpl.
    rewrite Hp, Hu.
    rewrite (dict_get_recorded _ _ v (dict_set_lookup _ _ v Hk)).
    unfold js_or. rewrite Hv. reflexivity.
Qed.

Lemma sendCommand_again_witness :
  p_oldPower
    (snd (buildCommandPayload
            (fst (sendCommand offlineConnection bedroom "power" (JStr "on") 1000))
            bedroom "power" (JStr "on") 61000))
  = JStr "on"
  ∧ snd (buildCommandPayload
           (fst (sendCommand bedroomConnection bedroom "mode" (JStr "heat") 1000))
           bedroom "mode" (JStr "heat") 61000)
    = withTs (snd (buildCommandPayload bedroomConnection bedroom "mode" (JStr "heat") 1000))
        (unixSeconds 61000).
Proof.
  pose proof (sendCommand_again offlineConnection bedroom "power" (JStr "on") 1000 61000)
    as P.
  pose proof (sendCommand_again bedroomConnection bedroom "mode" (JStr "heat") 1000 61000)
    as M.
  cbv zeta in P, M. destruct P as [_ P]. destruct M as [M _].
  split.
  - rewrite P; [reflexivity | reflexivity | reflexivity | discriminate].
  - apply M. discriminate.
Defined.

(** *** Subscription *)

Lemma subscribeDevice_wellFormed d :
  wellFormedEntry d = true → subscribeDevice d = Ok (seededDevice d).
Proof.
  unfold wellFormedEntry. intros H.
  apply andb_prop in H as [H He]. apply andb_prop in H as [Ht Ha].
  apply negb_true_iff in He. apply negb_true_iff in Ha.
  unfold subscribeDevice.
  rewrite !(get_not_nullish _ _ Ha), !(get_not_nullish _ _ He).
  unfold new_CieloHVAC, seededDevice, keptDeviceTypeVersion, hasTypePrefix.
  destruct (d_deviceTypeVersion d) as [ | |b|z|s|l|l|s]; simpl in *;
    try reflexivity; try discriminate.
  - destruct b; simpl in *; [discriminate | reflexivity].
  - destruct (z =? 0); simpl in *; [reflexivity | discriminate].
  - destruct (negb (String.eqb s EmptyString)) eqn:Es; simpl.
    + destruct (startsWith "BI" s || startsWith "BP" s); reflexivity.
    + apply negb_false_iff, String.eqb_eq in Es. subst s. reflexivity.
Qed.

Lemma subscribeDevice_malformed d :
  wellFormedEntry d = false → ∃ e, subscribeDevice d = Throw e.
Proof.
  unfold wellFormedEntry, subscribeDevice, new_CieloHVAC. intros H.
  destruct (truthy (d_deviceTypeVersion d)) eqn:Ht; simpl in H.
  - destruct (d_deviceTypeVersion d) as [ | |b|z|s|l|l|s]; simpl in *;
      try discriminate; try (eexists; reflexivity).
    destruct (d_latestAction d); simpl in *; try (eexists; reflexivity);
      destruct (d_latEnv d); simpl in *; try discriminate;
      destruct (startsWith "BI" s || startsWith "BP" s); simpl;
      eexists; reflexivity.
  - destruct (d_latestAction d); simpl in *; try (eexists; reflexivity);
      destruct (d_latEnv d); simpl in *; try discriminate;
      eexists; reflexivity.
Qed.

Lemma subscribeLoop_Ok macs dir acc l :
  subscribeLoop (List.length macs =? 0)%nat macs dir acc = (l, Ok tt) →
  l = acc ++ (seededDevice <$> List.filter (λ d, selected macs (d_macAddress d)) dir)
  ∧ selectedWellFormed macs dir.
Proof.
  unfold selectedWellFormed.
  revert acc l. induction dir as [|d rest IH]; intros acc l; simpl.
  - intros [= <-]. rewrite app_nil_r. split; [reflexivity | constructor].
  - fold (selected macs (d_macAddress d)).
    destruct (selected macs (d_macAddress d)) eqn:Es.
    + destruct (wellFormedEntry d) eqn:Ew.
      * rewrite (subscribeDevice_wellFormed d Ew).
        intros H. destruct (IH _ _ H) as [-> Hall].
        split; [rewrite <- app_assoc; reflexivity|].
        constructor; [intros _; exact Ew | exact Hall].
      * destruct (subscribeDevice_malformed d Ew) as [e ->]. discriminate.
    + intros H. destruct (IH _ _ H) as [-> Hall].
      split; [reflexivity | constructor; [congruence | exact Hall]].
Qed.

Lemma subscribeLoop_wellFormed macs dir acc :
  selectedWellFormed macs dir →
  subscribeLoop (List.length macs =? 0)%nat macs dir acc
  = (acc ++ (seededDevice <$> List.filter (λ d, selected macs (d_macAddress d)) dir),
     Ok tt).
Proof.
  unfold selectedWellFormed. intros Hall. revert acc.
  induction Hall as [|d rest Hd _ IH]; intros acc; simpl.
  - rewrite app_nil_r. reflexivity.
  - fold (selected macs (d_macAddress d)).
    destruct (selected macs (d_macAddress d)) eqn:Es.
    + rewrite (subscribeDevice_wellFormed d (Hd eq_refl)).
      rewrite IH. simpl. rewrite <- app_assoc. reflexivity.
    + apply IH.
Qed.

(** The loop throws exactly when a selected entry is not well formed. *)
Lemma subscribeLoop_outcome macs dir acc :
  (selectedWellFormed macs dir
   ∧ subscribeLoop (List.length macs =? 0)%nat macs dir acc
     = (acc ++ (seededDevice
                  <$> List.filter (λ d, selected macs (d_macAddress d)) dir),
        Ok tt))
  ∨ (¬ selectedWellFormed macs dir
     ∧ ∃ l e, subscribeLoop (List.length macs =? 0)%nat macs dir acc = (l, Throw e)).
Proof.
  destruct (subscribeLoop (List.length macs =? 0)%nat macs dir acc) as [l [[]|e]] eqn:E.
  - left. destruct (subscribeLoop_Ok macs dir acc l E) as [-> Hall].
    split; [exact Hall | reflexivity].
  - right. split; [|exists l, e; reflexivity].
    intros Hall. rewrite (subscribeLoop_wellFormed macs dir acc Hall) in E.
    discriminate.
Qed.

(** A subscription that resolves had a device list, and holds the devices
    of its selected entries. *)
Lemma subscribeToHVACs_resolved api macs deviceInfo socketOpens api' :
  subscribeToHVACs api macs deviceInfo socketOpens = (api', Resolved) →
  ∃ error dir,
    deviceInfo = InfoObject error (DataList dir)
    ∧ hvacs api'
      = (seededDevice <$> List.filter (λ d, selected macs (d_macAddress d)) dir).
Proof.
  unfold subscribeToHVACs.
  destruct deviceInfo as [m | error data]; [discriminate|].
  destruct (truthy error); [discriminate|].
  destruct data as [m | | dir]; [discriminate | discriminate |].
  cbn [hvacs set_commandCount set_hvacs].
  destruct (subscribeLoop _ macs dir []) as [l [[]|e]] eqn:E; [|discriminate].
  destruct socketOpens; [|discriminate].
  intros [= <-]. apply subscribeLoop_Ok in E as [-> _].
  exists error, dir. split; reflexivity.
Qed.

(** X14. A subscription that succeeds replaces the devices of the connection
    by one device per selected directory entry, in the order of the
    directory: every entry when no MAC address is named, else the entries
    whose MAC address is one of the named ones, character for character.
    Each device carries the state of its entry, with [undefined] where the
    entry has no value. The command counter restarts at 0 and the socket is
    a new one; the session and the recorded power values stay. *)
Theorem subscribeToHVACs_effect :
  ∀ api macs deviceInfo socketOpens api',
    subscribeToHVACs api macs deviceInfo socketOpens = (api', Resolved) →
    ∃ error dir,
      deviceInfo = InfoObject error (DataList dir)
      ∧ hvacs api'
        = (seededDevice <$> List.filter (λ d, selected macs (d_macAddress d)) dir)
      ∧ commandCount api' = 0
      ∧ ws api' = Some {| ws_readyState := OPEN; ws_sent := [] |}
      ∧ previousPowerStates api' = previousPowerStates api
      ∧ (sessionID api' = sessionID api ∧ userID api' = userID api
         ∧ accessToken api' = accessToken api ∧ refreshToken api' = refreshToken api
         ∧ expiresIn api' = expiresIn api).
Proof.
  intros api macs deviceInfo socketOpens api'. unfold subscribeToHVACs.
  destruct deviceInfo as [m | error data]; [discriminate|].
  destruct (truthy error); [discriminate|].
  destruct data as [m | | dir]; [discriminate | discriminate |].
  cbn [hvacs set_commandCount set_hvacs].
  destruct (subscribeLoop _ macs dir []) as [l [[]|e]] eqn:E; [|discriminate].
  destruct socketOpens; [|discriminate].
  intros [= <-]. apply subscribeLoop_Ok in E as [-> _].
  exists error, dir. repeat split.
Qed.

Lemma subscribeToHVACs_effect_witness :
  ∃ api',
    subscribeToHVACs livingRoomConnection ["C45BBEC42467"]
      (InfoObject JUndefined (DataList [newEntry; compactEntry])) true
    = (api', Resolved)
    ∧ hvacs api' = [seededDevice compactEntry]
    ∧ commandCount api' = 0.
Proof.
  eexists. split; [reflexivity|].
  destruct (subscribeToHVACs_effect livingRoomConnection ["C45BBEC42467"]
              (InfoObject JUndefined (DataList [newEntry; compactEntry])) true _ eq_refl)
    as (error & dir & Hi & Hh & Hc & _).
  injection Hi as <- <-.
  split; [exact Hh | exact Hc].
Defined.

(** X15. A subscription resolves exactly when the directory answer is an
    object without a truthy [error] and with a device list, every selected
    entry of the list has a device type version that is a string or falsy, a
    latest action and an environment, and the new socket opens; with all of
    this but a socket that does not open, the promise never settles. An
    answer with a truthy [error] rejects with that value, and a missing
    answer (the request failed) with the [TypeError] of reading [error];
    both leave the connection without devices. A selected entry that is not
    well formed rejects with the error it throws and leaves the previous
    socket in place; entries that are not selected are not looked at. *)
Theorem subscribeToHVACs_succeeds_iff :
  ∀ api macs deviceInfo socketOpens,
    ((∃ api', subscribeToHVACs api macs deviceInfo socketOpens = (api', Resolved))
     ↔ socketOpens = true
       ∧ ∃ error dir,
           deviceInfo = InfoObject error (DataList dir)
           ∧ truthy error = false
           ∧ selectedWellFormed macs dir)
    ∧ ((∃ api', subscribeToHVACs api macs deviceInfo socketOpens = (api', NeverSettles))
       ↔ socketOpens = false
         ∧ ∃ error dir,
             deviceInfo = InfoObject error (DataList dir)
             ∧ truthy error = false
             ∧ selectedWellFormed macs dir)
    ∧ (∀ error data,
         deviceInfo = InfoObject error data → truthy error = true →
         subscribeToHVACs api macs deviceInfo socketOpens
         = (set_commandCount (set_hvacs api []) 0, Rejected (RejectedValue error)))
    ∧ (∀ m,
         deviceInfo = InfoMissing m →
         subscribeToHVACs api macs deviceInfo socketOpens
         = (set_commandCount (set_hvacs api []) 0,
            Rejected (ThrownError (cannotRead m "error"))))
    ∧ (∀ error dir,
         deviceInfo = InfoObject error (DataList dir) → truthy error = false →
         ¬ selectedWellFormed macs dir →
         ∃ api' e,
           subscribeToHVACs api macs deviceInfo socketOpens
           = (api', Rejected (ThrownError e))
           ∧ ws api' = ws api
           ∧ commandCount api' = 0).
Proof.
  intros api macs deviceInfo socketOpens.
  assert (Hsettled :
    ∀ error dir, deviceInfo = InfoObject error (DataList dir) → truthy error = false →
      selectedWellFormed macs dir →
      ∃ api', subscribeToHVACs api macs deviceInfo socketOpens
              = (api', if socketOpens then Resolved else NeverSettles)).
  { intros error dir -> He Hall. unfold subscribeToHVACs. rewrite He.
    cbn [hvacs set_commandCount set_hvacs].
    rewrite (subscribeLoop_wellFormed macs dir [] Hall). eexists. reflexivity. }
  assert (Hshape :
    ∀ api' s, subscribeToHVACs api macs deviceInfo socketOpens = (api', s) →
      s = Resolved ∨ s = NeverSettles →
      s = (if socketOpens then Resolved else NeverSettles)
      ∧ ∃ error dir, deviceInfo = InfoObject error (DataList dir)
                     ∧ truthy error = false ∧ selectedWellFormed macs dir).
  { intros api' s. unfold subscribeToHVACs.
    destruct deviceInfo as [m | error data].
    { intros [= <- <-] [H | H]; discriminate. }
    destruct (truthy error) eqn:He.
    { intros [= <- <-] [H | H]; discriminate. }
    destruct data as [m | | dir];
      try (intros [= <- <-] [H | H]; discriminate).
    cbn [hvacs set_commandCount set_hvacs].
    destruct (subscribeLoop _ macs dir []) as [l [[]|e]] eqn:E.
    - apply subscribeLoop_Ok in E as [_ Hall].
      intros [= <- <-] _. split; [reflexivity|].
      exists error, dir. split; [reflexivity | split; [exact He | exact Hall]].
    - intros [= <- <-] [H | H]; discriminate. }
  split; [|split; [|split; [|split]]].
  - split.
    + intros [api' H]. destruct (Hshape api' Resolved H (or_introl eq_refl)) as [Hs Hd].
      split; [destruct socketOpens; [reflexivity | discriminate] | exact Hd].
    + intros [-> (error & dir & Hi & He & Hall)].
      exact (Hsettled error dir Hi He Hall).
  - split.
    + intros [api' H].
      destruct (Hshape api' NeverSettles H (or_intror eq_refl)) as [Hs Hd].
      split; [destruct socketOpens; [discriminate | reflexivity] | exact Hd].
    + intros [-> (error & dir & Hi & He & Hall)].
      exact (Hsettled error dir Hi He Hall).
  - intros error data -> He. unfold subscribeToHVACs. rewrite He. reflexivity.
  - intros m ->. reflexivity.
  - intros error dir -> He Hnot. unfold subscribeToHVACs. rewrite He.
    cbn [hvacs set_commandCount set_hvacs].
    destruct (subscribeLoop_outcome macs dir []) as [[Hall _] | [_ (l & e & E)]];
      [exfalso; exact (Hnot Hall)|].
    rewrite E. eexists. exists e. repeat split.
Qed.

Lemma subscribeToHVACs_succeeds_iff_witness :
  (∃ api', subscribeToHVACs livingRoomConnection ["C45BBEC42467"]
             (InfoObject JUndefined (DataList [newEntry; compactEntry])) true
           = (api', Resolved))
  ∧ ¬ (∃ api', subscribeToHVACs livingRoomConnection []
                 (InfoObject JUndefined (DataList [newEntry; compactEntry])) true
               = (api', Resolved))
  ∧ subscribeToHVACs livingRoomConnection [] (InfoMissing IsUndefined) true
    = (set_commandCount (set_hvacs livingRoomConnection []) 0,
       Rejected (ThrownError
                   (TypeError "Cannot read properties of undefined (reading 'error')")))
  ∧ subscribeToHVACs livingRoomConnection []
      (InfoObject (JObj [ ("message", JStr "Unauthorized") ]) DataWithoutList) true
    = (set_commandCount (set_hvacs livingRoomConnection []) 0,
       Rejected (RejectedValue (JObj [ ("message", JStr "Unauthorized") ]))).
Proof.
  split; [|split; [|split]].
  - apply (proj1 (subscribeToHVACs_succeeds_iff livingRoomConnection ["C45BBEC42467"]
                    (InfoObject JUndefined (DataList [newEntry; compactEntry])) true)).
    split; [reflexivity|].
    exists JUndefined, [newEntry; compactEntry].
    split; [reflexivity|]. split; [reflexivity|].
    constructor; [intros H; vm_compute in H; discriminate H|].
    constructor; [intros _; reflexivity | constructor].
  - intros H.
    apply (proj1 (subscribeToHVACs_succeeds_iff livingRoomConnection []
                    (InfoObject JUndefined (DataList [newEntry; compactEntry])) true))
      in H.
    destruct H as (_ & error & dir & Hi & _ & Hall).
    injection Hi as <- <-.
    apply Forall_cons in Hall as [H _]. specialize (H eq_refl).
    vm_compute in H. discriminate H.
  - exact (proj1 (proj2 (proj2 (proj2
             (subscribeToHVACs_succeeds_iff livingRoomConnection []
                (InfoMissing IsUndefined) true)))) IsUndefined eq_refl).
  - exact (proj1 (proj2 (proj2
             (subscribeToHVACs_succeeds_iff livingRoomConnection []
                (InfoObject (JObj [ ("message", JStr "Unauthorized") ]) DataWithoutList)
                true))) _ _ eq_refl eq_refl).
Defined.

(** *** The device list *)

(** X16. [getAllDevices] never returns a falsy value: it gives the list of
    the answer, or an empty array when the answer has no data or no list.
    An answer with a truthy [error] throws "Failed to get devices: ..."
    with the error's message. When the request itself failed, the function
    throws a [TypeError] about reading [error] of [undefined], not the
    network error. *)
Theorem getAllDevices_outcomes :
  (∀ e, getAllDevices (Throw e)
        = Throw (TypeError "Cannot read properties of undefined (reading 'error')"))
  ∧ (∀ v l, getAllDevices (Ok v) = Ok l →
            truthy l = true
            ∧ truthy (member "error" v) = false
            ∧ (l = member "listDevices" (member "data" v) ∨ l = JArr []))
  ∧ (∀ v, truthy (member "error" v) = true →
          getAllDevices (Ok v)
          = Throw (Error ("Failed to get devices: "
                          +:+ ToString (member "message" (member "error" v)))))
  ∧ (∀ v, nullish v = false → truthy (member "error" v) = false →
          truthy (member "listDevices" (member "data" v)) = false →
          getAllDevices (Ok v) = Ok (JArr [])).
Proof.
  split; [reflexivity|]. split; [|split].
  - intros v l. unfold getAllDevices, getDeviceInfo.
    destruct (nullish v) eqn:Hv.
    { destruct v; simpl in *; discriminate. }
    rewrite !(get_not_nullish _ _ Hv). simpl.
    destruct (truthy (member "error" v)) eqn:He.
    { rewrite (get_truthy _ _ He). simpl. discriminate. }
    intros [= <-]. unfold js_or, get_opt.
    destruct (nullish (member "data" v)) eqn:Hn; simpl.
    + split; [reflexivity | split; [reflexivity | right; reflexivity]].
    + destruct (truthy (member "listDevices" (member "data" v))) eqn:Hl.
      * split; [exact Hl | split; [reflexivity | left; reflexivity]].
      * split; [reflexivity | split; [reflexivity | right; reflexivity]].
  - intros v He. unfold getAllDevices, getDeviceInfo.
    assert (Hv : nullish v = false).
    { destruct v; simpl in *; try reflexivity; discriminate. }
    rewrite !(get_not_nullish _ _ Hv). simpl. rewrite He.
    rewrite (get_truthy _ _ He). reflexivity.
  - intros v Hv He Hl. unfold getAllDevices, getDeviceInfo.
    rewrite !(get_not_nullish _ _ Hv). simpl. rewrite He.
    unfold js_or, get_opt.
    destruct (nullish (member "data" v)); simpl; [reflexivity|].
    rewrite Hl. reflexivity.
Qed.

Lemma getAllDevices_outcomes_witness :
  getAllDevices (Ok refusedDeviceList)
  = Throw (Error "Failed to get devices: Unauthorized")
  ∧ getAllDevices (Ok (JObj [])) = Ok (JArr [])
  ∧ ∃ l, getAllDevices (Ok deviceList) = Ok l ∧ truthy l = true.
Proof.
  destruct getAllDevices_outcomes as (_ & L & E & D).
  split; [exact (E refusedDeviceList eq_refl)|].
  split; [exact (D (JObj []) eq_refl eq_refl eq_refl)|].
  eexists. split; [reflexivity|].
  exact (proj1 (L deviceList _ eq_refl)).
Defined.

(** *** Session *)

Lemma loginData_accepted responseJSON :
  loginAccepted responseJSON = true →
  loginData responseJSON = Ok (member "user" (member "data" responseJSON)).
Proof.
  unfold loginAccepted, loginData. intros H.
  apply andb_prop in H as [H Hu]. apply andb_prop in H as [Hs Hd].
  assert (Hr : nullish responseJSON = false).
  { destruct responseJSON; simpl in *; try reflexivity; discriminate. }
  rewrite !(get_not_nullish _ _ Hr). simpl. rewrite Hs. simpl.
  rewrite Hd. simpl. rewrite (get_truthy _ _ Hd). simpl. rewrite Hu. reflexivity.
Qed.

Lemma loginData_refused responseJSON :
  nullish responseJSON = false →
  loginAccepted responseJSON = false →
  loginData responseJSON
  = Throw (Error ("Login failed: " +:+
                  ToString (js_or (member "message" responseJSON)
                                  (JStr "Unknown error")))).
Proof.
  unfold loginAccepted, loginData. intros Hr H.
  rewrite !(get_not_nullish _ _ Hr). simpl.
  destruct (strict_eq_num 200 (member "status" responseJSON)); simpl in *;
    [|reflexivity].
  destruct (truthy (member "data" responseJSON)) eqn:Hd; simpl in *; [|reflexivity].
  rewrite (get_truthy _ _ Hd). simpl. rewrite H. reflexivity.
Qed.

(** X17. A login is accepted exactly when the answer's status is the number
    200 and it has a truthy [data.user]; the session then holds what the
    user object has. Any other answer that is an object or a value fails
    with "Login failed: " and the answer's message, or "Unknown error"
    when it has none, and a status of 200 sent as a string is such a
    failure. *)
Theorem establishConnection_accepts :
  ∀ api responseJSON,
    ((∃ api', establishConnection api responseJSON = Ok api')
     ↔ loginAccepted responseJSON = true)
    ∧ (nullish responseJSON = false →
       loginAccepted responseJSON = false →
       establishConnection api responseJSON
       = Throw (Error ("Login failed: " +:+
                       ToString (js_or (member "message" responseJSON)
                                       (JStr "Unknown error")))))
    ∧ (strict_eq_num 200 (member "status" responseJSON) = false →
       ∀ api', establishConnection api responseJSON ≠ Ok api').
Proof.
  intros api responseJSON.
  assert (Hiff : (∃ api', establishConnection api responseJSON = Ok api')
                 ↔ loginAccepted responseJSON = true).
  { split.
    - intros [api' H]. apply establishConnection_Ok in H as (user & Hu & _).
      destruct (loginAccepted responseJSON) eqn:Ha; [reflexivity|].
      destruct (nullish responseJSON) eqn:Hr.
      + destruct responseJSON; simpl in *; discriminate.
      + rewrite (loginData_refused _ Hr Ha) in Hu. discriminate.
    - intros Ha. unfold establishConnection.
      rewrite (loginData_accepted _ Ha). simpl.
      unfold loginAccepted in Ha. apply andb_prop in Ha as [_ Hu].
      rewrite !(get_truthy _ _ Hu). simpl. eexists. reflexivity. }
  split; [exact Hiff|]. split.
  - intros Hr Ha. unfold establishConnection.
    rewrite (loginData_refused _ Hr Ha). reflexivity.
  - intros Hs api' H.
    assert (Ha : loginAccepted responseJSON = true)
      by (apply Hiff; exists api'; exact H).
    unfold loginAccepted in Ha. rewrite Hs in Ha. discriminate.
Qed.

Lemma establishConnection_accepts_witness :
  (∃ api', establishConnection bedroomConnection loginAnswer = Ok api')
  ∧ establishConnection bedroomConnection refusedLogin
    = Throw (Error "Login failed: Invalid captcha").
Proof.
  destruct (establishConnection_accepts bedroomConnection loginAnswer) as (A & _).
  destruct (establishConnection_accepts bedroomConnection refusedLogin) as (_ & R & _).
  split; [apply A; reflexivity | exact (R eq_refl eq_refl)].
Defined.

(** X18. A refresh succeeds exactly when there is a token to use, the given
    one or the stored one, and the answer has a truthy [data]. With no token
    it fails with "No refresh token available. Must login first." and
    otherwise every failure message starts with "Token refresh failed: ";
    an answer without [data] gives the prefix twice, the second time with
    the HTTP status. *)
Theorem refreshAccessToken_outcomes :
  ∀ api tok status body,
    ((∃ api', refreshAccessToken api tok status body = Ok api')
     ↔ truthy (js_or tok (refreshToken api)) = true
       ∧ truthy (member "data" body) = true)
    ∧ (truthy (js_or tok (refreshToken api)) = false →
       refreshAccessToken api tok status body
       = Throw (Error "No refresh token available. Must login first."))
    ∧ (truthy (js_or tok (refreshToken api)) = true →
       ∀ e, refreshAccessToken api tok status body = Throw e →
            ∃ m, e = Error ("Token refresh failed: " +:+ m))
    ∧ (truthy (js_or tok (refreshToken api)) = true →
       nullish body = false →
       truthy (member "data" body) = false →
       refreshAccessToken api tok status body
       = Throw (Error ("Token refresh failed: Token refresh failed ("
                       +:+ pretty status +:+ "): "
                       +:+ ToString
                             (js_or (member "message" body)
                                (js_or (get_opt "message" (member "error" body))
                                   (JStr "Unknown error")))))).
Proof.
  intros api tok status body. split; [|split; [|split]].
  - split.
    + intros [api' H]. unfold refreshAccessToken in H.
      destruct (truthy (js_or tok (refreshToken api))); simpl in H; [|discriminate].
      split; [reflexivity|].
      destruct (nullish body) eqn:Hb.
      { destruct body; simpl in *; discriminate. }
      rewrite (get_not_nullish _ _ Hb) in H. simpl in H.
      destruct (truthy (member "data" body)); [reflexivity | discriminate].
    + intros [Ht Hd]. apply refreshAccessToken_returns; assumption.
  - intros Ht. unfold refreshAccessToken. rewrite Ht. reflexivity.
  - intros Ht e. unfold refreshAccessToken. rewrite Ht. simpl.
    match goal with
    | |- match ?s with _ => _ end = _ → _ => destruct s as [a|e0]
    end; [discriminate|].
    intros [= <-]. eexists. reflexivity.
  - intros Ht Hb Hd. unfold refreshAccessToken. rewrite Ht. simpl.
    rewrite (get_not_nullish _ _ Hb). simpl. rewrite Hd. simpl. reflexivity.
Qed.

Lemma refreshAccessToken_outcomes_witness :
  (∃ api', refreshAccessToken bedroomConnection (JStr "refresh-1") 200 refreshAnswer
           = Ok api')
  ∧ refreshAccessToken bedroomConnection JUndefined 200 refreshAnswer
    = Throw (Error "No refresh token available. Must login first.")
  ∧ refreshAccessToken bedroomConnection (JStr "refresh-1") 401 refusedRefresh
    = Throw (Error ("Token refresh failed: Token refresh failed ("
                    +:+ pretty 401 +:+ "): Token expired")).
Proof.
  destruct (refreshAccessToken_outcomes bedroomConnection (JStr "refresh-1") 200
              refreshAnswer) as (A & _).
  destruct (refreshAccessToken_outcomes bedroomConnection JUndefined 200
              refreshAnswer) as (_ & N & _).
  destruct (refreshAccessToken_outcomes bedroomConnection (JStr "refresh-1") 401
              refusedRefresh) as (_ & _ & _ & R).
  split; [apply A; split; reflexivity|].
  split; [exact (N eq_refl) | exact (R eq_refl eq_refl eq_refl)].
Defined.

End ConnectionProperties.

(** ** The manager's timers and subscriptions *)

Module ManagerOpsProperties.
Import Manager ManagerOps.

Lemma tc_ext m m' :
  timers m' = timers m → nextTimer m' = nextTimer m →
  healthCheckTimer m' = healthCheckTimer m →
  tokenRefreshTimer m' = tokenRefreshTimer m →
  timersConsistent m → timersConsistent m'.
Proof.
  intros Et En Eh Ek [H1 H2 H3 H4 H5 H6].
  constructor; rewrite ?Et, ?En, ?Eh, ?Ek; assumption.
Qed.

Lemma tc_emit m e : timersConsistent m → timersConsistent (emit m e).
Proof. apply tc_ext; reflexivity. Qed.

Lemma tc_set_api m a : timersConsistent m → timersConsistent (set_api m a).
Proof. apply tc_ext; reflexivity. Qed.

Lemma tc_set_isConnected m b : timersConsistent m → timersConsistent (set_isConnected m b).
Proof. apply tc_ext; reflexivity. Qed.

Lemma tc_set_reconnectAttempts m n :
  timersConsistent m → timersConsistent (set_reconnectAttempts m n).
Proof. apply tc_ext; reflexivity. Qed.

Lemma tc_set_tokenExpiresAt m t :
  timersConsistent m → timersConsistent (set_tokenExpiresAt m t).
Proof. apply tc_ext; reflexivity. Qed.

Lemma tc_set_macAddresses m l :
  timersConsistent m → timersConsistent (set_macAddresses m l).
Proof. apply tc_ext; reflexivity. Qed.

Lemma tc_new options : timersConsistent (new_CieloConnectionManager options).
Proof.
  constructor; simpl.
  - intros t Ht. apply not_elem_of_nil in Ht. destruct Ht.
  - constructor.
  - intros t Ht. apply not_elem_of_nil in Ht. destruct Ht.
  - intros t Ht. apply not_elem_of_nil in Ht. destruct Ht.
  - discriminate.
  - discriminate.
Qed.

Lemma tc_clearTimer m id : timersConsistent m → timersConsistent (clearTimer m id).
Proof.
  intros [H1 H2 H3 H4 H5 H6]. constructor; simpl.
  - intros t Ht. apply list_elem_of_filter in Ht as [_ Ht]. auto.
  - eapply sublist_NoDup; [exact H2 | apply fmap_sublist, sublist_filter].
  - intros t Ht. apply list_elem_of_filter in Ht as [_ Ht]. auto.
  - intros t Ht. apply list_elem_of_filter in Ht as [_ Ht]. auto.
  - intros i Hi. destruct (H5 i Hi) as [Hlt Hk]. split; [exact Hlt|].
    intros t Ht. apply list_elem_of_filter in Ht as [_ Ht]. auto.
  - intros i Hi. destruct (H6 i Hi) as [Hlt Hk]. split; [exact Hlt|].
    intros t Ht. apply list_elem_of_filter in Ht as [_ Ht]. auto.
Qed.

Lemma ids_fresh (l : list Timer) (next : nat) :
  (∀ t, t ∈ l → (timer_id t < next)%nat) →
  NoDup (timer_id <$> l) →
  ∀ kind delay, NoDup (timer_id <$> (l ++ [mkTimer next kind delay])).
Proof.
  intros Hf Hn kind delay. rewrite fmap_app. apply NoDup_app.
  split; [exact Hn|]. split; [|apply NoDup_singleton].
  intros i Hi Hx. apply list_elem_of_fmap in Hi as (t & -> & Ht).
  apply list_elem_of_singleton in Hx. simpl in Hx.
  specialize (Hf t Ht). lia.
Qed.

(** A new timer of the table, of each kind. *)
Lemma tc_addReconnect m m' delay :
  timers m' = timers m ++ [mkTimer (nextTimer m) ReconnectTimer delay] →
  nextTimer m' = S (nextTimer m) →
  healthCheckTimer m' = healthCheckTimer m →
  tokenRefreshTimer m' = tokenRefreshTimer m →
  timersConsistent m → timersConsistent m'.
Proof.
  intros Et En Eh Ek [H1 H2 H3 H4 H5 H6].
  constructor; rewrite ?Et, ?En, ?Eh, ?Ek.
  - intros t Ht. apply elem_of_app in Ht as [Ht | Ht].
    + specialize (H1 t Ht). lia.
    + apply list_elem_of_singleton in Ht. subst t. simpl. lia.
  - apply ids_fresh; assumption.
  - intros t Ht Hk. apply elem_of_app in Ht as [Ht | Ht]; [auto|].
    apply list_elem_of_singleton in Ht. subst t. discriminate.
  - intros t Ht Hk. apply elem_of_app in Ht as [Ht | Ht]; [auto|].
    apply list_elem_of_singleton in Ht. subst t. discriminate.
  - intros i Hi. destruct (H5 i Hi) as [Hlt Hk]. split; [lia|].
    intros t Ht Hid. apply elem_of_app in Ht as [Ht | Ht]; [auto|].
    apply list_elem_of_singleton in Ht. subst t. simpl in Hid. lia.
  - intros i Hi. destruct (H6 i Hi) as [Hlt Hk]. split; [lia|].
    intros t Ht Hid. apply elem_of_app in Ht as [Ht | Ht]; [auto|].
    apply list_elem_of_singleton in Ht. subst t. simpl in Hid. lia.
Qed.

Lemma tc_addHealthCheck m m' delay :
  timers m' = timers m ++ [mkTimer (nextTimer m) HealthCheckTimer delay] →
  nextTimer m' = S (nextTimer m) →
  healthCheckTimer m = None →
  healthCheckTimer m' = Some (nextTimer m) →
  tokenRefreshTimer m' = tokenRefreshTimer m →
  timersConsistent m → timersConsistent m'.
Proof.
  intros Et En E0 Eh Ek [H1 H2 H3 H4 H5 H6].
  constructor; rewrite ?Et, ?En, ?Eh, ?Ek.
  - intros t Ht. apply elem_of_app in Ht as [Ht | Ht].
    + specialize (H1 t Ht). lia.
    + apply list_elem_of_singleton in Ht. subst t. simpl. lia.
  - apply ids_fresh; assumption.
  - intros t Ht Hk. apply elem_of_app in Ht as [Ht | Ht].
    + specialize (H3 t Ht Hk). congruence.
    + apply list_elem_of_singleton in Ht. subst t. reflexivity.
  - intros t Ht Hk. apply elem_of_app in Ht as [Ht | Ht]; [auto|].
    apply list_elem_of_singleton in Ht. subst t. discriminate.
  - intros i [= <-]. split; [lia|].
    intros t Ht Hid. apply elem_of_app in Ht as [Ht | Ht].
    + specialize (H1 t Ht). lia.
    + apply list_elem_of_singleton in Ht. subst t. reflexivity.
  - intros i Hi. destruct (H6 i Hi) as [Hlt Hk]. split; [lia|].
    intros t Ht Hid. apply elem_of_app in Ht as [Ht | Ht]; [auto|].
    apply list_elem_of_singleton in Ht. subst t. simpl in Hid. lia.
Qed.

Lemma tc_addTokenRefresh m m' delay :
  timers m' = timers m ++ [mkTimer (nextTimer m) TokenRefreshTimer delay] →
  nextTimer m' = S (nextTimer m) →
  tokenRefreshTimer m = None →
  tokenRefreshTimer m' = Some (nextTimer m) →
  healthCheckTimer m' = healthCheckTimer m →
  timersConsistent m → timersConsistent m'.
Proof.
  intros Et En E0 Ek Eh [H1 H2 H3 H4 H5 H6].
  constructor; rewrite ?Et, ?En, ?Eh, ?Ek.
  - intros t Ht. apply elem_of_app in Ht as [Ht | Ht].
    + specialize (H1 t Ht). lia.
    + apply list_elem_of_singleton in Ht. subst t. simpl. lia.
  - apply ids_fresh; assumption.
  - intros t Ht Hk. apply elem_of_app in Ht as [Ht | Ht]; [auto|].
    apply list_elem_of_singleton in Ht. subst t. discriminate.
  - intros t Ht Hk. apply elem_of_app in Ht as [Ht | Ht].
    + specialize (H4 t Ht Hk). congruence.
    + apply list_elem_of_singleton in Ht. subst t. reflexivity.
  - intros i Hi. destruct (H5 i Hi) as [Hlt Hk]. split; [lia|].
    intros t Ht Hid. apply elem_of_app in Ht as [Ht | Ht]; [auto|].
    apply list_elem_of_singleton in Ht. subst t. simpl in Hid. lia.
  - intros i [= <-]. split; [lia|].
    intros t Ht Hid. apply elem_of_app in Ht as [Ht | Ht].
    + specialize (H1 t Ht). lia.
    + apply list_elem_of_singleton in Ht. subst t. reflexivity.
Qed.

Lemma tc_scheduleReconnect m :
  timersConsistent m → timersConsistent (scheduleReconnect m).
Proof.
  intros H. eapply (tc_addReconnect m); [reflexivity..|exact H].
Qed.

Lemma tc_stopHealthCheck m :
  timersConsistent m →
  timersConsistent (stopHealthCheck m) ∧ healthCheckTimer (stopHealthCheck m) = None.
Proof.
  intros H. unfold stopHealthCheck.
  destruct (healthCheckTimer m) as [id|] eqn:E; [|split; [exact H | exact E]].
  split; [|reflexivity].
  pose proof (tc_clearTimer m id H) as [C1 C2 C3 C4 C5 C6].
  destruct H as [H1 H2 H3 H4 H5 H6].
  constructor; simpl in *; try assumption.
  - intros t Ht Hk. apply list_elem_of_filter in Ht as [Hne Ht].
    specialize (H3 t Ht Hk). congruence.
  - discriminate.
Qed.

Lemma tc_stopTokenRefresh m :
  timersConsistent m →
  timersConsistent (stopTokenRefresh m) ∧ tokenRefreshTimer (stopTokenRefresh m) = None.
Proof.
  intros H. unfold stopTokenRefresh.
  destruct (tokenRefreshTimer m) as [id|] eqn:E; [|split; [exact H | exact E]].
  split; [|reflexivity].
  pose proof (tc_clearTimer m id H) as [C1 C2 C3 C4 C5 C6].
  destruct H as [H1 H2 H3 H4 H5 H6].
  constructor; simpl in *; try assumption.
  - intros t Ht Hk. apply list_elem_of_filter in Ht as [Hne Ht].
    specialize (H4 t Ht Hk). congruence.
  - discriminate.
Qed.

Lemma tc_startHealthCheck m :
  timersConsistent m → timersConsistent (startHealthCheck m).
Proof.
  intros H. destruct (tc_stopHealthCheck m H) as [H1 E1].
  unfold startHealthCheck.
  eapply (tc_addHealthCheck (stopHealthCheck m));
    [reflexivity | reflexivity | exact E1 | reflexivity | reflexivity | exact H1].
Qed.

Lemma tc_scheduleTokenRefresh m now :
  timersConsistent m → timersConsistent (scheduleTokenRefresh m now).
Proof.
  intros H. destruct (tc_stopTokenRefresh m H) as [H1 E1].
  unfold scheduleTokenRefresh.
  destruct (disableTokenRefresh (stopTokenRefresh m)); [exact H1|].
  destruct (tokenExpiresAt (stopTokenRefresh m)) as [expiresAt|]; [|exact H1].
  destruct (expiresAt =? 0); [exact H1|].
  destruct (expiresAt - now - refreshBeforeExpiry (stopTokenRefresh m) <=? 0).
  - destruct (autoReconnect (stopTokenRefresh m));
      [apply tc_scheduleReconnect|]; exact H1.
  - eapply (tc_addTokenRefresh (stopTokenRefresh m));
      [reflexivity | reflexivity | exact E1 | reflexivity | reflexivity | exact H1].
Qed.

Lemma tc_disconnect m : timersConsistent m → timersConsistent (disconnect m).
Proof.
  intros H. unfold disconnect.
  apply tc_emit, tc_set_api, tc_set_isConnected.
  apply tc_stopTokenRefresh, tc_stopHealthCheck, H.
Qed.

Lemma tc_connect m outcome now :
  timersConsistent m → timersConsistent (fst (connect m outcome now)).
Proof.
  intros H. unfold connect.
  destruct (snd outcome) as [r|e]; cbv zeta.
  - cbn [fst].
    apply tc_emit, tc_scheduleTokenRefresh, tc_startHealthCheck.
    apply tc_set_tokenExpiresAt, tc_set_reconnectAttempts, tc_set_isConnected.
    apply tc_set_api, H.
  - match goal with
    | |- context [if ?c then _ else _] => destruct c
    end; cbn [fst].
    + apply tc_scheduleReconnect, tc_set_isConnected, tc_set_api, H.
    + apply tc_set_isConnected, tc_set_api, H.
Qed.

Lemma tc_handleError m message :
  timersConsistent m → timersConsistent (handleError m message).
Proof.
  intros H. unfold handleError. apply tc_emit.
  destruct (includes "WebSocket" message || includes "connection" message); [|exact H].
  cbv zeta.
  match goal with
  | |- context [if ?c then _ else _] => destruct c
  end.
  - apply tc_scheduleReconnect, tc_set_isConnected, H.
  - apply tc_set_isConnected, H.
Qed.

Lemma tc_healthCheckTick m :
  timersConsistent m → timersConsistent (healthCheckTick m).
Proof.
  intros H. unfold healthCheckTick.
  destruct (negb (isConnected m)); [|exact H].
  destruct (tc_stopHealthCheck m H) as [H1 _]. cbv zeta.
  destruct (autoReconnect (stopHealthCheck m));
    [apply tc_scheduleReconnect|]; exact H1.
Qed.

(** The subscription changes the connection and the list of MAC addresses
    only. *)
Lemma subscribeToHvacs_fields m macs deviceInfo socketOpens :
  let m' := fst (subscribeToHvacs m macs deviceInfo socketOpens) in
  timers m' = timers m
  ∧ nextTimer m' = nextTimer m
  ∧ healthCheckTimer m' = healthCheckTimer m
  ∧ tokenRefreshTimer m' = tokenRefreshTimer m
  ∧ autoReconnect m' = autoReconnect m
  ∧ reconnectAttempts m' = reconnectAttempts m
  ∧ isConnected m' = isConnected m.
Proof.
  cbv zeta. unfold subscribeToHvacs.
  destruct (getApi m) as [a|e]; [|repeat split].
  destruct (subscribeToHVACs a macs deviceInfo socketOpens) as [a' settled].
  destruct settled; repeat split.
Qed.

Lemma tc_subscribeToHvacs m macs deviceInfo socketOpens :
  timersConsistent m →
  timersConsistent (fst (subscribeToHvacs m macs deviceInfo socketOpens)).
Proof.
  pose proof (subscribeToHvacs_fields m macs deviceInfo socketOpens) as F.
  cbv zeta in F. destruct F as (F1 & F2 & F3 & F4 & _).
  apply tc_ext; assumption.
Qed.

Lemma tc_step m ev m' : managerStep m ev m' → timersConsistent m → timersConsistent m'.
Proof.
  intros S H. destruct S.
  - apply tc_connect, H.
  - apply tc_disconnect, H.
  - apply tc_subscribeToHvacs, H.
  - unfold onSocketError. apply tc_handleError, tc_handleError, H.
  - unfold onSocketClose. apply tc_handleError, H.
  - apply tc_healthCheckTick, H.
  - unfold fireReconnectTimer. apply tc_connect, tc_clearTimer, H.
  - unfold fireTokenRefreshTimer. apply tc_connect, tc_disconnect, tc_clearTimer, H.
Qed.

Lemma tc_reachable options m : reachable options m → timersConsistent m.
Proof.
  induction 1 as [|m ev m' _ IH S]; [apply tc_new | exact (tc_step m ev m' S IH)].
Qed.

Lemma isKind_true kind t : isKind kind t = true ↔ timer_kind t = kind.
Proof. unfold isKind. destruct (timer_kind t), kind; split; congruence. Qed.

Lemma one_with_id (l : list Timer) (P : Timer → bool) (i : nat) :
  NoDup (timer_id <$> l) →
  (∀ t, t ∈ l → P t = true → timer_id t = i) →
  (length (List.filter P l) ≤ 1)%nat.
Proof.
  induction l as [|x xs IH]; intros Hn Hi; simpl; [lia|].
  rewrite fmap_cons in Hn. apply NoDup_cons in Hn as [Hx Hn].
  assert (Hi' : ∀ t, t ∈ xs → P t = true → timer_id t = i)
    by (intros t Ht; apply Hi; right; exact Ht).
  destruct (P x) eqn:Px; [|exact (IH Hn Hi')].
  assert (E : List.filter P xs = []).
  { destruct (List.filter P xs) as [|y ys] eqn:F; [reflexivity|]. exfalso.
    assert (Hy : In y (List.filter P xs)) by (rewrite F; left; reflexivity).
    apply filter_In in Hy as [Hy Py]. apply list_elem_of_In in Hy.
    apply Hx. apply list_elem_of_fmap. exists y. split; [|exact Hy].
    rewrite (Hi x (list_elem_of_here _ _) Px). symmetry. exact (Hi' y Hy Py). }
  rewrite E. simpl. lia.
Qed.

Lemma one_of_kind m kind (h : option nat) :
  NoDup (timer_id <$> timers m) →
  (∀ t, t ∈ timers m → timer_kind t = kind → h = Some (timer_id t)) →
  (length (List.filter (isKind kind) (timers m)) ≤ 1)%nat.
Proof.
  intros Hn Hk. destruct h as [i|].
  - apply (one_with_id _ _ i Hn). intros t Ht Pt.
    apply isKind_true in Pt. specialize (Hk t Ht Pt). congruence.
  - apply (one_with_id _ _ 0%nat Hn). intros t Ht Pt.
    apply isKind_true in Pt. specialize (Hk t Ht Pt). discriminate.
Qed.

(** X19. However the manager is used, its timer table holds at most one
    health-check interval and at most one token-refresh timeout, and the
    handle the manager keeps is the handle of that timer; no handle is in
    the table twice. *)
Theorem one_health_check_one_token_refresh :
  ∀ options m,
    reachable options m →
    (length (List.filter (isKind HealthCheckTimer) (timers m)) ≤ 1)%nat
    ∧ (length (List.filter (isKind TokenRefreshTimer) (timers m)) ≤ 1)%nat
    ∧ (∀ t, t ∈ timers m → timer_kind t = HealthCheckTimer →
            healthCheckTimer m = Some (timer_id t))
    ∧ (∀ t, t ∈ timers m → timer_kind t = TokenRefreshTimer →
            tokenRefreshTimer m = Some (timer_id t))
    ∧ NoDup (timer_id <$> timers m).
Proof.
  intros options m R. destruct (tc_reachable options m R) as [H1 H2 H3 H4 H5 H6].
  split; [exact (one_of_kind m _ _ H2 H3)|].
  split; [exact (one_of_kind m _ _ H2 H4)|].
  split; [exact H3|]. split; [exact H4 | exact H2].
Qed.

Lemma one_health_check_one_token_refresh_witness :
  (length (List.filter (isKind HealthCheckTimer)
             (timers (fst (connect defaultManager (livingRoomConnection, Ok tt) 0))))
   ≤ 1)%nat.
Proof.
  exact (proj1 (one_health_check_one_token_refresh
                  (mkOptions None None None None None None None) _
                  (reachable_step _ defaultManager
                     (CallConnect (livingRoomConnection, Ok tt) 0) _
                     (reachable_new _) (step_connect _ _ _)))).
Defined.

(** *** Reconnection switched off *)

Lemma pending_nil m :
  pendingReconnects m = [] ↔ ∀ t, t ∈ timers m → isReconnect t = false.
Proof.
  unfold pendingReconnects. split.
  - intros E t Ht. destruct (isReconnect t) eqn:Et; [|reflexivity]. exfalso.
    assert (Hin : In t (List.filter isReconnect (timers m))).
    { apply filter_In. split; [apply list_elem_of_In; exact Ht | exact Et]. }
    rewrite E in Hin. destruct Hin.
  - intros H. induction (timers m) as [|x xs IH]; [reflexivity|]. simpl.
    rewrite (H x (list_elem_of_here _ _)). apply IH.
    intros t Ht. apply H. right. exact Ht.
Qed.

(** An operation that keeps the two fields and adds no reconnect timer. *)
Lemma off_ext m m' :
  autoReconnect m' = autoReconnect m →
  reconnectAttempts m' = reconnectAttempts m →
  (∀ t, t ∈ timers m' → t ∈ timers m ∨ isReconnect t = false) →
  reconnectionOff m → reconnectionOff m'.
Proof.
  intros Ea Er Ht (Ha & Hr & Hp). split; [congruence|]. split; [congruence|].
  apply pending_nil. intros t Hin. destruct (Ht t Hin) as [Hold | Hk]; [|exact Hk].
  exact (proj1 (pending_nil m) Hp t Hold).
Qed.

Lemma off_same m m' :
  autoReconnect m' = autoReconnect m →
  reconnectAttempts m' = reconnectAttempts m →
  timers m' = timers m →
  reconnectionOff m → reconnectionOff m'.
Proof.
  intros Ea Er Et. apply off_ext; [exact Ea | exact Er|].
  intros t Ht. left. rewrite <- Et. exact Ht.
Qed.

Lemma off_emit m e : reconnectionOff m → reconnectionOff (emit m e).
Proof. apply off_same; reflexivity. Qed.

Lemma off_set_api m a : reconnectionOff m → reconnectionOff (set_api m a).
Proof. apply off_same; reflexivity. Qed.

Lemma off_set_isConnected m b : reconnectionOff m → reconnectionOff (set_isConnected m b).
Proof. apply off_same; reflexivity. Qed.

Lemma off_set_tokenExpiresAt m t :
  reconnectionOff m → reconnectionOff (set_tokenExpiresAt m t).
Proof. apply off_same; reflexivity. Qed.

Lemma off_set_macAddresses m l :
  reconnectionOff m → reconnectionOff (set_macAddresses m l).
Proof. apply off_same; reflexivity. Qed.

Lemma off_reset m : reconnectionOff m → reconnectionOff (set_reconnectAttempts m 0).
Proof. intros (Ha & Hr & Hp). split; [exact Ha|]. split; [reflexivity | exact Hp]. Qed.

Lemma off_clearTimer m id : reconnectionOff m → reconnectionOff (clearTimer m id).
Proof.
  apply off_ext; try reflexivity.
  intros t Ht. apply list_elem_of_filter in Ht as [_ Ht]. left. exact Ht.
Qed.

Lemma off_stopHealthCheck m : reconnectionOff m → reconnectionOff (stopHealthCheck m).
Proof.
  unfold stopHealthCheck.
  destruct (healthCheckTimer m) as [id|]; [|intros H; exact H].
  intros H. apply (off_same (clearTimer m id)); try reflexivity.
  apply off_clearTimer, H.
Qed.

Lemma off_stopTokenRefresh m : reconnectionOff m → reconnectionOff (stopTokenRefresh m).
Proof.
  unfold stopTokenRefresh.
  destruct (tokenRefreshTimer m) as [id|]; [|intros H; exact H].
  intros H. apply (off_same (clearTimer m id)); try reflexivity.
  apply off_clearTimer, H.
Qed.

Lemma off_startHealthCheck m : reconnectionOff m → reconnectionOff (startHealthCheck m).
Proof.
  intros H. apply (off_ext (stopHealthCheck m)); try reflexivity.
  - unfold startHealthCheck. cbn. intros t Ht.
    apply elem_of_app in Ht as [Ht | Ht]; [left; exact Ht|].
    apply list_elem_of_singleton in Ht. subst t. right. reflexivity.
  - apply off_stopHealthCheck, H.
Qed.

Lemma off_scheduleTokenRefresh m now :
  reconnectionOff m → reconnectionOff (scheduleTokenRefresh m now).
Proof.
  intros H. pose proof (off_stopTokenRefresh m H) as H1.
  unfold scheduleTokenRefresh.
  destruct (disableTokenRefresh (stopTokenRefresh m)); [exact H1|].
  destruct (tokenExpiresAt (stopTokenRefresh m)) as [expiresAt|]; [|exact H1].
  destruct (expiresAt =? 0); [exact H1|].
  destruct (expiresAt - now - refreshBeforeExpiry (stopTokenRefresh m) <=? 0).
  - destruct H1 as (Ha & Hr & Hp). rewrite Ha. split; [exact Ha | split; assumption].
  - apply (off_ext (stopTokenRefresh m)); try reflexivity; [|exact H1].
    cbn. intros t Ht.
    apply elem_of_app in Ht as [Ht | Ht]; [left; exact Ht|].
    apply list_elem_of_singleton in Ht. subst t. right. reflexivity.
Qed.

Lemma off_disconnect m : reconnectionOff m → reconnectionOff (disconnect m).
Proof.
  intros H. unfold disconnect.
  apply off_emit, off_set_api, off_set_isConnected.
  apply off_stopTokenRefresh, off_stopHealthCheck, H.
Qed.

Lemma off_connect m outcome now :
  reconnectionOff m → reconnectionOff (fst (connect m outcome now)).
Proof.
  intros H. unfold connect.
  destruct (snd outcome) as [r|e]; cbv zeta.
  - cbn [fst].
    apply off_emit, off_scheduleTokenRefresh, off_startHealthCheck.
    apply off_set_tokenExpiresAt, off_reset, off_set_isConnected, off_set_api, H.
  - replace (autoReconnect (set_isConnected (set_api m (Some (fst outcome))) false))
      with false by (symmetry; apply H).
    cbn [andb fst].
    apply off_set_isConnected, off_set_api, H.
Qed.

Lemma off_handleError m message :
  reconnectionOff m → reconnectionOff (handleError m message).
Proof.
  intros H. unfold handleError. apply off_emit.
  destruct (includes "WebSocket" message || includes "connection" message); [|exact H].
  cbv zeta.
  replace (autoReconnect (set_isConnected m false)) with false by (symmetry; apply H).
  apply off_set_isConnected, H.
Qed.

Lemma off_healthCheckTick m : reconnectionOff m → reconnectionOff (healthCheckTick m).
Proof.
  intros H. unfold healthCheckTick.
  destruct (negb (isConnected m)); [|exact H].
  pose proof (off_stopHealthCheck m H) as H1. cbv zeta.
  destruct H1 as (Ha & Hr & Hp). rewrite Ha. split; [exact Ha | split; assumption].
Qed.

Lemma off_step m ev m' : managerStep m ev m' → reconnectionOff m → reconnectionOff m'.
Proof.
  intros S H. destruct S as [| |m macs deviceInfo socketOpens| | | | |].
  - apply off_connect, H.
  - apply off_disconnect, H.
  - pose proof (subscribeToHvacs_fields m macs deviceInfo socketOpens) as F.
    cbv zeta in F. destruct F as (F1 & _ & _ & _ & F5 & F6 & _).
    apply (off_same m); assumption.
  - unfold onSocketError. apply off_handleError, off_handleError, H.
  - unfold onSocketClose. apply off_handleError, H.
  - apply off_healthCheckTick, H.
  - unfold fireReconnectTimer. apply off_connect, off_clearTimer, H.
  - unfold fireTokenRefreshTimer. apply off_connect, off_disconnect, off_clearTimer, H.
Qed.

(** X20. A manager built with [autoReconnect: false] never schedules a
    reconnect, whatever happens to it: no socket error, failed health check
    or expired token adds one, and the attempt counter stays at 0. A
    [connect()] that fails then rejects with the error of the failure and
    leaves the manager disconnected. *)
Theorem autoReconnect_off :
  ∀ options m,
    o_autoReconnect options = Some false →
    reachable options m →
    pendingReconnects m = []
    ∧ reconnectAttempts m = 0
    ∧ ∀ outcome now e,
        snd outcome = Throw e →
        snd (connect m outcome now) = Throw e
        ∧ isConnected (fst (connect m outcome now)) = false
        ∧ timers (fst (connect m outcome now)) = timers m.
Proof.
  intros options m Ho R.
  assert (H : reconnectionOff m).
  { induction R as [|m ev m' _ IH S]; [|exact (off_step m ev m' S IH)].
    unfold reconnectionOff. simpl. rewrite Ho. repeat split. }
  destruct H as (Ha & Hr & Hp). split; [exact Hp|]. split; [exact Hr|].
  intros outcome now e He. unfold connect. rewrite He. cbv zeta.
  replace (autoReconnect (set_isConnected (set_api m (Some (fst outcome))) false))
    with false by (symmetry; exact Ha).
  repeat split.
Qed.

Lemma autoReconnect_off_witness :
  pendingReconnects
    (onSocketError (new_CieloConnectionManager manualOptions) "WebSocket was closed")
  = [].
Proof.
  exact (proj1 (autoReconnect_off manualOptions _ eq_refl
                  (reachable_step _ _ (SocketError "WebSocket was closed") _
                     (reachable_new _) (step_socketError _ _)))).
Defined.

(** *** The error callback *)

(** X21. The error callback reports every error to [onError], once, after it
    has dealt with it. An error whose message contains neither "WebSocket"
    nor "connection", in this spelling, changes nothing else. An error
    whose message does marks the manager disconnected and, with
    reconnection on, schedules one more reconnect and counts one more
    attempt, whatever the counter is. The socket's close event is of the
    first kind: its message is "Connection Closed.", so a closed socket
    leaves the manager connected and schedules nothing, and the health check
    after it finds the connection alive. *)
Theorem handleError_effect :
  ∀ m message,
    let m' := handleError m message in
    events m' = events m ++ [OnError message]
    ∧ (includes "WebSocket" message || includes "connection" message = false →
       m' = emit m (OnError message))
    ∧ (includes "WebSocket" message || includes "connection" message = true →
       isConnected m' = false
       ∧ (autoReconnect m = true →
          reconnectAttempts m' = reconnectAttempts m + 1
          ∧ length (pendingReconnects m') = S (length (pendingReconnects m)))
       ∧ (autoReconnect m = false → timers m' = timers m))
    ∧ onSocketClose m = emit m (OnError "Connection Closed.")
    ∧ (isConnected m = true →
       isConnected (onSocketClose m) = true
       ∧ healthCheckTick (onSocketClose m) = onSocketClose m).
Proof.
  intros m message. cbv zeta.
  assert (Hclose : onSocketClose m = emit m (OnError "Connection Closed."))
    by reflexivity.
  split; [|split; [|split; [|split; [exact Hclose|]]]].
  - unfold handleError.
    destruct (includes "WebSocket" message || includes "connection" message);
      [|reflexivity].
    cbv zeta.
    match goal with
    | |- context [if ?c then _ else _] => destruct c
    end; reflexivity.
  - intros E. unfold handleError. rewrite E. reflexivity.
  - intros E. unfold handleError. rewrite E. cbv zeta.
    change (autoReconnect (set_isConnected m false)) with (autoReconnect m).
    destruct (autoReconnect m).
    + split; [reflexivity|]. split; [|discriminate]. intros _.
      split; [reflexivity|].
      change (pendingReconnects
                (emit (scheduleReconnect (set_isConnected m false)) (OnError message)))
        with (pendingReconnects (scheduleReconnect (set_isConnected m false))).
      rewrite ManagerProperties.pendingReconnects_scheduleReconnect.
      rewrite length_app.
      change (pendingReconnects (set_isConnected m false)) with (pendingReconnects m).
      cbn [length]. lia.
    + split; [reflexivity|]. split; [discriminate | reflexivity].
  - intros Hc. rewrite Hclose. split; [exact Hc|].
    unfold healthCheckTick.
    change (isConnected (emit m (OnError "Connection Closed."))) with (isConnected m).
    rewrite Hc. reflexivity.
Qed.

Lemma handleError_effect_witness :
  length (pendingReconnects (handleError defaultManager "WebSocket is not open"))
  = S (length (pendingReconnects defaultManager))
  ∧ handleError defaultManager "Unexpected token in JSON"
    = emit defaultManager (OnError "Unexpected token in JSON").
Proof.
  pose proof (handleError_effect defaultManager "WebSocket is not open") as P.
  pose proof (handleError_effect defaultManager "Unexpected token in JSON") as Q.
  cbv zeta in P, Q.
  destruct P as (_ & _ & P & _). destruct Q as (_ & Q & _).
  split; [exact (proj2 (proj1 (proj2 (P eq_refl)) eq_refl)) | exact (Q eq_refl)].
Defined.

(** *** Disconnecting *)

Lemma filter_as_List_filter (P : Timer → Prop) `{∀ t, Decision (P t)}
    (f : Timer → bool) (l : list Timer) :
  (∀ t, t ∈ l → (P t ↔ f t = true)) →
  filter P l = List.filter f l.
Proof.
  induction l as [|x xs IH]; intros Hl; [reflexivity|].
  assert (Hxs : ∀ t, t ∈ xs → (P t ↔ f t = true))
    by (intros t Ht; apply Hl; right; exact Ht).
  pose proof (Hl x (list_elem_of_here _ _)) as Hx. simpl.
  destruct (f x) eqn:Fx.
  - rewrite filter_cons_True by (apply Hx; reflexivity). rewrite (IH Hxs). reflexivity.
  - rewrite filter_cons_False by (intros HP; apply Hx in HP; discriminate).
    exact (IH Hxs).
Qed.

Lemma timers_stopHealthCheck m :
  timersConsistent m →
  timers (stopHealthCheck m)
  = List.filter (λ t, negb (isKind HealthCheckTimer t)) (timers m).
Proof.
  intros [H1 H2 H3 H4 H5 H6]. unfold stopHealthCheck.
  destruct (healthCheckTimer m) as [id|] eqn:E.
  - simpl. apply filter_as_List_filter. intros t Ht.
    rewrite negb_true_iff, <- not_true_iff_false, isKind_true. split.
    + intros Hne Hk. specialize (H3 t Ht Hk). congruence.
    + intros Hk Hid. apply Hk. exact (proj2 (H5 id eq_refl) t Ht Hid).
  - symmetry. apply forallb_filter_id. apply forallb_forall. intros t Ht.
    apply list_elem_of_In in Ht. apply negb_true_iff, not_true_iff_false.
    rewrite isKind_true. intros Hk. specialize (H3 t Ht Hk). discriminate.
Qed.

Lemma timers_stopTokenRefresh m :
  timersConsistent m →
  timers (stopTokenRefresh m)
  = List.filter (λ t, negb (isKind TokenRefreshTimer t)) (timers m).
Proof.
  intros [H1 H2 H3 H4 H5 H6]. unfold stopTokenRefresh.
  destruct (tokenRefreshTimer m) as [id|] eqn:E.
  - simpl. apply filter_as_List_filter. intros t Ht.
    rewrite negb_true_iff, <- not_true_iff_false, isKind_true. split.
    + intros Hne Hk. specialize (H4 t Ht Hk). congruence.
    + intros Hk Hid. apply Hk. exact (proj2 (H6 id eq_refl) t Ht Hid).
  - symmetry. apply forallb_filter_id. apply forallb_forall. intros t Ht.
    apply list_elem_of_In in Ht. apply negb_true_iff, not_true_iff_false.
    rewrite isKind_true. intros Hk. specialize (H4 t Ht Hk). discriminate.
Qed.

Lemma only_reconnects (l : list Timer) :
  List.filter (λ t, negb (isKind TokenRefreshTimer t))
    (List.filter (λ t, negb (isKind HealthCheckTimer t)) l)
  = List.filter isReconnect l.
Proof.
  induction l as [|x xs IH]; [reflexivity|].
  cbn [List.filter].
  assert (E : isReconnect x
              = negb (isKind HealthCheckTimer x) && negb (isKind TokenRefreshTimer x)).
  { unfold isReconnect, isKind. destruct (timer_kind x); reflexivity. }
  rewrite E.
  destruct (negb (isKind HealthCheckTimer x)); cbn [List.filter andb];
    [destruct (negb (isKind TokenRefreshTimer x))|]; rewrite IH; reflexivity.
Qed.

Lemma timers_disconnect m :
  timersConsistent m → timers (disconnect m) = pendingReconnects m.
Proof.
  intros H. unfold disconnect, pendingReconnects.
  change (timers (stopTokenRefresh (stopHealthCheck m))
          = List.filter isReconnect (timers m)).
  rewrite (timers_stopTokenRefresh _ (proj1 (tc_stopHealthCheck m H))).
  rewrite (timers_stopHealthCheck m H). apply only_reconnects.
Qed.

Lemma isConnected_connected m outcome now r :
  snd outcome = Ok r → isConnected (fst (connect m outcome now)) = true.
Proof.
  intros Ho. exact (proj1 (proj2 (ManagerProperties.connect_success m outcome now r Ho))).
Qed.

(** X22. [disconnect()] stops the health check and the token refresh and
    forgets the connection, so that [getApi()] throws; it does not cancel a
    reconnect that is scheduled. The timers left are exactly the pending
    reconnects, and when one of them comes due the manager connects
    again. *)
Theorem disconnect_keeps_reconnects :
  ∀ options m,
    reachable options m →
    timers (disconnect m) = pendingReconnects m
    ∧ pendingReconnects (disconnect m) = pendingReconnects m
    ∧ healthCheckTimer (disconnect m) = None
    ∧ tokenRefreshTimer (disconnect m) = None
    ∧ isConnected (disconnect m) = false
    ∧ getApi (disconnect m) = Throw (Error "Not connected. Call connect() first.")
    ∧ events (disconnect m) = events m ++ [OnDisconnected]
    ∧ ∀ id outcome now r,
        hasTimer m id ReconnectTimer →
        snd outcome = Ok r →
        hasTimer (disconnect m) id ReconnectTimer
        ∧ isConnected (fireReconnectTimer (disconnect m) id outcome now) = true.
Proof.
  intros options m R. pose proof (tc_reachable options m R) as H.
  pose proof (timers_disconnect m H) as Et.
  assert (Ep : pendingReconnects (disconnect m) = pendingReconnects m).
  { unfold pendingReconnects at 1. rewrite Et. unfold pendingReconnects.
    induction (timers m) as [|x xs IH]; [reflexivity|]. simpl.
    destruct (isReconnect x) eqn:Ex; simpl; rewrite ?Ex, IH; reflexivity. }
  split; [exact Et|]. split; [exact Ep|].
  destruct (tc_stopHealthCheck m H) as [Hh Eh].
  destruct (tc_stopTokenRefresh _ Hh) as [_ Ek].
  split.
  { change (healthCheckTimer (stopTokenRefresh (stopHealthCheck m)) = None).
    unfold stopTokenRefresh.
    destruct (tokenRefreshTimer (stopHealthCheck m)); [exact Eh | exact Eh]. }
  split; [exact Ek|]. split; [reflexivity|]. split; [reflexivity|].
  split; [|].
  { change (events (stopTokenRefresh (stopHealthCheck m)) ++ [OnDisconnected]
            = events m ++ [OnDisconnected]).
    f_equal. unfold stopTokenRefresh, stopHealthCheck.
    destruct (healthCheckTimer m); simpl;
      match goal with
      | |- context [match ?x with _ => _ end] => destruct x
      end; reflexivity. }
  intros id outcome now r [delay Hin] Ho. split.
  - exists delay. rewrite Et. unfold pendingReconnects.
    apply list_elem_of_In, filter_In. split; [apply list_elem_of_In; exact Hin|].
    reflexivity.
  - unfold fireReconnectTimer. exact (isConnected_connected _ outcome now r Ho).
Qed.

Lemma disconnect_keeps_reconnects_witness :
  timers (disconnect (onSocketError defaultManager "WebSocket is not open"))
  = pendingReconnects (onSocketError defaultManager "WebSocket is not open")
  ∧ isConnected
      (fireReconnectTimer
         (disconnect (onSocketError defaultManager "WebSocket is not open"))
         0 (livingRoomConnection, Ok tt) 0)
    = true.
Proof.
  assert (Hhas : hasTimer (onSocketError defaultManager "WebSocket is not open")
                   0 ReconnectTimer).
  { exists 5000. vm_compute. left. }
  destruct (disconnect_keeps_reconnects
              (mkOptions None None None None None None None) _
              (reachable_step _ defaultManager (SocketError "WebSocket is not open") _
                 (reachable_new _) (step_socketError _ _)))
    as (Et & _ & _ & _ & _ & _ & _ & F).
  split; [exact Et|].
  exact (proj2 (F 0%nat (livingRoomConnection, Ok tt) 0 tt Hhas eq_refl)).
Defined.

(** *** The end of the retries *)

Lemma connect_rejects m outcome now e :
  snd outcome = Throw e →
  maxReconnectAttempts m ≤ reconnectAttempts m →
  fst (connect m outcome now) = set_isConnected (set_api m (Some (fst outcome))) false
  ∧ snd (connect m outcome now) = Throw e.
Proof.
  intros Ho H. unfold connect. rewrite Ho. cbv zeta.
  change (reconnectAttempts (set_isConnected (set_api m (Some (fst outcome))) false))
    with (reconnectAttempts m).
  change (maxReconnectAttempts (set_isConnected (set_api m (Some (fst outcome))) false))
    with (maxReconnectAttempts m).
  apply Z.ltb_ge in H. rewrite H, andb_false_r. split; reflexivity.
Qed.

(** X23. With reconnection on, a manager whose every attempt fails stops
    after [maxReconnectAttempts] reconnects: the reconnect that comes due
    with the counter at the maximum rejects with the error and schedules
    nothing, the table of timers is as it was before the first attempt, and
    the manager stays disconnected with the counter at the maximum. *)
Theorem retries_end :
  ∀ m outcome now e (n : nat),
    snd outcome = Throw e →
    autoReconnect m = true →
    reconnectAttempts m = 0 →
    timersFresh m →
    pendingReconnects m = [] →
    (1 ≤ n)%nat →
    Z.of_nat n = maxReconnectAttempts m →
    let before := consecutiveAttempts (n - 1) m outcome now in
    let m' := consecutiveAttempts n m outcome now in
    (∃ t, pendingReconnects before = [t]
          ∧ snd (connect (clearTimer before (timer_id t)) outcome now) = Throw e)
    ∧ timers m' = timers m
    ∧ reconnectAttempts m' = maxReconnectAttempts m
    ∧ isConnected m' = false
    ∧ ∀ j : nat, consecutiveAttempts (n + j) m outcome now = m'.
Proof.
  intros m outcome now e n Ho Ha Hr Hf Hp Hn Hmax. cbv zeta.
  destruct n as [|k]; [lia|]. replace (S k - 1)%nat with k by lia.
  assert (Hk : Z.of_nat k < maxReconnectAttempts m) by lia.
  pose proof (ManagerProperties.consecutiveAttempts_failed m outcome now e k
                Ho Ha Hr Hf Hk) as F.
  cbv zeta in F. destruct F as (Ft & Fn & Fr & _ & Fm & _).
  set (before := consecutiveAttempts k m outcome now) in *.
  set (t := mkTimer (nextTimer m + k) ReconnectTimer
              (Z.min (reconnectDelay m * 2 ^ Z.of_nat k) maxDelay)) in *.
  assert (Pb : pendingReconnects before = [t]).
  { unfold pendingReconnects in *. rewrite Ft, List.filter_app, Hp. reflexivity. }
  assert (Hc : timers (clearTimer before (timer_id t)) = timers m).
  { simpl. rewrite Ft. apply ManagerProperties.clear_newest.
    intros t' Ht'. specialize (Hf t' Ht'). lia. }
  assert (Hfull : maxReconnectAttempts (clearTimer before (timer_id t))
                  ≤ reconnectAttempts (clearTimer before (timer_id t))).
  { change (maxReconnectAttempts before ≤ reconnectAttempts before). lia. }
  destruct (connect_rejects (clearTimer before (timer_id t)) outcome now e Ho Hfull)
    as [E1 E2].
  assert (Em : consecutiveAttempts (S k) m outcome now
               = set_isConnected
                   (set_api (clearTimer before (timer_id t)) (Some (fst outcome)))
                   false).
  { change (consecutiveAttempts (S k) m outcome now)
      with (match last (pendingReconnects before) with
            | Some t0 => fireReconnectTimer before (timer_id t0) outcome now
            | None => before
            end).
    rewrite Pb. cbn [last]. unfold fireReconnectTimer. exact E1. }
  split; [exists t; split; [exact Pb | exact E2]|].
  rewrite Em.
  split; [exact Hc|]. split; [change (reconnectAttempts before = maxReconnectAttempts m); lia|].
  split; [reflexivity|].
  intros j. induction j as [|j IH].
  - rewrite Nat.add_0_r. exact Em.
  - rewrite Nat.add_succ_r.
    change (consecutiveAttempts (S (S k + j)) m outcome now)
      with (match last (pendingReconnects (consecutiveAttempts (S k + j) m outcome now)) with
            | Some t0 =>
                fireReconnectTimer (consecutiveAttempts (S k + j) m outcome now)
                  (timer_id t0) outcome now
            | None => consecutiveAttempts (S k + j) m outcome now
            end).
    rewrite IH.
    replace (pendingReconnects
               (set_isConnected
                  (set_api (clearTimer before (timer_id t)) (Some (fst outcome))) false))
      with (@nil Timer); [reflexivity|].
    symmetry. unfold pendingReconnects.
    change (List.filter isReconnect (timers (clearTimer before (timer_id t))) = []).
    rewrite Hc. exact Hp.
Qed.

Lemma retries_end_witness :
  timers (consecutiveAttempts 5 defaultManager loginFailure 0) = timers defaultManager
  ∧ reconnectAttempts (consecutiveAttempts 5 defaultManager loginFailure 0) = 5
  ∧ consecutiveAttempts 7 defaultManager loginFailure 0
    = consecutiveAttempts 5 defaultManager loginFailure 0.
Proof.
  assert (Hf : timersFresh defaultManager).
  { intros t Hin. apply not_elem_of_nil in Hin. destruct Hin. }
  pose proof (retries_end defaultManager loginFailure 0
                (Error "Login failed: Unknown error") 5
                eq_refl eq_refl eq_refl Hf eq_refl ltac:(lia) eq_refl) as P.
  cbv zeta in P. destruct P as (_ & Ht & Hr & _ & Hj).
  split; [exact Ht|]. split; [exact Hr | exact (Hj 2%nat)].
Defined.

(** *** Subscribing through the manager *)

Lemma existsb_eqb (x : string) (l : list string) :
  existsb (String.eqb x) l = true ↔ x ∈ l.
Proof.
  rewrite existsb_exists. split.
  - intros (y & Hy & E). apply String.eqb_eq in E. subst y.
    apply list_elem_of_In. exact Hy.
  - intros Hx. exists x. split; [apply list_elem_of_In; exact Hx | apply String.eqb_refl].
Qed.

Lemma uniq_fold (l acc : list string) :
  NoDup acc →
  let r := fold_left
             (fun acc x => if existsb (String.eqb x) acc then acc else acc ++ [x])
             l acc in
  NoDup r ∧ (∀ x, x ∈ r ↔ x ∈ acc ∨ x ∈ l) ∧ ∃ rest, r = acc ++ rest.
Proof.
  revert acc. induction l as [|y ys IH]; intros acc Hacc; cbv zeta; simpl.
  - split; [exact Hacc|]. split.
    + intros x. split; [intros Hx; left; exact Hx|].
      intros [Hx | Hx]; [exact Hx | apply not_elem_of_nil in Hx; destruct Hx].
    + exists []. rewrite app_nil_r. reflexivity.
  - destruct (existsb (String.eqb y) acc) eqn:Ey.
    + apply existsb_eqb in Ey.
      destruct (IH acc Hacc) as (Hn & Hm & Hpre). split; [exact Hn|]. split; [|exact Hpre].
      intros x. rewrite Hm. split.
      * intros [Hx | Hx]; [left; exact Hx | right; right; exact Hx].
      * intros [Hx | Hx]; [left; exact Hx|].
        apply elem_of_cons in Hx as [-> | Hx]; [left; exact Ey | right; exact Hx].
    + assert (Hy : y ∉ acc).
      { intros Hin. apply existsb_eqb in Hin. congruence. }
      assert (Hacc' : NoDup (acc ++ [y])).
      { apply NoDup_app. split; [exact Hacc|]. split; [|apply NoDup_singleton].
        intros x Hx Hx'. apply list_elem_of_singleton in Hx'. subst x. exact (Hy Hx). }
      destruct (IH (acc ++ [y]) Hacc') as (Hn & Hm & rest & Hpre).
      split; [exact Hn|]. split.
      * intros x. rewrite Hm, elem_of_app, list_elem_of_singleton, elem_of_cons. tauto.
      * exists (y :: rest). rewrite Hpre, <- app_assoc. reflexivity.
Qed.

Lemma uniq_spec (l : list string) :
  NoDup (uniq l) ∧ ∀ x, x ∈ uniq l ↔ x ∈ l.
Proof.
  destruct (uniq_fold l [] NoDup_nil_2) as (Hn & Hm & _).
  split; [exact Hn|]. intros x. unfold uniq. rewrite Hm. split.
  - intros [Hx | Hx]; [apply not_elem_of_nil in Hx; destruct Hx | exact Hx].
  - intros Hx. right. exact Hx.
Qed.

(** X24. Subscribing through the manager needs a connected manager; else it
    throws "Not connected. Call connect() first.". When it succeeds, the
    manager's list of MAC addresses becomes the old list and the new one
    together, each address once. The devices of the connection, however,
    are those selected by the new addresses alone: a device subscribed
    before and not named again is no longer there, and an empty list
    subscribes to every device of the directory. When the subscription does
    not resolve, the list of MAC addresses stays as it was. *)
Theorem manager_subscribeToHvacs :
  ∀ m macs deviceInfo socketOpens,
    (∀ e, getApi m = Throw e →
          subscribeToHvacs m macs deviceInfo socketOpens
          = (m, Rejected (ThrownError e))
          ∧ e = Error "Not connected. Call connect() first.")
    ∧ (∀ m',
         subscribeToHvacs m macs deviceInfo socketOpens = (m', Resolved) →
         isConnected m' = true
         ∧ NoDup (macAddresses m')
         ∧ (∀ x, x ∈ macAddresses m' ↔ x ∈ macAddresses m ∨ x ∈ macs)
         ∧ ∃ error dir,
             deviceInfo = InfoObject error (DataList dir)
             ∧ getHvacs m'
               = Ok (seededDevice
                       <$> List.filter (λ d, selected macs (d_macAddress d)) dir))
    ∧ (∀ m' settled,
         subscribeToHvacs m macs deviceInfo socketOpens = (m', settled) →
         settled ≠ Resolved →
         macAddresses m' = macAddresses m).
Proof.
  intros m macs deviceInfo socketOpens. split; [|split].
  - intros e He. unfold subscribeToHvacs. rewrite He. split; [reflexivity|].
    unfold getApi in He.
    destruct (api m); [destruct (isConnected m)|]; congruence.
  - intros m' E. unfold subscribeToHvacs in E.
    destruct (getApi m) as [a|e] eqn:Ha; [|discriminate].
    destruct (subscribeToHVACs a macs deviceInfo socketOpens) as [a' settled] eqn:Ha'.
    destruct settled; [|discriminate|discriminate].
    injection E as <-.
    assert (Hc : isConnected m = true).
    { unfold getApi in Ha. destruct (api m); [|discriminate].
      destruct (isConnected m); [reflexivity | discriminate]. }
    destruct (uniq_spec (macAddresses m ++ macs)) as [Hn Hm].
    split; [exact Hc|]. split; [exact Hn|]. split.
    + intros x. change (x ∈ uniq (macAddresses m ++ macs)
                        ↔ x ∈ macAddresses m ∨ x ∈ macs).
      rewrite Hm. apply elem_of_app.
    + destruct (ConnectionProperties.subscribeToHVACs_resolved a macs deviceInfo
                  socketOpens a' Ha') as (error & dir & Hi & Hh).
      exists error, dir. split; [exact Hi|].
      unfold getHvacs, getApi. cbn [api set_macAddresses set_api isConnected].
      rewrite Hc. simpl. rewrite Hh. reflexivity.
  - intros m' settled E Hs. unfold subscribeToHvacs in E.
    destruct (getApi m) as [a|e]; [|injection E as <- _; reflexivity].
    destruct (subscribeToHVACs a macs deviceInfo socketOpens) as [a' s'].
    destruct s'; injection E as <- <-; [exfalso; apply Hs|..]; reflexivity.
Qed.

Lemma manager_subscribeToHvacs_witness :
  subscribeToHvacs defaultManager ["C45BBEC42467"]
    (InfoObject JUndefined (DataList [compactEntry])) true
  = (defaultManager, Rejected (ThrownError (Error "Not connected. Call connect() first.")))
  ∧ ∃ m',
      subscribeToHvacs (fst (connect defaultManager (livingRoomConnection, Ok tt) 0))
        ["C45BBEC42467"] (InfoObject JUndefined (DataList [newEntry; compactEntry])) true
      = (m', Resolved)
      ∧ getHvacs m' = Ok [seededDevice compactEntry].
Proof.
  destruct (manager_subscribeToHvacs defaultManager ["C45BBEC42467"]
              (InfoObject JUndefined (DataList [compactEntry])) true) as [F _].
  split; [exact (proj1 (F _ eq_refl))|].
  destruct (manager_subscribeToHvacs
              (fst (connect defaultManager (livingRoomConnection, Ok tt) 0))
              ["C45BBEC42467"] (InfoObject JUndefined (DataList [newEntry; compactEntry]))
              true) as (_ & S & _).
  destruct (subscribeToHvacs (fst (connect defaultManager (livingRoomConnection, Ok tt) 0))
              ["C45BBEC42467"] (InfoObject JUndefined (DataList [newEntry; compactEntry]))
              true) as [m' settled] eqn:E.
  assert (Es : settled = Resolved).
  { apply (f_equal snd) in E. vm_compute in E. symmetry. exact E. }
  subst settled. exists m'. split; [reflexivity|].
  destruct (S m' eq_refl) as (_ & _ & _ & error & dir & Hi & Hh).
  injection Hi as <- <-. exact Hh.
Defined.

End ManagerOpsProperties.
